(** * imgpkg push validation, bundle contents and the prefixed log writer

    A shallow embedding of
    - [pkg/imgpkg/cmd/push.go]       (PushOptions: Run, validateFlags,
                                      validateFiles, checkRepeatedPaths),
    - [pkg/imgpkg/bundle/contents.go] (Contents: Push, PresentsAsBundle,
                                      validate, findImgpkgDirs,
                                      validateImgpkgDirs),
    - [pkg/imgpkg/image/prefixed_logger.go] (LoggerPrefixWriter.Write),
    together with the parts of Go's [strings], [path/filepath] and slice
    semantics those functions rely on.  The operations of the tool that are
    not under src/ (the image build, the plain image push, pull and copy)
    are modelled from the spec, and marked as such where they are defined. *)

From stdpp Require Import gmap strings list pretty.
From Stdlib Require Import Ascii.

(** ** Go values shared by the three packages *)

(** Go's [error] interface, by dynamic type.  [errorString] stands for the
    values built by [fmt.Errorf] and [errors.New], [PathError] for what the
    operating system reports through [os.Lstat], [os.Getwd] or a directory
    listing, and [bundleValidationError] is the struct of bundle/contents.go. *)
Inductive error : Type :=
  | errorString (msg : string)
  | PathError (msg : string)
  | bundleValidationError (msg : string).

(** [err.Error()] *)
Definition Error (e : error) : string :=
  match e with
  | errorString m => m
  | PathError m => m
  | bundleValidationError m => m
  end.

Global Instance error_eq_dec : EqDecision error.
Proof. solve_decision. Defined.

(** A Go result pair [(v, err)]. *)
Inductive Result (A : Type) : Type :=
  | Ok (v : A)
  | Err (e : error).
Arguments Ok {A} v.
Arguments Err {A} e.

Definition isErr {A} (r : Result A) : bool :=
  match r with Ok _ => false | Err _ => true end.

(** ** package strings *)

Module strings.

(** [strings.Join(elems, sep)] *)
Fixpoint Join (elems : list string) (sep : string) : string :=
  match elems with
  | [] => ""
  | x :: xs =>
      match xs with
      | [] => x
      | _ :: _ => x +:+ sep +:+ Join xs sep
      end
  end.

(** [strings.Split(s, "/")]: the pieces between slashes; never empty. *)
Fixpoint split_slash (s : string) : list string :=
  match s with
  | EmptyString => [""]
  | String c s' =>
      if Ascii.eqb c "/" then "" :: split_slash s'
      else match split_slash s' with
           | x :: xs => String c x :: xs
           | [] => [String c ""]
           end
  end.

End strings.

(** What [fmt] prints for [%d] and a non-negative int. *)
Definition fmtInt (n : nat) : string := pretty n.

(** ** package path/filepath (Unix: separator [/], no volume names) *)

Module filepath.

(** [len(path) > 0 && path[0] == '/'], which is also [IsAbs] on Unix. *)
Definition rooted (path : string) : bool :=
  match path with
  | String c _ => Ascii.eqb c "/"
  | EmptyString => false
  end.

(** One turn of the loop of [Clean], on a whole path element [c]; [out] is
    the list of elements written so far.  Empty and [.] elements are
    dropped; [..] removes the last written element when there is one that
    is not itself [..], is dropped at the root, and is kept otherwise. *)
Definition clean_step (is_rooted : bool) (out : list string) (c : string)
  : list string :=
  if decide (c = "" ∨ c = ".") then out
  else if decide (c = "..") then
    match last out with
    | Some t =>
        if decide (t = "..")
        then (if is_rooted then out else out ++ [".."])
        else removelast out
    | None => if is_rooted then out else out ++ [".."]
    end
  else out ++ [c].

(** The elements of [Clean(path)]. *)
Definition elems (path : string) : list string :=
  fold_left (clean_step (rooted path)) (strings.split_slash path) [].

(** The string [Clean] returns for a root flag and a list of elements. *)
Definition render (is_rooted : bool) (cs : list string) : string :=
  if is_rooted then "/" +:+ strings.Join cs "/"
  else match cs with
       | [] => "."
       | _ :: _ => strings.Join cs "/"
       end.

(** [filepath.Clean] *)
Definition Clean (path : string) : string :=
  render (rooted path) (elems path).

(** [filepath.Join(a, b)]: empty elements are ignored, the rest is joined
    with [/] and cleaned. *)
Definition Join (a b : string) : string :=
  if decide (a = "") then (if decide (b = "") then "" else Clean b)
  else Clean (a +:+ "/" +:+ b).

(** Drop the empty pieces at the end of a split path: the effect of
    stripping trailing slashes. *)
Fixpoint strip_trailing (cs : list string) : list string :=
  match cs with
  | [] => []
  | c :: cs' =>
      match strip_trailing cs' with
      | [] => if decide (c = "") then [] else [c]
      | r => c :: r
      end
  end.

(** [filepath.Base] *)
Definition Base (path : string) : string :=
  if decide (path = "") then "."
  else match last (strip_trailing (strings.split_slash path)) with
       | None => "/"
       | Some b => b
       end.

(** [path[:i+1]] for [i] the index of the last slash of [path] (the empty
    string when there is none). *)
Definition dir_part (path : string) : string :=
  strings.Join (removelast (strings.split_slash path) ++ [""]) "/".

(** [filepath.Dir] *)
Definition Dir (path : string) : string := Clean (dir_part path).

(** The elements left of [base] and of [targ] after their common leading
    elements: where the comparison loop of [Rel] stops. *)
Fixpoint strip_common (base targ : list string) : list string * list string :=
  match base, targ with
  | b :: base', t :: targ' =>
      if decide (b = t) then strip_common base' targ' else (base, targ)
  | _, _ => (base, targ)
  end.

(** [filepath.Rel]: [.] for paths that clean to the same string; an error
    when only one of the two is rooted, or when the first element left of the
    base is [..]; otherwise one [..] for every element left of the base,
    followed by the elements left of the target. *)
Definition Rel (basepath targpath : string) : Result string :=
  let cant :=
    errorString ("Rel: can't make " +:+ targpath +:+ " relative to " +:+ basepath) in
  if decide (Clean targpath = Clean basepath) then Ok "."
  else if negb (Bool.eqb (rooted (Clean basepath)) (rooted (Clean targpath)))
  then Err cant
  else
    let '(b, t) := strip_common (elems basepath) (elems targpath) in
    match b with
    | [] => Ok (strings.Join t "/")
    | b0 :: _ =>
        if decide (b0 = "..") then Err cant
        else Ok (strings.Join (replicate (length b) ".." ++ t) "/")
    end.

(** [filepath.Abs], with the working directory [os.Getwd] would report
    ([None] when it cannot be determined). *)
Definition Abs (wd : option string) (path : string) : Result string :=
  if rooted path then Ok (Clean path)
  else match wd with
       | Some d => Ok (Join d path)
       | None => Err (PathError "getwd: no such file or directory")
       end.

(** The names a directory listing returns: not empty, not [.] or [..], and
    without a slash. *)
Fixpoint no_slash (s : string) : bool :=
  match s with
  | EmptyString => true
  | String c s' => negb (Ascii.eqb c "/") && no_slash s'
  end.

Definition plain (name : string) : bool :=
  no_slash name && bool_decide (name ≠ "") && bool_decide (name ≠ ".")
  && bool_decide (name ≠ "..").

(** Cleaned element lists, as [elems] returns them: some leading [..] (none
    when rooted), then plain names. *)
Definition normal (r : bool) (cs : list string) : Prop :=
  ∃ k ps, cs = replicate k ".." ++ ps ∧ Forall (λ c, plain c = true) ps ∧
          (r = true → k = 0).

(** [Join] over several names, left to right: the path [Walk] builds on the
    way down from [root]. *)
Definition joins (root : string) (names : list string) : string :=
  fold_left Join names root.

End filepath.

(** ** The file tree seen by [filepath.Walk] *)

(** [os.FileInfo], as far as the program looks at it. *)
Record FileInfo : Type := { IsDir : bool }.

(** What [os.Lstat] and the directory listing find at a path: a file (or
    anything else that is not a directory), a directory with its entries in
    the order [Walk] visits them, or an entry the operating system fails on:
    [Broken None e] when [Lstat] fails, [Broken (Some info) e] for a
    directory whose listing fails. *)
#[local] Unset Elimination Schemes.
Inductive node : Type :=
  | File
  | Directory (entries : list (string * node))
  | Broken (info : option FileInfo) (e : error).
#[local] Set Elimination Schemes.

Section node_ind.
Variable P : node → Prop.
Hypothesis HFile : P File.
Hypothesis HDirectory :
  ∀ entries, Forall (λ en, P en.2) entries → P (Directory entries).
Hypothesis HBroken : ∀ info e, P (Broken info e).

(** Induction on file trees, through the entries of a directory. *)
Fixpoint node_ind (n : node) : P n :=
  match n with
  | File => HFile
  | Broken info e => HBroken info e
  | Directory entries =>
      HDirectory entries
        ((fix all (es : list (string * node)) : Forall (λ en, P en.2) es :=
            match es with
            | [] => List.Forall_nil _
            | en :: es' => @List.Forall_cons _ _ en es' (node_ind en.2) (all es')
            end) entries)
  end.
End node_ind.

(** The file system is consulted once per input path. *)
Definition FS : Type := string → node.

Module Walk.
Section Walk.

(** The captured variables of the visiting closure. *)
Context {S : Type}.

(** [filepath.WalkFunc], with the closure's variables passed along. *)
Definition WalkFunc : Type :=
  string → option FileInfo → option error → S → S * option error.

Variable walkFn : WalkFunc.

(** [filepath.walk].  The visitors of this program never return
    [filepath.SkipDir], so the special treatment of that value is left
    out: the first error a visitor returns ends the walk. *)
Fixpoint walk (path : string) (n : node) (s : S) : S * option error :=
  match n with
  | File => walkFn path (Some {| IsDir := false |}) None s
  | Broken info e => walkFn path info (Some e) s
  | Directory entries =>
      match walkFn path (Some {| IsDir := true |}) None s with
      | (s1, Some e) => (s1, Some e)
      | (s1, None) =>
          (fix names (es : list (string * node)) (s : S) : S * option error :=
             match es with
             | [] => (s, None)
             | (name, child) :: es' =>
                 match walk (filepath.Join path name) child s with
                 | (s2, Some e) => (s2, Some e)
                 | (s2, None) => names es' s2
                 end
             end) entries s1
      end
  end.

(** [filepath.Walk(root, walkFn)] *)
Definition Walk (fs : FS) (root : string) (s : S) : S * option error :=
  walk root (fs root) s.

(** One call of the visitor. *)
Definition visit : Type := string * option FileInfo * option error.

(** The calls [walk] makes when no call returns an error, in order. *)
Fixpoint visits (path : string) (n : node) : list visit :=
  match n with
  | File => [(path, Some {| IsDir := false |}, None)]
  | Broken info e => [(path, info, Some e)]
  | Directory entries =>
      (path, Some {| IsDir := true |}, None) ::
      (fix names (es : list (string * node)) : list visit :=
         match es with
         | [] => []
         | (name, child) :: es' =>
             visits (filepath.Join path name) child ++ names es'
         end) entries
  end.

(** Calling the visitor on a list of visits until one returns an error. *)
Fixpoint run (vs : list visit) (s : S) : S * option error :=
  match vs with
  | [] => (s, None)
  | (path, info, err) :: vs' =>
      match walkFn path info err s with
      | (s1, Some e) => (s1, Some e)
      | (s1, None) => run vs' s1
      end
  end.

End Walk.
End Walk.

(** ** pkg/imgpkg/cmd/push.go: flags and file validation *)

Record ImageFlags : Type := { Image : string }.
Record BundleFlags : Type := { Bundle : string }.
Record OutputFlags : Type := { LockFilePath : string }.
Record FileFlags : Type :=
  { Files : list string; FileExcludeDefaults : list string }.

(** [PushOptions]; the [ui] and the registry flags are collaborators of
    [Run], see below. *)
Record PushOptions : Type :=
  { imageFlags : ImageFlags;
    bundleFlags : BundleFlags;
    outputFlags : OutputFlags;
    fileFlags : FileFlags }.

Definition BundleDir : string := ".imgpkg".

Definition isBundle (o : PushOptions) : bool :=
  bool_decide (o.(bundleFlags).(Bundle) ≠ "").

Definition isImage (o : PushOptions) : bool :=
  bool_decide (o.(imageFlags).(Image) ≠ "").

Definition validateFlags (o : PushOptions) : option error :=
  let image :=
    if isImage o then
      if isBundle o then
        Some (errorString "Expected only one of image or bundle")
      else if bool_decide (o.(outputFlags).(LockFilePath) ≠ "") then
        Some (errorString
                "Lock output is not compatible with image, use bundle for lock output")
      else None
    else None in
  match image with
  | Some e => Some e
  | None =>
      if negb (isImage o) && negb (isBundle o) then
        Some (errorString "Expected either image or bundle")
      else None
  end.

(** The two variables the visitor of [validateFiles] captures:
    [bundlePaths] and [prunedFilepaths]. *)
Definition fileState : Type := list string * gmap string (list string).

(** [prunedFilepaths[k] = append(prunedFilepaths[k], path)] *)
Definition appendAt (k path : string) (m : gmap string (list string))
  : gmap string (list string) :=
  <[k := (m !!! k) ++ [path]]> m.

(** The closure passed to [filepath.Walk] in [validateFiles]; [wd] is the
    working directory of the process. *)
Definition validateFiles_fn (o : PushOptions) (wd : option string)
    (inputPath : string) : @Walk.WalkFunc fileState :=
  λ path info err '(bundlePaths, prunedFilepaths),
    match err, info with
    | Some e, _ => ((bundlePaths, prunedFilepaths), Some e)
    | None, None =>
        (* not reached: [Walk] passes a [FileInfo] whenever [err] is nil *)
        ((bundlePaths, prunedFilepaths), None)
    | None, Some info =>
        match filepath.Rel inputPath path with
        | Err e => ((bundlePaths, prunedFilepaths), Some e)
        | Ok prunedPath =>
            if bool_decide (prunedPath = ".") && info.(IsDir) then
              ((bundlePaths, prunedFilepaths), None)
            else
              let prunedPath :=
                if bool_decide (prunedPath = ".") then filepath.Base inputPath
                else prunedPath in
              let prunedFilepaths := appendAt prunedPath path prunedFilepaths in
              if bool_decide (filepath.Base path ≠ BundleDir) then
                ((bundlePaths, prunedFilepaths), None)
              else if isImage o then
                ((bundlePaths, prunedFilepaths),
                 Some (errorString
                   ("Images cannot be pushed with a '" +:+ BundleDir +:+
                    "' bundle directory (found at '" +:+ path +:+
                    "'), consider using a bundle")))
              else if bool_decide (filepath.Dir path ≠ inputPath) then
                ((bundlePaths, prunedFilepaths),
                 Some (errorString
                   ("Expected '" +:+ BundleDir +:+
                    "' dir to be a direct child of '" +:+ inputPath +:+
                    "', but was: '" +:+ path +:+ "'")))
              else
                match filepath.Abs wd path with
                | Err e => ((bundlePaths, prunedFilepaths), Some e)
                | Ok path => ((bundlePaths ++ [path], prunedFilepaths), None)
                end
        end
    end.

(** The [for _, inputPath := range o.FileFlags.Files] loop of
    [validateFiles]. *)
Fixpoint validateFiles_loop (o : PushOptions) (wd : option string) (fs : FS)
    (inputs : list string) (s : fileState) : fileState * option error :=
  match inputs with
  | [] => (s, None)
  | inputPath :: rest =>
      match Walk.Walk (validateFiles_fn o wd inputPath) fs inputPath s with
      | (s1, Some e) => (s1, Some e)
      | (s1, None) => validateFiles_loop o wd fs rest s1
      end
  end.

Section range.

(** Go does not specify the order in which [range] visits a map:
    [range_map] is any order. *)
Variable range_map : gmap string (list string) → list (string * list string).

(** The body of the loop of [checkRepeatedPaths], over the visited
    entries. *)
Fixpoint repeatedPaths (entries : list (string * list string)) : list string :=
  match entries with
  | [] => []
  | (_, v) :: rest =>
      if bool_decide (1 < length v) then v ++ repeatedPaths rest
      else repeatedPaths rest
  end.

Definition checkRepeatedPaths (prunedFilepaths : gmap string (list string))
  : option error :=
  let repeated := repeatedPaths (range_map prunedFilepaths) in
  if bool_decide (0 < length repeated) then
    Some (errorString
            ("Found duplicate paths: " +:+ strings.Join repeated ", "))
  else None.

Definition validateFiles (o : PushOptions) (wd : option string) (fs : FS)
  : option error :=
  match validateFiles_loop o wd fs o.(fileFlags).(Files) ([], ∅) with
  | (_, Some e) => Some e
  | ((bundlePaths, prunedFilepaths), None) =>
      if bool_decide (1 < length bundlePaths) then
        Some (errorString
                ("Expected one '" +:+ BundleDir +:+ "' dir, got " +:+
                 fmtInt (length bundlePaths) +:+ ": " +:+
                 strings.Join bundlePaths ", "))
      else checkRepeatedPaths prunedFilepaths
  end.

End range.

(** ** pkg/imgpkg/cmd/push.go: Run *)

(** [regname.Tag], by the three methods [Run] calls: [Context()] printed
    with [%s] (the repository), [TagStr()] and [Name()]. *)
Record Tag : Type := { Context : string; TagStr : string; Name : string }.

(** [ctlimg.FileImage]: the temporary tarball with the single content layer,
    and the annotations of the manifest the image is written with. *)
Record FileImage : Type :=
  { Layer : string; Annotations : gmap string string }.

Record BundleImage : Type := { Url : string; Tag_ : string }.
Record BundleSpec : Type := { Image_ : BundleImage }.
Record BundleLock : Type :=
  { ApiVersion : string; Kind : string; Spec : BundleSpec }.

(** Modelled from the spec: a manifest as the Registry Facade reads it (the
    registry client is not under src/): its digest, the tag it is read
    under, if any, its content layer with its annotations, and, for a
    bundle, the references of the ImagesLock in its content. *)
Record Manifest : Type :=
  { ManifestDigest : string;
    ManifestTag : option string;
    ManifestImage : FileImage;
    LockedImages : list string }.

(** The calls [Run] makes to the world outside the process, in order, each
    with what it came back with ([None] for an error when it succeeded):
    the image build, [registry.WriteImage], [o.ui.BeginLinef],
    [ioutil.WriteFile] (mode 0700) and [img.Remove].

    The image build is [tarImg.AsFileBundle()] when [bundle] is set and
    [tarImg.AsFileImage()] otherwise, on
    [ctlimg.NewTarImage(files, excludes, InfoLog{o.ui})]: it reads the files,
    holds the UI through the logger it is handed, and creates the temporary
    image it returns.  What it writes to that logger is not decided under
    src/ and is part of the call.

    The last seven are the calls of the operations that are not under src/,
    by the component of the spec that takes them: the Content Packer
    ([Pack]), the Lock Store reading a BundleLock ([ReadLock]) and rewriting
    an ImagesLock ([RewriteImagesLock]), the Registry Facade ([ReadManifest],
    [CopyManifest], [TagManifest]) and the materialization of a content
    layer in a directory ([Extract]). *)
Inductive event : Type :=
  | BuildImage (bundle : bool) (files excludes : list string)
               (res : Result FileImage)
  | WriteImage (ref : Tag) (img : FileImage) (err : option error)
  | BeginLinef (line : string)
  | WriteFile (name : string) (data : string) (err : option error)
  | Remove (img : FileImage)
  | Pack (paths excluded : list string) (res : Result string)
  | ReadLock (path : string) (res : Result BundleLock)
  | ReadManifest (ref : string) (res : Result Manifest)
  | Extract (dir : string) (layer : string) (err : option error)
  | CopyManifest (digest : string) (to : string) (err : option error)
  | RewriteImagesLock (digest : string) (to : string) (err : option error)
  | TagManifest (to : string) (tag : string) (digest : string)
                (err : option error).

(** A computation that performs events and returns a Go result pair. *)
Definition Eff (A : Type) : Type := list event * Result A.

Global Instance Eff_ret : MRet Eff := λ A v, ([], Ok v).
Global Instance Eff_bind : MBind Eff := λ A B f m,
  match m with
  | (t, Ok v) => let '(t', r) := f v in (t ++ t', r)
  | (t, Err e) => (t, Err e)
  end.

(** A step without events. *)
Definition pure {A} (r : Result A) : Eff A := ([], r).
(** A call to the outside that comes back with a result pair. *)
Definition call {A} (ev : Result A → event) (res : Result A) : Eff A :=
  ([ev res], res).
(** A call to the outside that comes back with [err]. *)
Definition perform (call : option error → event) (err : option error) : Eff unit :=
  ([call err], match err with None => Ok tt | Some e => Err e end).
(** A Go function that returns only an [error]. *)
Definition check (err : option error) : Eff unit :=
  pure (match err with None => Ok tt | Some e => Err e end).
(** [defer f()]: [ev] happens when the function returns, whatever it returns. *)
Definition defer {A} (ev : event) (body : Eff A) : Eff A :=
  (body.1 ++ [ev], body.2).
(** [fmt.Errorf(prefix + "%s", err)] around a failing step. *)
Definition wrapErr {A} (prefix : string) (m : Eff A) : Eff A :=
  match m with
  | (t, Err e) => (t, Err (errorString (prefix +:+ Error e)))
  | r => r
  end.

(** The annotation that marks the manifest of a bundle, as the end-to-end
    test [TestBundlePushPullAnnotation] reads it back. *)
Definition BundleAnnotation : string := "io.k14s.imgpkg.bundle".

Section Run.

Variable range_map : gmap string (list string) → list (string * list string).

(** The process environment. *)
Variable wd : option string.
Variable fs : FS.

(** Collaborators outside the repository. *)
(** [regname.NewTag(ref, regname.WeakValidation)] *)
Variable NewTag : string → Result Tag.
(** whether the registry refuses [WriteImage(ref, img)], and with what *)
Variable registryError : Tag → FileImage → option error.
(** [img.Digest()] *)
Variable Digest : FileImage → Result string.
(** [yaml.Marshal] on a [BundleLock] *)
Variable yamlMarshal : BundleLock → Result string.
(** whether [ioutil.WriteFile] fails on a path, and with what *)
Variable writeFileError : string → option error.
(** the tarball [ctlimg.NewTarImage(files, excludes, log)] writes to a
    temporary file, or the error of doing so *)
Variable tarball : list string → list string → Result string.

(** Modelled from the spec: [TarImage.AsFileBundle] and
    [TarImage.AsFileImage] of pkg/imgpkg/image are not under src/.  The
    tar stream is wrapped as a single content layer, and the artifact is
    tagged with the reserved annotation key, set to ["true"], only for
    bundles, never for plain images. *)
Definition AsFileBundle (files excludes : list string) : Result FileImage :=
  match tarball files excludes with
  | Ok layer =>
      Ok {| Layer := layer; Annotations := {[ BundleAnnotation := "true" ]} |}
  | Err e => Err e
  end.
Definition AsFileImage (files excludes : list string) : Result FileImage :=
  match tarball files excludes with
  | Ok layer => Ok {| Layer := layer; Annotations := ∅ |}
  | Err e => Err e
  end.

Definition Run (o : PushOptions) : Eff unit :=
  _ ← check (validateFlags o);
  _ ← check (validateFiles range_map o wd fs);
  let inputRef :=
    if isBundle o then o.(bundleFlags).(Bundle) else o.(imageFlags).(Image) in
  uploadRef ← wrapErr ("Parsing '" +:+ inputRef +:+ "': ") (pure (NewTag inputRef));
  img ← call (BuildImage (isBundle o) o.(fileFlags).(Files)
                         o.(fileFlags).(FileExcludeDefaults))
             (if isBundle o
              then AsFileBundle o.(fileFlags).(Files) o.(fileFlags).(FileExcludeDefaults)
              else AsFileImage o.(fileFlags).(Files) o.(fileFlags).(FileExcludeDefaults));
  defer (Remove img) (
    _ ← wrapErr ("Writing '" +:+ uploadRef.(Name) +:+ "': ")
          (perform (WriteImage uploadRef img) (registryError uploadRef img));
    digest ← pure (Digest img);
    let imageURL := uploadRef.(Context) +:+ "@" +:+ digest in
    _ ← perform (λ _, BeginLinef ("Pushed '" +:+ imageURL +:+ "'")) None;
    if bool_decide (o.(outputFlags).(LockFilePath) ≠ "") then
      let bundleLock :=
        {| ApiVersion := "imgpkg.k14s.io/v1alpha1";
           Kind := "BundleLock";
           Spec := {| Image_ := {| Url := imageURL;
                                   Tag_ := uploadRef.(TagStr) |} |} |} in
      manifestBs ← pure (yamlMarshal bundleLock);
      wrapErr "Writing lock file: "
        (perform (WriteFile o.(outputFlags).(LockFilePath)
                    ("---" +:+ String "010" "" +:+ manifestBs))
                 (writeFileError o.(outputFlags).(LockFilePath)))
    else mret tt).

End Run.

(** ** pkg/imgpkg/bundle/contents.go *)

Definition ImgpkgDir : string := ".imgpkg".

Record Contents : Type :=
  { paths : list string; excludedPaths : list string }.

Definition NewContents (paths excludedPaths : list string) : Contents :=
  {| paths := paths; excludedPaths := excludedPaths |}.

(** The closure passed to [filepath.Walk] in [findImgpkgDirs]; it captures
    [bundlePaths]. *)
Definition findImgpkgDirs_fn (wd : option string) : @Walk.WalkFunc (list string) :=
  λ currPath info err bundlePaths,
    match err with
    | Some e => (bundlePaths, Some e)
    | None =>
        if bool_decide (filepath.Base currPath ≠ ImgpkgDir) then
          (bundlePaths, None)
        else
          match filepath.Abs wd currPath with
          | Err e => (bundlePaths, Some e)
          | Ok currPath => (bundlePaths ++ [currPath], None)
          end
    end.

Fixpoint findImgpkgDirs_loop (wd : option string) (fs : FS)
    (inputs : list string) (bundlePaths : list string)
  : list string * option error :=
  match inputs with
  | [] => (bundlePaths, None)
  | path :: rest =>
      match Walk.Walk (findImgpkgDirs_fn wd) fs path bundlePaths with
      | (s1, Some e) => (s1, Some e)
      | (s1, None) => findImgpkgDirs_loop wd fs rest s1
      end
  end.

Definition findImgpkgDirs (wd : option string) (fs : FS) (b : Contents)
  : Result (list string) :=
  match findImgpkgDirs_loop wd fs b.(paths) [] with
  | (_, Some e) => Err e
  | (bundlePaths, None) => Ok bundlePaths
  end.

(** The loop of [validateImgpkgDirs] that looks for an input path whose
    absolute form is the parent of [path]. *)
Fixpoint childOfInput (wd : option string) (path : string)
    (flagPaths : list string) (notFound : error) : option error :=
  match flagPaths with
  | [] => Some notFound
  | flagPath :: rest =>
      match filepath.Abs wd flagPath with
      | Err e => Some e
      | Ok flagPath =>
          if bool_decide (filepath.Dir path = flagPath) then None
          else childOfInput wd path rest notFound
      end
  end.

Definition validateImgpkgDirs (wd : option string) (b : Contents)
    (imgpkgDirs : list string) : option error :=
  match imgpkgDirs with
  | [path] =>
      childOfInput wd path b.(paths)
        (bundleValidationError
           ("Expected '" +:+ ImgpkgDir +:+
            "' directory, to be a direct child of one of: " +:+
            strings.Join b.(paths) ", " +:+ "; was " +:+ path))
  | _ =>
      Some (bundleValidationError
              ("Expected one '" +:+ ImgpkgDir +:+ "' dir, got " +:+
               fmtInt (length imgpkgDirs) +:+ ": " +:+
               strings.Join imgpkgDirs ", "))
  end.

Definition validate (wd : option string) (fs : FS) (b : Contents) : option error :=
  match findImgpkgDirs wd fs b with
  | Err e => Some e
  | Ok imgpkgDirs => validateImgpkgDirs wd b imgpkgDirs
  end.

(** [PresentsAsBundle]; the type assertion [err.(bundleValidationError)] is
    the match on the constructor. *)
Definition PresentsAsBundle (wd : option string) (fs : FS) (b : Contents)
  : bool * option error :=
  match findImgpkgDirs wd fs b with
  | Err e => (false, Some e)
  | Ok imgpkgDirs =>
      match validateImgpkgDirs wd b imgpkgDirs with
      | Some (bundleValidationError _) => (false, None)
      | Some e => (false, Some e)
      | None => (true, None)
      end
  end.

Section ContentsPush.

Variable wd : option string.
Variable fs : FS.
(** [BundleConfigLabel], a constant of package bundle declared outside
    src/. *)
Variable BundleConfigLabel : string.
(** [plainimage.NewContents(paths, excluded).Push(ref, labels, registry, ui)],
    of package plainimage, outside src/: the events it performs and the
    image URL or error it returns. *)
Variable plainimagePush :
  list string → list string → Tag → gmap string string → Eff string.

Definition Push (b : Contents) (uploadRef : Tag) : Eff string :=
  match validate wd fs b with
  | Some e => ([], Err e)
  | None =>
      let labels : gmap string string := {[ BundleConfigLabel := "true" ]} in
      plainimagePush b.(paths) b.(excludedPaths) uploadRef labels
  end.

End ContentsPush.

(** ** The operations of the tool *)

(** The two kinds a pull can expect. *)
Inductive ExpectedKind : Type := ExpectBundle | ExpectImage.

(** What a pull is given: a reference, or a lock file. *)
Inductive PullSource : Type :=
  | FromReference (ref : string)
  | FromLockFile (path : string).

(** [step] over a list, from left to right, until a step fails. *)
Definition eachM {S A : Type} (step : A → S → Eff S) (l : list A) (s : S)
  : Eff S :=
  fold_left (λ acc a, s ← acc; step a s) l (mret s).

Section Operations.

Variable range_map : gmap string (list string) → list (string * list string).
Variable wd : option string.
Variable fs : FS.
Variable NewTag : string → Result Tag.
Variable registryError : Tag → FileImage → option error.
Variable Digest : FileImage → Result string.
Variable yamlMarshal : BundleLock → Result string.
Variable writeFileError : string → option error.
Variable tarball : list string → list string → Result string.
Variable BundleConfigLabel : string.

(** Collaborators of the operations that are not under src/. *)
(** the Lock Store parsing and validating the BundleLock at a path *)
Variable readBundleLock : string → Result BundleLock.
(** the Registry Facade reading the manifest a reference resolves to *)
Variable readManifest : string → Result Manifest.
(** whether extracting a layer into a directory fails, and with what *)
Variable extractError : string → string → option error.
(** whether the destination repository already has a digest *)
Variable existsAt : string → string → bool.
(** whether copying a digest to the destination fails, and with what *)
Variable copyError : string → string → option error.
(** whether rewriting the ImagesLock of a copied bundle fails *)
Variable rewriteError : string → string → option error.
(** whether tagging the destination manifest fails, and with what *)
Variable tagError : string → string → string → option error.

(** Modelled from the spec: [plainimage.Contents.Push], which
    [Contents.Push] calls, is not under src/.  It is the Push Engine (4.2)
    without a lock output path, which it is not handed: the packing is
    delegated to the Content Packer, and its failure propagated as it is,
    with no upload attempted; the manifest and the layer, marked with the
    labels it is given, are written through the Registry Facade; on success
    the digest is obtained and [repository@digest] returned. *)
Definition plainPush (paths excluded : list string) (uploadRef : Tag)
    (labels : gmap string string) : Eff string :=
  layer ← call (Pack paths excluded) (tarball paths excluded);
  let img := {| Layer := layer; Annotations := labels |} in
  _ ← perform (WriteImage uploadRef img) (registryError uploadRef img);
  digest ← pure (Digest img);
  mret (uploadRef.(Context) +:+ "@" +:+ digest).

(** Modelled from the spec: whether a manifest is that of a bundle, by the
    reserved annotation set to ["true"]. *)
Definition isBundleManifest (m : Manifest) : bool :=
  bool_decide (m.(ManifestImage).(Annotations) !! BundleAnnotation = Some "true").

(** Modelled from the spec: the Pull Engine (4.3), [pull] of package cmd, is
    not under src/.  It resolves the source, a direct reference or the
    [image.url] of a BundleLock produced before and read through the Lock
    Store; fetches the manifest and classifies it by the bundle annotation;
    fails on a kind that is not the expected one, with the messages the
    end-to-end tests look for; and otherwise extracts the content layer to
    the destination directory as it is.  It pulls no nested bundle. *)
Definition Pull (source : PullSource) (destinationDir : string)
    (expectedKind : ExpectedKind) : Eff unit :=
  url ← match source with
        | FromReference ref => mret ref
        | FromLockFile path =>
            lock ← call (ReadLock path) (readBundleLock path);
            mret lock.(Spec).(Image_).(Url)
        end;
  m ← call (ReadManifest url) (readManifest url);
  match expectedKind, isBundleManifest m with
  | ExpectImage, true =>
      pure (Err (errorString
        "Expected bundle flag when pulling a bundle, please use -b instead of --image"))
  | ExpectBundle, false =>
      pure (Err (errorString
        "Expected image flag when pulling a image or index, please use --image instead of -b"))
  | _, _ =>
      perform (Extract destinationDir m.(ManifestImage).(Layer))
              (extractError destinationDir m.(ManifestImage).(Layer))
  end.

(** Modelled from the spec: the reference closure of the Relocation Engine
    (4.4): the manifest itself, plus, if it is a bundle, every reference of
    its ImagesLock, plus, recursively, those of the ones that are bundles
    themselves.  A manifest already visited, by digest, is not revisited.
    The state is the digests visited and the closure so far, dependencies
    before the bundle that references them; [depth] bounds the nesting that
    is followed. *)
Fixpoint closure (depth : nat) (m : Manifest)
    (st : list string * list Manifest) : Eff (list string * list Manifest) :=
  if bool_decide (m.(ManifestDigest) ∈ st.1) then mret st
  else
    let st := (m.(ManifestDigest) :: st.1, st.2) in
    match depth with
    | 0 => mret (st.1, st.2 ++ [m])
    | S depth =>
        st ← (if isBundleManifest m then
                eachM (λ ref st,
                         d ← call (ReadManifest ref) (readManifest ref);
                         closure depth d st)
                      m.(LockedImages) st
              else mret st);
        mret (st.1, st.2 ++ [m])
    end.

(** Modelled from the spec: one node of the closure is copied to the
    destination by digest, manifest and blobs, unless the destination has
    that digest already; the ImagesLock embedded in a copied bundle is
    rewritten to point at the new location (2). *)
Definition copyNode (destinationRepository : string) (m : Manifest) (_ : unit)
  : Eff unit :=
  if existsAt destinationRepository m.(ManifestDigest) then mret tt
  else
    _ ← perform (CopyManifest m.(ManifestDigest) destinationRepository)
          (copyError m.(ManifestDigest) destinationRepository);
    if isBundleManifest m then
      perform (RewriteImagesLock m.(ManifestDigest) destinationRepository)
        (rewriteError m.(ManifestDigest) destinationRepository)
    else mret tt.

(** Modelled from the spec: the Relocation Engine (4.4), [copy] of package
    cmd, is not under src/.  It builds the reference closure of the source,
    when asked to by the recursive flag (6); copies each node, dependencies
    first, the first failure aborting what remains; and, after the closure
    is copied, tags the destination manifest with the tag the source had, if
    any. *)
Definition Copy (depth : nat) (sourceReference destinationRepository : string)
    (recursive : bool) : Eff unit :=
  m ← call (ReadManifest sourceReference) (readManifest sourceReference);
  nodes ← (if recursive then st ← closure depth m ([], []); mret st.2
           else mret [m]);
  _ ← eachM (copyNode destinationRepository) nodes tt;
  match m.(ManifestTag) with
  | Some tag =>
      perform (TagManifest destinationRepository tag m.(ManifestDigest))
        (tagError destinationRepository tag m.(ManifestDigest))
  | None => mret tt
  end.

(** The operations of the tool: the two pushes of src/, [Run] and
    [Contents.Push], the latter over the plain image push above, and pull
    and copy.  The other functions under src/ are steps of these two pushes
    ([validateFlags], [validateFiles], [validate], [AsRegistryOpts]), answer
    a question about the input paths ([PresentsAsBundle]), or write log
    lines to the writer they are given ([Write], [WriteStr]). *)
Inductive operation : Type :=
  | PushRun (o : PushOptions)
  | ContentsPush (b : Contents) (uploadRef : Tag)
  | PullRun (source : PullSource) (destinationDir : string)
            (expectedKind : ExpectedKind)
  | CopyRun (depth : nat) (sourceReference destinationRepository : string)
            (recursive : bool).

(** The calls an operation makes, in order. *)
Definition performs (op : operation) : list event :=
  match op with
  | PushRun o =>
      (Run range_map wd fs NewTag registryError Digest yamlMarshal
           writeFileError tarball o).1
  | ContentsPush b uploadRef =>
      (Push wd fs BundleConfigLabel plainPush b uploadRef).1
  | PullRun source destinationDir expectedKind =>
      (Pull source destinationDir expectedKind).1
  | CopyRun depth sourceReference destinationRepository recursive =>
      (Copy depth sourceReference destinationRepository recursive).1
  end.

End Operations.

(** ** Go byte slices *)

Global Instance byte_eq_dec : EqDecision Byte.byte := Byte.byte_eq_dec.

Module slices.

(** A slice value: the backing array it points into, where it starts
    there, its length and its capacity. *)
Record slice : Type := { arr : nat; off : nat; len : nat; cap : nat }.

(** The backing arrays allocated so far, by address. *)
Abbreviation heap := (list (list Byte.byte)).

(** The bytes a slice shows. *)
Definition bytes (h : heap) (s : slice) : list Byte.byte :=
  take s.(len) (drop s.(off) (h !!! s.(arr))).

(** A fresh array of capacity [c] that starts with [data]. *)
Definition alloc (data : list Byte.byte) (c : nat) (h : heap) : heap * slice :=
  (h ++ [data ++ replicate (c - length data) Byte.x00],
   {| arr := length h; off := 0; len := length data; cap := c |}).

(** [make([]byte, n)] *)
Definition make (n : nat) (h : heap) : heap * slice :=
  alloc (replicate n Byte.x00) n h.

(** Overwrite the array of [s] from position [off s + i] on with [data]. *)
Definition store (s : slice) (i : nat) (data : list Byte.byte) (h : heap) : heap :=
  let a := h !!! s.(arr) in
  <[s.(arr) := take (s.(off) + i) a ++ data ++
               drop (s.(off) + i + length data) a]> h.

(** [copy(dst, src)] *)
Definition copy (dst src : slice) (h : heap) : heap * nat :=
  let n := dst.(len) `min` src.(len) in
  (store dst 0 (take n (bytes h src)) h, n).

(** [s[0:j]] *)
Definition upto (s : slice) (j : nat) : slice :=
  {| arr := s.(arr); off := s.(off); len := j; cap := s.(cap) |}.

Section growth.

(** The capacity the runtime gives a fresh array that must hold [n]
    bytes; Go only promises that it is enough. *)
Variable roundupsize : nat → nat.

(** [append(s, data...)]: in place when the capacity allows, into a
    fresh array otherwise. *)
Definition append (s : slice) (data : list Byte.byte) (h : heap) : heap * slice :=
  if bool_decide (s.(len) + length data ≤ s.(cap)) then
    (store s s.(len) data h,
     {| arr := s.(arr); off := s.(off);
        len := s.(len) + length data; cap := s.(cap) |})
  else
    alloc (bytes h s ++ data) (roundupsize (s.(len) + length data)) h.

(** [[]byte(str)] *)
Definition ofString (str : string) (h : heap) : heap * slice :=
  let data := String.list_byte_of_string str in
  alloc data (roundupsize (length data)) h.

(** The result of [bytes.Replace(s, old, new, -1)] for a non-empty
    [old]: every non-overlapping instance of [old], from the left, is
    replaced by [new]; [skip] counts the bytes of a matched instance
    still to pass over. *)
Fixpoint replaceAll (old new : list Byte.byte) (skip : nat)
    (s : list Byte.byte) : list Byte.byte :=
  match s with
  | [] => []
  | c :: s' =>
      match skip with
      | S k => replaceAll old new k s'
      | O =>
          if bool_decide (old `prefix_of` s)
          then new ++ replaceAll old new (length old - 1) s'
          else c :: replaceAll old new 0 s'
      end
  end.

(** [bytes.Replace(s, old, new, -1)]: always a copy. *)
Definition Replace (s : slice) (old new : list Byte.byte) (h : heap)
  : heap * slice :=
  let data := replaceAll old new 0 (bytes h s) in
  alloc data (roundupsize (length data)) h.

End growth.

(** [bytes.HasSuffix] *)
Definition HasSuffix (s suffix : list Byte.byte) : bool :=
  bool_decide (suffix `suffix_of` s).

End slices.

(** ** pkg/imgpkg/image/prefixed_logger.go *)

Module logger.
Section logger.
Import slices.

Variable roundupsize : nat → nat.

(** The [io.Writer] behind the logger: its state, and what a call of its
    [Write] with some bytes does and returns.  The mutex around that call
    orders concurrent writers and has no effect on one call. *)
Context {sink : Type}.
Variable writerWrite : list Byte.byte → sink → sink * (nat * option error).

Record LoggerPrefixWriter : Type := { prefix : string }.

Definition nl : Byte.byte := Byte.x0a.

Definition Write (w : LoggerPrefixWriter) (data : slice) (h : heap) (k : sink)
  : heap * sink * (nat * option error) :=
  let '(h, newData) := make data.(len) h in
  let '(h, _) := copy newData data h in
  let endsWithNl := HasSuffix (bytes h newData) [nl] in
  let newData := if endsWithNl then upto newData (newData.(len) - 1) else newData in
  let '(h, newData) :=
    Replace roundupsize newData [nl]
      (nl :: String.list_byte_of_string w.(prefix)) h in
  let '(h, newData) := append roundupsize newData [nl] h in
  let '(h, p) := ofString roundupsize w.(prefix) h in
  let '(h, newData) := append roundupsize p (bytes h newData) h in
  let '(k, (_, err)) := writerWrite (bytes h newData) k in
  match err with
  | Some e => (h, k, (0, Some (errorString ("write err: " +:+ Error e))))
  | None => (h, k, (data.(len), None))
  end.

End logger.
End logger.

(** ** Vocabulary of the properties *)

(** The visits of all the walks of one push, each with the input path it
    was found under. *)
Definition rootVisits (fs : FS) (inputs : list string)
  : list (string * Walk.visit) :=
  inputs ≫= λ inputPath, pair inputPath <$> Walk.visits inputPath (fs inputPath).

(** The visitor of [validateFiles] on such a visit. *)
Definition validateFiles_step (o : PushOptions) (wd : option string)
    (tv : string * Walk.visit) (s : fileState) : fileState * option error :=
  validateFiles_fn o wd tv.1 tv.2.1.1 tv.2.1.2 tv.2.2 s.

(** The visitor of [validateFiles] over a list of such visits, up to the
    first error. *)
Fixpoint runVisits (o : PushOptions) (wd : option string)
    (tvs : list (string * Walk.visit)) (s : fileState)
  : fileState * option error :=
  match tvs with
  | [] => (s, None)
  | tv :: rest =>
      match validateFiles_step o wd tv s with
      | (s1, Some e) => (s1, Some e)
      | (s1, None) => runVisits o wd rest s1
      end
  end.

(** The error the visitor of [validateFiles] returns on a visit, if any; it
    does not depend on the captured variables. *)
Definition fileError (o : PushOptions) (wd : option string)
    (tv : string * Walk.visit) : option error :=
  (validateFiles_step o wd tv ([], ∅)).2.

(** The entry of [prunedFilepaths] a visit adds (push.go, lines 160 to 171):
    the bundle-internal path (the path relative to the input path, or the
    base name of an input path that is a file) and the visited path.  The
    input directory itself adds nothing. *)
Definition recordOf (tv : string * Walk.visit) : option (string * string) :=
  let '(inputPath, (path, info, err)) := tv in
  match err, info with
  | None, Some info =>
      match filepath.Rel inputPath path with
      | Ok prunedPath =>
          if bool_decide (prunedPath = ".") && info.(IsDir) then None
          else Some (if bool_decide (prunedPath = ".")
                     then filepath.Base inputPath else prunedPath, path)
      | Err _ => None
      end
  | _, _ => None
  end.

(** All the (bundle-internal path, visited path) pairs of a push. *)
Definition recorded (fs : FS) (inputs : list string) : list (string * string) :=
  omap recordOf (rootVisits fs inputs).

(** The visited paths recorded under one bundle-internal path. *)
Definition pathsAt (k : string) (recs : list (string * string)) : list string :=
  (filter (λ kp, kp.1 = k) recs).*2.

(** [prunedFilepaths] after the given records were added to [m]. *)
Definition grouped (recs : list (string * string))
    (m : gmap string (list string)) : gmap string (list string) :=
  fold_left (λ m kp, appendAt kp.1 kp.2 m) recs m.

(** The result of the walks of [validateFiles], before the two final
    checks. *)
Definition walked (o : PushOptions) (wd : option string) (fs : FS)
  : fileState * option error :=
  validateFiles_loop o wd fs o.(fileFlags).(Files) ([], ∅).

(** The message of the duplicate-path error that lists [listed]. *)
Definition duplicatePaths (listed : list string) : error :=
  errorString ("Found duplicate paths: " +:+ strings.Join listed ", ").

(** [n] holds [n'] at the end of the chain of entry names [names]. *)
Inductive holds : node → list string → node → Prop :=
  | holds_here n : holds n [] n
  | holds_entry entries name child names n' :
      (name, child) ∈ entries → holds child names n' →
      holds (Directory entries) (name :: names) n'.

(** The visit [Walk] makes of a node at [path]. *)
Definition visitOf (path : string) (n : node) : Walk.visit :=
  match n with
  | File => (path, Some {| IsDir := false |}, None)
  | Directory _ => (path, Some {| IsDir := true |}, None)
  | Broken info e => (path, info, Some e)
  end.

(** The recorded paths of a push that are named [.imgpkg]: the entries of
    that name found under the input paths. *)
Definition imgpkgRecords (fs : FS) (inputs : list string)
  : list (string * string) :=
  filter (λ kp, filepath.Base kp.2 = BundleDir) (recorded fs inputs).

(** The visits of a push whose base name is [.imgpkg]. *)
Definition imgpkgVisits (fs : FS) (inputs : list string)
  : list (string * Walk.visit) :=
  filter (λ tv, filepath.Base tv.2.1.1 = ImgpkgDir) (rootVisits fs inputs).

(** [err] is a [bundleValidationError]: the type assertion of
    [PresentsAsBundle] succeeds on it. *)
Definition isBundleValidationError (err : error) : bool :=
  match err with bundleValidationError _ => true | _ => false end.

(** Calls of [ioutil.WriteFile], and of [registry.WriteImage]. *)
Definition isWriteFile (ev : event) : bool :=
  match ev with WriteFile _ _ _ => true | _ => false end.
Definition isWriteImage (ev : event) : bool :=
  match ev with WriteImage _ _ _ => true | _ => false end.

(** The words of the property of the prefixed writer. *)
Module LoggerSpec.
Import slices.

Definition nl : Byte.byte := logger.nl.

(** [d] without its last byte when that is a newline: the newlines left are
    the interior ones. *)
Definition interior (d : list Byte.byte) : list Byte.byte :=
  if HasSuffix d [nl] then take (length d - 1) d else d.

(** [s] with [p] inserted after every newline. *)
Fixpoint afterNewlines (p s : list Byte.byte) : list Byte.byte :=
  match s with
  | [] => []
  | c :: s' =>
      if decide (c = nl) then c :: p ++ afterNewlines p s'
      else c :: afterNewlines p s'
  end.

(** [d] with [p] in front of the first line and after every interior
    newline, and ended by a single newline. *)
Definition prefixed (p d : list Byte.byte) : list Byte.byte :=
  p ++ afterNewlines p (interior d) ++ [nl].

(** The lines of [s]: the pieces between newlines. *)
Fixpoint lines (s : list Byte.byte) : list (list Byte.byte) :=
  match s with
  | [] => [[]]
  | c :: s' =>
      if decide (c = nl) then [] :: lines s'
      else match lines s' with
           | l :: ls => (c :: l) :: ls
           | [] => [[c]]
           end
  end.

(** A slice that lies within an allocated array. *)
Definition inHeap (h : heap) (s : slice) : Prop :=
  s.(arr) < length h ∧ s.(off) + s.(len) ≤ length (h !!! s.(arr)).

End LoggerSpec.

(** ** A concrete working tree *)

Module Examples.

Definition push (image bundle lock : string) (files : list string) : PushOptions :=
  {| imageFlags := {| Image := image |};
     bundleFlags := {| Bundle := bundle |};
     outputFlags := {| LockFilePath := lock |};
     fileFlags := {| Files := files; FileExcludeDefaults := [] |} |}.

Definition missing (p : string) : node :=
  Broken None (PathError ("lstat " +:+ p +:+ ": no such file or directory")).

Definition bundleDir : node := Directory [("bundle.yml", File); ("images.yml", File)].

(** What is on disk under the paths the examples push. *)
Definition disk : FS := λ p,
  if decide (p = "app") then
    Directory [(".imgpkg", bundleDir); ("README.md", File);
               ("config", Directory [("config.yml", File)])]
  else if decide (p = "app2") then
    Directory [(".imgpkg", bundleDir); ("LICENSE", File)]
  else if decide (p = "nested") then
    Directory [("LICENSE", File); ("sub", Directory [(".imgpkg", bundleDir)])]
  else if decide (p = "plain") then
    Directory [("README.md", File)]
  else if decide (p = "twice") then
    Directory [(".imgpkg", bundleDir); ("sub", Directory [(".imgpkg", bundleDir)])]
  else if decide (p = "a/x.yml") then File
  else if decide (p = "b/x.yml") then File
  else if decide (p = "a/.imgpkg") then File
  else if decide (p = "b/.imgpkg") then File
  else missing p.

Definition wd : option string := Some "/work".

Definition newTag (ref : string) : Result Tag :=
  Ok {| Context := "index.docker.io/" +:+ ref;
        TagStr := "latest";
        Name := "index.docker.io/" +:+ ref +:+ ":latest" |}.
Definition registryOk (_ : Tag) (_ : FileImage) : option error := None.
Definition digest (_ : FileImage) : Result string := Ok "sha256:b321".
Definition marshal (l : BundleLock) : Result string :=
  Ok ("apiVersion: " +:+ l.(ApiVersion) +:+ String "010"
      ("kind: " +:+ l.(Kind) +:+ String "010"
       ("spec:" +:+ String "010"
        ("  image:" +:+ String "010"
         ("    url: " +:+ l.(Spec).(Image_).(Url) +:+ String "010"
          ("    tag: " +:+ l.(Spec).(Image_).(Tag_) +:+ String "010" "")))))).
Definition writeOk (_ : string) : option error := None.
Definition tar (_ _ : list string) : Result string := Ok "tarball".

(** [Run] in this world. *)
Definition run (o : PushOptions) : Eff unit :=
  Run map_to_list wd disk newTag registryOk digest marshal writeOk tar o.

Definition plainPush (paths excluded : list string) (ref : Tag)
    (labels : gmap string string) : Eff string :=
  ([WriteImage ref {| Layer := "tarball"; Annotations := labels |} None],
   Ok (ref.(Context) +:+ "@sha256:b321")).

(** An [io.Writer] that keeps what it is given, as a [bytes.Buffer] does. *)
Definition logged (bs : list Byte.byte) (k : list Byte.byte)
  : list Byte.byte * (nat * option error) :=
  (k ++ bs, (length bs, None)).

End Examples.

(** ** pkg/imgpkg/cmd/registry_flags.go *)

Record RegistryFlags : Type :=
  { CACertPaths : list string;
    VerifyCerts : bool;
    Insecure : bool;
    Username : string;
    Password : string;
    Token : string;
    Anon : bool }.

(** [registry.Opts]: the fields [AsRegistryOpts] fills. *)
Module registry.
Record Opts : Type :=
  { CACertPaths : list string;
    VerifyCerts : bool;
    Insecure : bool;
    Username : string;
    Password : string;
    Token : string;
    Anon : bool }.
End registry.

(** [os.Getenv] over the environment of the process: the empty string for a
    variable that is not set. *)
Definition Getenv (env : gmap string string) (key : string) : string :=
  default "" (env !! key).

(** [RegistryFlags.AsRegistryOpts].  The source copies the flags and then
    overwrites four fields one after the other; each assignment reads only
    the field it writes. *)
Definition AsRegistryOpts (env : gmap string string) (r : RegistryFlags)
  : registry.Opts :=
  {| registry.CACertPaths := r.(CACertPaths);
     registry.VerifyCerts := r.(VerifyCerts);
     registry.Insecure := r.(Insecure);
     registry.Username :=
       if bool_decide (String.length r.(Username) = 0)
       then Getenv env "IMGPKG_USERNAME" else r.(Username);
     registry.Password :=
       if bool_decide (String.length r.(Password) = 0)
       then Getenv env "IMGPKG_PASSWORD" else r.(Password);
     registry.Token :=
       if bool_decide (String.length r.(Token) = 0)
       then Getenv env "IMGPKG_TOKEN" else r.(Token);
     registry.Anon :=
       if bool_decide (Getenv env "IMGPKG_ANON" = "true") then true
       else r.(Anon) |}.

(** ** pkg/imgpkg/image/prefixed_logger.go: WriteStr *)

Section WriteStr.
Import slices.

Variable roundupsize : nat → nat.
Context {sink : Type}.
Variable writerWrite : list Byte.byte → sink → sink * (nat * option error).

(** [fmt.Sprintf(str, args...)], of package fmt. *)
Context {arg : Type}.
Variable Sprintf : string → list arg → string.

Definition WriteStr (w : logger.LoggerPrefixWriter) (str : string)
    (args : list arg) (h : heap) (k : sink) : heap * sink * option error :=
  let '(h, data) := ofString roundupsize (Sprintf str args) h in
  let '(h, k, (_, err)) := logger.Write roundupsize writerWrite w data h k in
  (h, k, err).

End WriteStr.

(** ** Vocabulary of the further properties *)

(** The entries of a tree, each with the chain of names that leads to it
    from the root, in the order [Walk] visits them; the root comes first,
    under the empty chain. *)
Fixpoint descendants (n : node) : list (list string * node) :=
  match n with
  | Directory entries =>
      ([], n) ::
      (fix each (es : list (string * node)) : list (list string * node) :=
         match es with
         | [] => []
         | (name, child) :: es' =>
             (prod_map (cons name) id <$> descendants child) ++ each es'
         end) entries
  | _ => [([], n)]
  end.

Definition isBroken (n : node) : bool :=
  match n with Broken _ _ => true | _ => false end.

(** A tree that can be read throughout, as the operating system lists it:
    the names are plain, no two entries of a directory share a name, and
    neither [Lstat] nor a listing fails. *)
Definition readable (n : node) : Prop :=
  Forall (λ d, Forall (λ c, filepath.plain c = true) d.1 ∧ isBroken d.2 = false)
    (descendants n) ∧
  NoDup (descendants n).*1.

(** No entry of the tree is named [.imgpkg], except at the first level. *)
Definition imgpkgOnTop (n : node) : Prop :=
  Forall (λ d, last d.1 = Some BundleDir → d.1 = [BundleDir]) (descendants n).

Global Instance readable_dec n : Decision (readable n).
Proof. unfold readable. apply _. Defined.
Global Instance imgpkgOnTop_dec n : Decision (imgpkgOnTop n).
Proof. unfold imgpkgOnTop. apply _. Defined.

(** The reference [Run] parses: the bundle flag for a bundle, the image
    flag otherwise. *)
Definition inputRefOf (o : PushOptions) : string :=
  if isBundle o then o.(bundleFlags).(Bundle) else o.(imageFlags).(Image).

(** The URL [Run] prints and puts in the lock file. *)
Definition imageURLOf (uploadRef : Tag) (digest : string) : string :=
  uploadRef.(Context) +:+ "@" +:+ digest.

(** The [BundleLock] [Run] marshals. *)
Definition bundleLockOf (uploadRef : Tag) (digest : string) : BundleLock :=
  {| ApiVersion := "imgpkg.k14s.io/v1alpha1";
     Kind := "BundleLock";
     Spec := {| Image_ := {| Url := imageURLOf uploadRef digest;
                             Tag_ := uploadRef.(TagStr) |} |} |}.

Definition isBuildImage (ev : event) : bool :=
  match ev with BuildImage _ _ _ _ => true | _ => false end.
Definition isRemove (ev : event) : bool :=
  match ev with Remove _ => true | _ => false end.
Definition isBeginLinef (ev : event) : bool :=
  match ev with BeginLinef _ => true | _ => false end.

(** The path [findImgpkgDirs] collects at a visit, if any. *)
Definition foundDir (wd : option string) (v : Walk.visit) : option string :=
  if bool_decide (filepath.Base v.1.1 = ImgpkgDir) then
    match filepath.Abs wd v.1.1 with Ok a => Some a | Err _ => None end
  else None.

(** ** Further working trees *)

Module Cases.

(** What is on disk under the paths of the further examples: the same
    bundle directory, reached as [config], [config/] and [./config]. *)
Definition config : node :=
  Directory [(".imgpkg", Examples.bundleDir); ("README.md", File);
             ("config", Directory [("config.yml", File)])].

Definition disk : FS := λ p,
  if decide (p = "config") then config
  else if decide (p = "config/") then config
  else if decide (p = "./config") then config
  else if decide (p = "docs") then Directory [("README.md", File)]
  else if decide (p = "a/x.yml") then File
  else if decide (p = "b/y.yml") then File
  else Examples.missing p.

(** Collaborators that fail. *)
Definition badTag (ref : string) : Result Tag :=
  Err (errorString "could not parse reference").
Definition refuses (_ : Tag) (_ : FileImage) : option error :=
  Some (errorString "UNAUTHORIZED: authentication required").
Definition lockFails (name : string) : option error :=
  Some (PathError ("open " +:+ name +:+ ": no such file or directory")).
Definition tarFails (_ _ : list string) : Result string :=
  Err (errorString "no space left on device").

(** Another order of iteration over a map. *)
Definition reversed (m : gmap string (list string)) : list (string * list string) :=
  reverse (map_to_list m).

End Cases.

(** ** Proof infrastructure: walks as lists of visits *)

Module WalkFacts.
Section WalkFacts.
Import Walk.
Context {S : Type}.
Variable walkFn : @WalkFunc S.

Lemma run_app (vs ws : list visit) (s : S) :
  run walkFn (vs ++ ws) s =
  match run walkFn vs s with
  | (s1, Some e) => (s1, Some e)
  | (s1, None) => run walkFn ws s1
  end.
Proof.
  revert s. induction vs as [|[[p i] e] vs IH]; intros s; simpl; [done|].
  destruct (walkFn p i e s) as [s1 [e1|]]; [done|]. apply IH.
Qed.

(** [walk] calls the visitor on the visits of the tree, in order, up to the
    first error. *)
Lemma walk_run (n : node) : ∀ path s,
  walk walkFn path n s = run walkFn (visits path n) s.
Proof.
  induction n as [|entries IH|info e] using node_ind; intros path s; simpl.
  - by destruct (walkFn _ _ _ _) as [s1 [e1|]].
  - destruct (walkFn _ _ _ _) as [s1 [e1|]]; [done|].
    revert s1. induction IH as [|[name child] es Hc _ IHes]; intros s1; [done|].
    simpl in Hc. rewrite run_app, Hc.
    destruct (run _ _ _) as [s2 [e2|]]; [done|]. apply IHes.
  - by destruct (walkFn _ _ _ _) as [s1 [e1|]].
Qed.

End WalkFacts.
End WalkFacts.

(** ** Proof infrastructure: lexical path facts *)

Module PathFacts.
Import strings filepath.

Lemma split_slash_nonempty s : split_slash s ≠ [].
Proof.
  destruct s as [|c s]; simpl; [done|].
  destruct (Ascii.eqb c "/"); [done|]. by destruct (split_slash s).
Qed.

Lemma split_slash_no_slash n : no_slash n = true → split_slash n = [n].
Proof.
  induction n as [|c n IH]; simpl; [done|].
  intros [Hc Hn]%andb_true_iff. apply negb_true_iff in Hc.
  by rewrite Hc, IH.
Qed.

Lemma split_slash_app a b :
  split_slash (a +:+ String "/" b) = split_slash a ++ split_slash b.
Proof.
  induction a as [|c a IH]; simpl; [done|].
  rewrite IH. destruct (Ascii.eqb c "/"); [done|].
  pose proof (split_slash_nonempty a). by destruct (split_slash a).
Qed.

Lemma split_slash_pieces s : Forall (λ c, no_slash c = true) (split_slash s).
Proof.
  induction s as [|c s IH]; simpl; [by repeat constructor|].
  destruct (Ascii.eqb c "/") eqn:Hc; [by constructor|].
  destruct IH as [|x xs Hx Hxs]; repeat constructor; simpl; [by rewrite Hc | |done].
  by rewrite Hc.
Qed.

Lemma split_slash_Join cs :
  cs ≠ [] → Forall (λ c, no_slash c = true) cs →
  split_slash (strings.Join cs "/") = cs.
Proof.
  induction cs as [|x [|y cs] IH]; intros Hne Hall; [done| |].
  - simpl. apply split_slash_no_slash. by inversion Hall.
  - inversion Hall as [|?? Hx Hrest]; subst.
    change (strings.Join (x :: y :: cs) "/") with (x +:+ String "/" (strings.Join (y :: cs) "/")).
    rewrite split_slash_app, IH, split_slash_no_slash by done. done.
Qed.

Lemma plain_spec n :
  plain n = true ↔ no_slash n = true ∧ n ≠ "" ∧ n ≠ "." ∧ n ≠ "..".
Proof.
  unfold plain. rewrite !andb_true_iff, !bool_decide_eq_true. tauto.
Qed.

Lemma normal_snoc r cs n : normal r cs → plain n = true → normal r (cs ++ [n]).
Proof.
  intros (k & ps & -> & Hps & Hr) Hn. exists k, (ps ++ [n]).
  rewrite app_assoc. split_and!; [done| |done].
  apply Forall_app; split; [done|]. by constructor.
Qed.

Lemma normal_app r cs ns :
  normal r cs → Forall (λ c, plain c = true) ns → normal r (cs ++ ns).
Proof.
  intros Hcs Hns. revert cs Hcs.
  induction Hns as [|n ns Hn _ IH]; intros cs Hcs; [by rewrite app_nil_r|].
  rewrite cons_middle, app_assoc. apply IH. by apply normal_snoc.
Qed.

Lemma clean_step_plain r out n : plain n = true → clean_step r out n = out ++ [n].
Proof.
  intros (_ & H1 & H2 & H3)%plain_spec. unfold clean_step.
  rewrite decide_False by tauto. by rewrite decide_False.
Qed.

Lemma fold_clean_plain r ns out :
  Forall (λ c, plain c = true) ns →
  fold_left (clean_step r) ns out = out ++ ns.
Proof.
  intros Hns. revert out. induction Hns as [|n ns Hn _ IH]; intros out; simpl.
  - by rewrite app_nil_r.
  - rewrite clean_step_plain, IH by done. by rewrite <-app_assoc.
Qed.

Lemma replicate_snoc {A} k (x : A) : replicate k x ++ [x] = replicate (S k) x.
Proof. induction k as [|k IH]; simpl; [done|]. by rewrite IH. Qed.

Lemma clean_step_normal r out c :
  no_slash c = true → normal r out → normal r (clean_step r out c).
Proof.
  intros Hc Hout. unfold clean_step.
  destruct (decide (c = "" ∨ c = ".")) as [|Hc1]; [done|].
  destruct (decide (c = "..")) as [->|Hc2].
  - destruct Hout as (k & ps & -> & Hps & Hr).
    destruct ps as [|p ps _] using rev_ind.
    + rewrite app_nil_r. destruct k as [|k].
      * simpl. destruct r; [by exists 0, []|]. by exists 1, [].
      * assert (last (replicate (S k) "..") = Some "..") as ->.
        { rewrite <-replicate_snoc. apply last_snoc. }
        rewrite decide_True by done. destruct r.
        -- by exists (S k), []; rewrite app_nil_r.
        -- rewrite replicate_snoc. exists (S (S k)), [].
           by rewrite app_nil_r.
    + rewrite app_assoc, last_snoc.
      rewrite Forall_app, Forall_singleton in Hps. destruct Hps as [Hps Hp].
      pose proof Hp as (_ & _ & _ & Hp3)%plain_spec.
      rewrite decide_False by done. rewrite removelast_last.
      by exists k, ps.
  - apply normal_snoc; [done|]. apply plain_spec. tauto.
Qed.

Lemma fold_clean_normal r pieces out :
  Forall (λ c, no_slash c = true) pieces → normal r out →
  normal r (fold_left (clean_step r) pieces out).
Proof.
  intros Hp. revert out. induction Hp as [|c cs Hc _ IH]; intros out Hout; simpl.
  - done.
  - apply IH. by apply clean_step_normal.
Qed.

Lemma elems_normal s : normal (rooted s) (elems s).
Proof.
  apply fold_clean_normal; [apply split_slash_pieces|]. by exists 0, [].
Qed.

Lemma fold_clean_dotdot k j :
  fold_left (clean_step false) (replicate k "..") (replicate j "..")
  = replicate (j + k) "..".
Proof.
  revert j. induction k as [|k IH]; intros j; simpl.
  - by rewrite Nat.add_0_r.
  - replace (clean_step false (replicate j "..") "..") with (replicate (S j) "..").
    + rewrite IH. f_equal. lia.
    + unfold clean_step. rewrite decide_False by (intros [|]; done).
      rewrite decide_True by done. destruct j as [|j]; [done|].
      assert (last (replicate (S j) "..") = Some "..") as ->.
      { rewrite <-replicate_snoc. apply last_snoc. }
      rewrite decide_True by done. by rewrite replicate_snoc.
Qed.

(** Cleaning is the identity on cleaned element lists. *)
Lemma fold_clean_id r cs :
  normal r cs → fold_left (clean_step r) cs [] = cs.
Proof.
  intros (k & ps & -> & Hps & Hr). rewrite fold_left_app.
  destruct r.
  - rewrite Hr by done. simpl. by rewrite fold_clean_plain.
  - pose proof (fold_clean_dotdot k 0) as Hk. simpl in Hk. rewrite Hk.
    by rewrite fold_clean_plain.
Qed.

Lemma normal_no_slash r cs : normal r cs → Forall (λ c, no_slash c = true) cs.
Proof.
  intros (k & ps & -> & Hps & _). apply Forall_app; split.
  - by apply Forall_replicate.
  - eapply Forall_impl; [done|]. by intros c (? & _)%plain_spec.
Qed.

Lemma normal_head_nonempty r c cs : normal r (c :: cs) → c ≠ "" ∧ no_slash c = true.
Proof.
  intros (k & ps & Heq & Hps & _). destruct k as [|k]; simpl in Heq.
  - destruct ps as [|p ps]; simplify_eq.
    apply Forall_cons in Hps as [Hp _]. apply plain_spec in Hp. tauto.
  - by simplify_eq.
Qed.

Lemma rooted_app_nonempty c rest :
  c ≠ "" → no_slash c = true → rooted (c +:+ rest) = false.
Proof.
  destruct c as [|a c]; [done|]. simpl. intros _ [Ha _]%andb_true_iff.
  by apply negb_true_iff.
Qed.

Lemma rooted_render r cs : normal r cs → rooted (render r cs) = r.
Proof.
  intros Hn. unfold render. destruct r; [done|].
  destruct cs as [|c cs]; [done|].
  apply normal_head_nonempty in Hn as [H1 H2].
  destruct c as [|a c]; [done|]. simpl in H2.
  apply andb_true_iff in H2 as [Ha%negb_true_iff _].
  by destruct cs.
Qed.

Lemma elems_render r cs : normal r cs → elems (render r cs) = cs.
Proof.
  intros Hn. unfold elems. rewrite rooted_render by done.
  pose proof (normal_no_slash _ _ Hn) as Hns.
  unfold render. destruct r.
  - change ("/" +:+ strings.Join cs "/") with ("" +:+ String "/" (strings.Join cs "/")).
    rewrite split_slash_app. simpl.
    destruct cs as [|c cs]; [done|].
    rewrite split_slash_Join by done.
    change (fold_left (clean_step true) (c :: cs) (clean_step true [] ""))
      with (fold_left (clean_step true) (c :: cs) []).
    by apply fold_clean_id.
  - destruct cs as [|c cs]; [done|].
    rewrite split_slash_Join by done. by apply fold_clean_id.
Qed.

Lemma rooted_Clean s : rooted (Clean s) = rooted s.
Proof. apply rooted_render, elems_normal. Qed.

Lemma elems_Clean s : elems (Clean s) = elems s.
Proof. apply elems_render, elems_normal. Qed.

Lemma split_slash_render r cs :
  normal r cs → cs ≠ [] →
  split_slash (render r cs) = (if r then [""] else []) ++ cs.
Proof.
  intros Hn Hne. pose proof (normal_no_slash _ _ Hn) as Hns.
  unfold render. destruct r.
  - change ("/" +:+ strings.Join cs "/")
      with ("" +:+ String "/" (strings.Join cs "/")).
    by rewrite split_slash_app, split_slash_Join.
  - destruct cs as [|c cs]; [done|]. by rewrite split_slash_Join.
Qed.

Lemma plain_rooted n : plain n = true → rooted n = false.
Proof.
  intros (Hs & Hne & _)%plain_spec. destruct n as [|a n]; [done|].
  simpl in *. apply andb_true_iff in Hs as [Ha _]. by apply negb_true_iff.
Qed.

(** [Join] with a plain name appends one element. *)
Lemma Join_plain s n :
  plain n = true → filepath.Join s n = render (rooted s) (elems s ++ [n]).
Proof.
  intros Hn. pose proof Hn as (Hs & Hne & _)%plain_spec.
  unfold filepath.Join. destruct (decide (s = "")) as [->|Hs0].
  - rewrite decide_False by done. unfold Clean, elems.
    rewrite plain_rooted, split_slash_no_slash by done. simpl.
    by rewrite clean_step_plain.
  - unfold Clean, elems.
    assert (rooted (s +:+ "/" +:+ n) = rooted s) as -> by by destruct s.
    change (s +:+ "/" +:+ n) with (s +:+ String "/" n).
    rewrite split_slash_app, (split_slash_no_slash n), fold_left_app by done.
    simpl. by rewrite clean_step_plain.
Qed.

Lemma elems_Join s n : plain n = true → elems (filepath.Join s n) = elems s ++ [n].
Proof.
  intros Hn. rewrite Join_plain by done.
  apply elems_render, normal_snoc; [apply elems_normal|done].
Qed.

Lemma rooted_Join s n : plain n = true → rooted (filepath.Join s n) = rooted s.
Proof.
  intros Hn. rewrite Join_plain by done.
  apply rooted_render, normal_snoc; [apply elems_normal|done].
Qed.

Lemma elems_joins s ns :
  Forall (λ c, plain c = true) ns → elems (joins s ns) = elems s ++ ns.
Proof.
  intros Hns. revert s. induction Hns as [|n ns Hn _ IH]; intros s; simpl.
  - by rewrite app_nil_r.
  - unfold joins in *. simpl. rewrite IH, elems_Join by done.
    by rewrite <-app_assoc.
Qed.

Lemma rooted_joins s ns :
  Forall (λ c, plain c = true) ns → rooted (joins s ns) = rooted s.
Proof.
  intros Hns. revert s. induction Hns as [|n ns Hn _ IH]; intros s; [done|].
  unfold joins in *. simpl. by rewrite IH, rooted_Join.
Qed.

Lemma joins_snoc s ns n : joins s (ns ++ [n]) = filepath.Join (joins s ns) n.
Proof. unfold joins. by rewrite fold_left_app. Qed.

(** A proper descendant is never its own root. *)
Lemma joins_neq s ns :
  Forall (λ c, plain c = true) ns → ns ≠ [] → joins s ns ≠ s.
Proof.
  intros Hns Hne Heq. apply (f_equal elems) in Heq.
  rewrite elems_joins in Heq by done.
  apply (f_equal length) in Heq. rewrite length_app in Heq.
  destruct ns; [done|]. simpl in Heq. lia.
Qed.

Lemma Clean_joins_neq s ns :
  Forall (λ c, plain c = true) ns → ns ≠ [] → Clean (joins s ns) ≠ Clean s.
Proof.
  intros Hns Hne Heq. apply (f_equal elems) in Heq.
  rewrite !elems_Clean, elems_joins in Heq by done.
  apply (f_equal length) in Heq. rewrite length_app in Heq.
  destruct ns; [done|]. simpl in Heq. lia.
Qed.

Lemma strip_trailing_snoc cs n : n ≠ "" → strip_trailing (cs ++ [n]) = cs ++ [n].
Proof.
  intros Hn. induction cs as [|c cs IH]; simpl.
  - by rewrite decide_False.
  - rewrite IH. by destruct cs.
Qed.

Lemma Base_render r cs n :
  normal r cs → plain n = true → Base (render r (cs ++ [n])) = n.
Proof.
  intros Hcs Hn. pose proof Hn as (_ & Hne & _)%plain_spec.
  assert (split_slash (render r (cs ++ [n]))
          = ((if r then [""] else []) ++ cs) ++ [n]) as Hsp.
  { rewrite split_slash_render, app_assoc; [done| |by destruct cs].
    by apply normal_snoc. }
  unfold Base. rewrite decide_False.
  - by rewrite Hsp, strip_trailing_snoc, last_snoc.
  - intros Heq. rewrite Heq in Hsp. simpl in Hsp.
    destruct ((if r then [""] else []) ++ cs) as [|? [|]];
      simpl in Hsp; simplify_eq.
Qed.

(** The base name of what [Walk] passes for a directory entry is the name
    of the entry. *)
Lemma Base_Join s n : plain n = true → Base (filepath.Join s n) = n.
Proof.
  intros Hn. rewrite Join_plain by done.
  apply Base_render; [apply elems_normal|done].
Qed.

Lemma Dir_render r cs n :
  normal r cs → plain n = true → filepath.Dir (render r (cs ++ [n])) = render r cs.
Proof.
  intros Hcs Hn.
  assert (dir_part (render r (cs ++ [n]))
          = strings.Join (((if r then [""] else []) ++ cs) ++ [""]) "/") as Hd.
  { unfold dir_part. rewrite split_slash_render; [| |by destruct cs].
    - by rewrite app_assoc, removelast_last.
    - by apply normal_snoc. }
  unfold filepath.Dir. rewrite Hd.
  assert (rooted (strings.Join (((if r then [""] else []) ++ cs) ++ [""]) "/") = r)
    as Hr.
  { destruct r.
    - by destruct cs.
    - destruct cs as [|c cs]; [done|].
      apply normal_head_nonempty in Hcs as [H1 H2].
      destruct c as [|a c]; [done|]. simpl in H2.
      apply andb_true_iff in H2 as [Ha%negb_true_iff _].
      simpl. by destruct cs. }
  unfold Clean, elems. rewrite Hr. f_equal.
  rewrite split_slash_Join.
  - rewrite !fold_left_app. simpl.
    assert (fold_left (clean_step r) (if r then [""] else []) [] = []) as ->
      by by destruct r.
    rewrite fold_clean_id by done. done.
  - by destruct r, cs.
  - rewrite !Forall_app. split_and!.
    + destruct r; by repeat constructor.
    + by eapply normal_no_slash.
    + by repeat constructor.
Qed.

(** The parent of what [Walk] passes for an entry of directory [s] is the
    cleaned path of [s]. *)
Lemma Dir_Join s n : plain n = true → filepath.Dir (filepath.Join s n) = Clean s.
Proof.
  intros Hn. rewrite Join_plain by done.
  apply Dir_render; [apply elems_normal|done].
Qed.

Lemma strip_common_app cs ns : strip_common cs (cs ++ ns) = ([], ns).
Proof.
  induction cs as [|c cs IH]; simpl; [by destruct ns|].
  by rewrite decide_True.
Qed.

(** The path of a proper descendant relative to its root is the list of
    names that lead to it. *)
Lemma Rel_joins s ns :
  Forall (λ c, plain c = true) ns → ns ≠ [] →
  Rel s (joins s ns) = Ok (strings.Join ns "/").
Proof.
  intros Hns Hne. unfold Rel.
  rewrite decide_False by by apply Clean_joins_neq.
  rewrite !rooted_Clean, rooted_joins, eqb_reflx by done. simpl.
  by rewrite elems_joins, strip_common_app.
Qed.

Lemma Rel_self s : Rel s s = Ok ".".
Proof. unfold Rel. by rewrite decide_True. Qed.

Lemma Join_names_not_dot ns :
  Forall (λ c, plain c = true) ns → ns ≠ [] → strings.Join ns "/" ≠ ".".
Proof.
  intros Hns Hne Heq. apply (f_equal split_slash) in Heq.
  rewrite split_slash_Join in Heq; [|done|].
  - subst ns. by inversion Hns.
  - eapply Forall_impl; [done|]. by intros c (? & _)%plain_spec.
Qed.

End PathFacts.

(** ** Proof infrastructure: the walks of [validateFiles] *)

Module FileFacts.
Import Walk.

Lemma elem_of_visits n names n' : ∀ path,
  holds n names n' → visitOf (filepath.joins path names) n' ∈ visits path n.
Proof.
  intros path H. revert path.
  induction H as [n|entries name child names n' Hin _ IH]; intros path.
  - destruct n; simpl; by left.
  - simpl. right. specialize (IH (filepath.Join path name)).
    induction entries as [|[nm c] es IHes].
    + by apply elem_of_nil in Hin.
    + apply elem_of_app. apply elem_of_cons in Hin as [Heq|Hin].
      * simplify_eq. by left.
      * right. by apply IHes.
Qed.

Lemma elem_of_rootVisits fs inputs r names n' :
  r ∈ inputs → holds (fs r) names n' →
  (r, visitOf (filepath.joins r names) n') ∈ rootVisits fs inputs.
Proof.
  intros Hr Hh. unfold rootVisits. apply list_elem_of_bind. exists r.
  split; [|done]. apply list_elem_of_fmap. eexists. split; [done|].
  by apply elem_of_visits.
Qed.

Lemma runVisits_app o wd tvs tws s :
  runVisits o wd (tvs ++ tws) s =
  match runVisits o wd tvs s with
  | (s1, Some e) => (s1, Some e)
  | (s1, None) => runVisits o wd tws s1
  end.
Proof.
  revert s. induction tvs as [|tv tvs IH]; intros s; simpl; [done|].
  destruct (validateFiles_step o wd tv s) as [s1 [e1|]]; [done|]. apply IH.
Qed.

(** The loop of [validateFiles] runs its visitor over the visits of all the
    input paths. *)
Lemma validateFiles_loop_run o wd fs inputs : ∀ s,
  validateFiles_loop o wd fs inputs s = runVisits o wd (rootVisits fs inputs) s.
Proof.
  induction inputs as [|r inputs IH]; intros s; [done|].
  simpl. unfold Walk. rewrite WalkFacts.walk_run.
  unfold rootVisits. simpl. fold (rootVisits fs inputs).
  rewrite runVisits_app.
  assert (∀ vs s, runVisits o wd (pair r <$> vs) s
                  = run (validateFiles_fn o wd r) vs s) as ->.
  { clear. induction vs as [|[[p i] e] vs IHvs]; intros s; simpl; [done|].
    unfold validateFiles_step. simpl.
    destruct (validateFiles_fn o wd r p i e s) as [s1 [e1|]]; [done|].
    apply IHvs. }
  destruct (run _ _ _) as [s1 [e1|]]; [done|]. apply IH.
Qed.

Lemma step_error o wd tv s : (validateFiles_step o wd tv s).2 = fileError o wd tv.
Proof.
  unfold fileError, validateFiles_step, validateFiles_fn.
  destruct tv as [r [[p i] e]], s as [bp m]; simpl.
  repeat case_match; simplify_eq; done.
Qed.

Lemma step_map o wd tv bp m :
  (validateFiles_step o wd tv (bp, m)).1.2
  = match recordOf tv with
    | Some kp => appendAt kp.1 kp.2 m
    | None => m
    end.
Proof.
  unfold recordOf, validateFiles_step, validateFiles_fn.
  destruct tv as [r [[p i] e]]; simpl.
  repeat case_match; simplify_eq; done.
Qed.

(** A visit the visitor fails on makes the walks fail: at that visit or at
    an earlier one. *)
Lemma runVisits_error o wd tvs tv : ∀ s,
  tv ∈ tvs → fileError o wd tv ≠ None → (runVisits o wd tvs s).2 ≠ None.
Proof.
  induction tvs as [|tv' tvs IH]; intros s Hin Herr.
  - by apply elem_of_nil in Hin.
  - simpl. destruct (validateFiles_step o wd tv' s) as [s1 [e1|]] eqn:Hstep;
      [done|].
    apply elem_of_cons in Hin as [->|Hin]; [|by apply IH].
    rewrite <-(step_error o wd tv' s), Hstep in Herr. done.
Qed.

(** When the walks end without an error, no visit failed and the map holds
    every record. *)
Lemma runVisits_ok o wd tvs : ∀ bp m bp' m',
  runVisits o wd tvs (bp, m) = ((bp', m'), None) →
  m' = grouped (omap recordOf tvs) m ∧ ∀ tv, tv ∈ tvs → fileError o wd tv = None.
Proof.
  induction tvs as [|tv tvs IH]; intros bp m bp' m' Hrun; cbn [runVisits] in Hrun.
  - simplify_eq. split; [done|]. by intros tv ?%elem_of_nil.
  - pose proof (step_map o wd tv bp m) as Hm.
    pose proof (step_error o wd tv (bp, m)) as He.
    destruct (validateFiles_step o wd tv (bp, m)) as [[bp1 m1] [e1|]]; [done|].
    simpl in Hm, He. apply IH in Hrun as [-> Hall]. split.
    + subst m1. simpl. by destruct (recordOf tv).
    + intros tv' [->|Hin]%elem_of_cons; [done|by apply Hall].
Qed.

(** A visit that passes adds its path to [bundlePaths] exactly when it is
    recorded under the name [.imgpkg]. *)
Lemma step_bundlePaths o wd tv bp m bp1 m1 :
  validateFiles_step o wd tv (bp, m) = ((bp1, m1), None) →
  length bp1
  = length bp +
    length (filter (λ kp : string * string, filepath.Base kp.2 = BundleDir)
              (option_list (recordOf tv))).
Proof.
  unfold recordOf, validateFiles_step, validateFiles_fn.
  destruct tv as [r [[p i] e]]; simpl.
  repeat case_match; simplify_eq; intros; simplify_eq; simpl;
    rewrite ?filter_cons, ?filter_nil; simpl;
    try match goal with
        | H : bool_decide _ = true |- _ => apply bool_decide_eq_true_1 in H
        | H : bool_decide _ = false |- _ => apply bool_decide_eq_false_1 in H
        end;
    repeat case_decide; simpl; rewrite ?length_app; simpl; try lia; try done.
Qed.

Lemma runVisits_bundlePaths o wd tvs : ∀ bp m bp' m',
  runVisits o wd tvs (bp, m) = ((bp', m'), None) →
  length bp'
  = length bp +
    length (filter (λ kp : string * string, filepath.Base kp.2 = BundleDir)
              (omap recordOf tvs)).
Proof.
  induction tvs as [|tv tvs IH]; intros bp m bp' m' Hrun; cbn [runVisits] in Hrun.
  - simplify_eq. simpl. lia.
  - destruct (validateFiles_step o wd tv (bp, m)) as [[bp1 m1] [e1|]] eqn:Hstep;
      [done|].
    apply step_bundlePaths in Hstep. apply IH in Hrun. rewrite Hrun, Hstep.
    assert (omap recordOf (tv :: tvs)
            = option_list (recordOf tv) ++ omap recordOf tvs) as ->.
    { simpl. by destruct (recordOf tv). }
    by rewrite filter_app, length_app, Nat.add_assoc.
Qed.

(** A recorded path named [.imgpkg] fails the visitor of an image push. *)
Lemma image_record_fails o wd tv kp :
  isImage o = true → recordOf tv = Some kp → filepath.Base kp.2 = BundleDir →
  fileError o wd tv ≠ None.
Proof.
  unfold recordOf, fileError, validateFiles_step, validateFiles_fn.
  destruct tv as [r [[p i] e]]; simpl. intros Himg.
  repeat case_match; simplify_eq; intros; simplify_eq; simpl in *; try done.
  all: match goal with
       | H : bool_decide (_ ≠ _) = true |- _ => by apply bool_decide_eq_true_1 in H
       end.
Qed.

Lemma pathsAt_cons k k' p recs :
  pathsAt k ((k', p) :: recs)
  = if decide (k' = k) then p :: pathsAt k recs else pathsAt k recs.
Proof.
  unfold pathsAt. rewrite filter_cons. simpl. by destruct (decide (k' = k)).
Qed.

Lemma grouped_lookup_total recs : ∀ m k,
  grouped recs m !!! k = m !!! k ++ pathsAt k recs.
Proof.
  induction recs as [|[k' p] recs IH]; intros m k.
  - simpl. by rewrite app_nil_r.
  - simpl. rewrite IH, pathsAt_cons. unfold appendAt. simpl.
    destruct (decide (k' = k)) as [->|Hne].
    + by rewrite lookup_total_insert_eq, <-app_assoc.
    + by rewrite lookup_total_insert_ne.
Qed.

(** The groups of the map built from [recs] are the non-empty [pathsAt]. *)
Lemma grouped_lookup recs k v :
  grouped recs ∅ !! k = Some v ↔ v = pathsAt k recs ∧ v ≠ [].
Proof.
  pose proof (grouped_lookup_total recs ∅ k) as Ht.
  rewrite lookup_total_empty in Ht. simpl in Ht.
  assert (∀ recs m, (∀ k v, m !! k = Some v → v ≠ []) →
            ∀ k v, grouped recs m !! k = Some v → v ≠ []) as Hne.
  { clear. induction recs as [|[k' p] recs IH]; intros m Hm k v; [apply Hm|].
    simpl. apply IH. intros k0 v0. unfold appendAt. simpl.
    destruct (decide (k' = k0)) as [->|].
    - rewrite lookup_insert_eq. intros [= <-]. by destruct (m !!! k0).
    - rewrite lookup_insert_ne by done. apply Hm. }
  rewrite lookup_total_alt in Ht. split.
  - intros Hv. rewrite Hv in Ht. simpl in Ht. split; [done|].
    eapply (Hne recs ∅); [|done]. intros ??. by rewrite lookup_empty.
  - intros [-> Hv]. destruct (grouped recs ∅ !! k) as [v|]; simpl in Ht.
    + by rewrite Ht.
    + by rewrite <-Ht in Hv.
Qed.

Lemma length_gt_1_two {A} (l : list A) x y :
  x ∈ l → y ∈ l → x ≠ y → 1 < length l.
Proof.
  intros Hx Hy Hne. destruct l as [|a [|b l]]; simpl; [|exfalso|lia].
  - by apply elem_of_nil in Hx.
  - apply list_elem_of_singleton in Hx, Hy. congruence.
Qed.

Lemma elem_of_pathsAt k p recs : p ∈ pathsAt k recs ↔ (k, p) ∈ recs.
Proof.
  unfold pathsAt. rewrite list_elem_of_fmap. split.
  - intros ([k' p'] & -> & [Hk Hin]%list_elem_of_filter). simpl in *. by subst.
  - intros Hin. exists (k, p). split; [done|]. by apply list_elem_of_filter.
Qed.

Section range.
Variable range_map : gmap string (list string) → list (string * list string).
Hypothesis range_map_perm : ∀ m, range_map m ≡ₚ map_to_list m.

Lemma elem_of_repeatedPaths entries p :
  p ∈ repeatedPaths entries ↔ ∃ k v, (k, v) ∈ entries ∧ 1 < length v ∧ p ∈ v.
Proof.
  induction entries as [|[k v] entries IH]; simpl.
  - split; [by intros ?%elem_of_nil|]. by intros (? & ? & ?%elem_of_nil & _).
  - case_bool_decide as Hlen.
    + rewrite elem_of_app, IH. split.
      * intros [Hp|(k' & v' & Hin & ?)].
        -- exists k, v. split_and!; [by left|done..].
        -- exists k', v'. split; [by right|done].
      * intros (k' & v' & [?|Hin]%elem_of_cons & Hl & Hp); simplify_eq.
        -- by left.
        -- right. by exists k', v'.
    + rewrite IH. split.
      * intros (k' & v' & Hin & ?). exists k', v'. split; [by right|done].
      * intros (k' & v' & [?|Hin]%elem_of_cons & Hl & Hp); simplify_eq; [done|].
        by exists k', v'.
Qed.

Lemma elem_of_range_map m k v : (k, v) ∈ range_map m ↔ m !! k = Some v.
Proof. by rewrite range_map_perm, elem_of_map_to_list. Qed.

(** What [checkRepeatedPaths] lists: the members of every group of two or
    more paths, and nothing else. *)
Lemma checkRepeatedPaths_listed m p :
  p ∈ repeatedPaths (range_map m) ↔ ∃ k v, m !! k = Some v ∧ 1 < length v ∧ p ∈ v.
Proof.
  rewrite elem_of_repeatedPaths. by setoid_rewrite elem_of_range_map.
Qed.

Lemma checkRepeatedPaths_spec m :
  (checkRepeatedPaths range_map m = None ∧
   ∀ k v, m !! k = Some v → length v ≤ 1)
  ∨ (checkRepeatedPaths range_map m
       = Some (duplicatePaths (repeatedPaths (range_map m))) ∧
     ∃ k v, m !! k = Some v ∧ 1 < length v).
Proof.
  unfold checkRepeatedPaths. case_bool_decide as Hlen.
  - right. split; [done|].
    destruct (repeatedPaths (range_map m)) as [|p l] eqn:Heq; [simpl in Hlen; lia|].
    assert (p ∈ repeatedPaths (range_map m)) as Hp by (rewrite Heq; by left).
    apply checkRepeatedPaths_listed in Hp as (k & v & ? & ? & _). eauto.
  - left. split; [done|]. intros k v Hkv.
    destruct (decide (length v ≤ 1)) as [|Hgt]; [done|]. exfalso.
    destruct v as [|p v]; [simpl in Hgt; lia|].
    assert (p ∈ repeatedPaths (range_map m)) as Hp.
    { apply checkRepeatedPaths_listed. exists k, (p :: v).
      split_and!; [done|lia|by left]. }
    destruct (repeatedPaths (range_map m)); [by apply elem_of_nil in Hp|].
    simpl in Hlen. lia.
Qed.

(** [validateFiles] on the map of all the records, once the walks and the
    count of bundle directories have passed. *)
Lemma validateFiles_reaches_check o wd fs bp m :
  walked o wd fs = ((bp, m), None) → length bp ≤ 1 →
  m = grouped (recorded fs o.(fileFlags).(Files)) ∅ ∧
  validateFiles range_map o wd fs = checkRepeatedPaths range_map m.
Proof.
  intros Hw Hbp. unfold validateFiles. fold (walked o wd fs). rewrite Hw.
  rewrite bool_decide_eq_false_2 by lia. split; [|done].
  unfold walked in Hw. rewrite validateFiles_loop_run in Hw.
  by apply runVisits_ok in Hw as [-> _].
Qed.

Lemma walked_ok o wd fs :
  (walked o wd fs).2 = None →
  walked o wd fs = ((walked o wd fs).1.1, (walked o wd fs).1.2, None).
Proof. destruct (walked o wd fs) as [[??]?]; simpl. by intros ->. Qed.

Lemma walked_map o wd fs bp m :
  walked o wd fs = ((bp, m), None) →
  m = grouped (recorded fs o.(fileFlags).(Files)) ∅.
Proof.
  unfold walked. rewrite validateFiles_loop_run.
  by intros [-> _]%runVisits_ok.
Qed.

(** The duplicate check on the map of the records [recs]: it passes exactly
    when no bundle-internal path has two recorded paths, and otherwise lists
    the recorded paths of every bundle-internal path that has. *)
Lemma checkRepeatedPaths_grouped recs :
  (checkRepeatedPaths range_map (grouped recs ∅) = None ∧
   ∀ k, length (pathsAt k recs) ≤ 1)
  ∨ (∃ listed,
       checkRepeatedPaths range_map (grouped recs ∅) = Some (duplicatePaths listed) ∧
       (∃ k, 1 < length (pathsAt k recs)) ∧
       ∀ p, p ∈ listed ↔ ∃ k, 1 < length (pathsAt k recs) ∧ (k, p) ∈ recs).
Proof.
  destruct (checkRepeatedPaths_spec (grouped recs ∅))
    as [[-> Hall]|[-> (k & v & Hkv & Hv)]].
  - left. split; [done|]. intros k.
    destruct (pathsAt k recs) as [|p l] eqn:Hp; [simpl; lia|].
    rewrite <-Hp. apply (Hall k). by rewrite grouped_lookup, Hp.
  - right. eexists. split; [done|].
    rewrite grouped_lookup in Hkv. destruct Hkv as [-> _]. split; [eauto|].
    intros p. rewrite checkRepeatedPaths_listed. split.
    + intros (k' & v' & Hkv' & Hl & Hp). rewrite grouped_lookup in Hkv'.
      destruct Hkv' as [-> _]. exists k'. by rewrite <-elem_of_pathsAt.
    + intros (k' & Hl & Hp). exists k', (pathsAt k' recs).
      rewrite grouped_lookup, elem_of_pathsAt. split_and!; [done| |done..].
      intros Heq. rewrite Heq in Hl. simpl in Hl. lia.
Qed.

(** A bundle-internal path with two recorded paths makes validation fail. *)
Lemma validateFiles_collision o wd fs k :
  1 < length (pathsAt k (recorded fs o.(fileFlags).(Files))) →
  validateFiles range_map o wd fs ≠ None.
Proof.
  intros Hk. unfold validateFiles. fold (walked o wd fs).
  destruct (walked o wd fs) as [[bp m] [e|]] eqn:Hw; [done|].
  case_bool_decide as Hbp; [done|].
  destruct (validateFiles_reaches_check o wd fs bp m Hw) as [Hm _]; [lia|].
  destruct (checkRepeatedPaths_spec m) as [[_ Hall]|[-> _]]; [|done].
  exfalso. destruct (pathsAt k _) as [|a l] eqn:Hp; [simpl in Hk; lia|].
  assert (length (a :: l) ≤ 1); [|lia].
  apply (Hall k). by rewrite Hm, grouped_lookup, Hp.
Qed.

(** A visit of an entry named [.imgpkg] under an input path fails: always
    for an image, and below the first level for a bundle. *)
Lemma imgpkg_visit_fails o wd r names n' :
  Forall (λ c, filepath.plain c = true) names →
  isImage o = true ∨ names ≠ [] →
  fileError o wd (r, visitOf (filepath.joins r (names ++ [BundleDir])) n') ≠ None.
Proof.
  intros Hnames Hcase.
  assert (filepath.plain BundleDir = true) as Hb by done.
  assert (Forall (λ c, filepath.plain c = true) (names ++ [BundleDir])) as Hall.
  { apply Forall_app. split; [done|]. by constructor. }
  assert (names ++ [BundleDir] ≠ []) as Hne by by destruct names.
  pose proof (PathFacts.Rel_joins r _ Hall Hne) as Hrel.
  pose proof (PathFacts.Join_names_not_dot _ Hall Hne) as Hdot.
  assert (filepath.Base (filepath.joins r (names ++ [BundleDir])) = BundleDir) as Hbase.
  { rewrite PathFacts.joins_snoc. by apply PathFacts.Base_Join. }
  assert (names ≠ [] → filepath.Dir (filepath.joins r (names ++ [BundleDir])) ≠ r)
    as Hdir.
  { intros Hn. rewrite PathFacts.joins_snoc, PathFacts.Dir_Join by done.
    intros Heq. apply (f_equal filepath.elems) in Heq.
    rewrite PathFacts.elems_Clean, PathFacts.elems_joins in Heq by done.
    apply (f_equal length) in Heq. rewrite length_app in Heq.
    destruct names; [done|]. simpl in Heq. lia. }
  unfold fileError, validateFiles_step, validateFiles_fn.
  destruct n' as [|entries|info e]; cbn [visitOf fst snd]; [| |done].
  all: rewrite Hrel, Hbase, (bool_decide_eq_false_2 _ Hdot); cbn [andb IsDir].
  all: rewrite (bool_decide_eq_false_2 (BundleDir ≠ BundleDir)) by (intros H; done).
  all: destruct (isImage o) eqn:Himg; [done|].
  all: destruct Hcase as [|Hn]; [done|].
  all: by rewrite (bool_decide_eq_true_2 _ (Hdir Hn)).
Qed.

(** An entry below an input path is recorded under the names that lead to
    it, joined by slashes, unless the walk fails on it. *)
Lemma recordOf_entry r names n' :
  Forall (λ c, filepath.plain c = true) names → names ≠ [] →
  match n' with
  | Broken _ _ => True
  | _ => recordOf (r, visitOf (filepath.joins r names) n')
         = Some (strings.Join names "/", filepath.joins r names)
  end.
Proof.
  intros Hall Hne.
  pose proof (PathFacts.Rel_joins r _ Hall Hne) as Hrel.
  pose proof (PathFacts.Join_names_not_dot _ Hall Hne) as Hdot.
  destruct n'; simpl; [| |done];
    by rewrite Hrel, (bool_decide_eq_false_2 _ Hdot).
Qed.

Lemma validateFiles_visit_fails o wd fs tv :
  tv ∈ rootVisits fs o.(fileFlags).(Files) → fileError o wd tv ≠ None →
  validateFiles range_map o wd fs ≠ None.
Proof.
  intros Hin Herr. unfold validateFiles.
  pose proof (runVisits_error o wd _ tv ([], ∅) Hin Herr) as Hrun.
  rewrite <-validateFiles_loop_run in Hrun.
  by destruct (validateFiles_loop _ _ _ _ _) as [[bp m] [e|]].
Qed.

End range.

End FileFacts.

(** ** Proof infrastructure: bundle/contents.go *)

Module ContentsFacts.
Import Walk.

Lemma findImgpkgDirs_run_length wd r vs : ∀ acc acc1,
  run (findImgpkgDirs_fn wd) vs acc = (acc1, None) →
  length acc1
  = length acc +
    length (filter (λ tv : string * visit, filepath.Base tv.2.1.1 = ImgpkgDir)
              (pair r <$> vs)).
Proof.
  induction vs as [|[[p i] e] vs IHvs]; intros acc acc1 Hrun; simpl in Hrun.
  - simplify_eq. simpl. lia.
  - rewrite fmap_cons, filter_cons. unfold findImgpkgDirs_fn in Hrun at 1.
    destruct e as [e|]; [done|]. simpl.
    case_bool_decide as Hb.
    + rewrite decide_False by done. by apply IHvs.
    + rewrite decide_True by (by destruct (decide (filepath.Base p = ImgpkgDir))).
      destruct (filepath.Abs wd p) as [a|e]; [|done].
      apply IHvs in Hrun. rewrite length_app in Hrun. simpl in *. lia.
Qed.

Lemma findImgpkgDirs_loop_length wd fs inputs : ∀ acc dirs,
  findImgpkgDirs_loop wd fs inputs acc = (dirs, None) →
  length dirs = length acc + length (imgpkgVisits fs inputs).
Proof.
  unfold imgpkgVisits.
  induction inputs as [|r inputs IH]; intros acc dirs Hloop; simpl in Hloop.
  - simplify_eq. simpl. lia.
  - unfold Walk in Hloop. rewrite WalkFacts.walk_run in Hloop.
    change (rootVisits fs (r :: inputs))
      with ((pair r <$> visits r (fs r)) ++ rootVisits fs inputs).
    rewrite filter_app, length_app.
    destruct (run _ _ _) as [acc1 [e1|]] eqn:Hrun; [done|].
    apply IH in Hloop. rewrite Hloop.
    rewrite (findImgpkgDirs_run_length wd r _ _ _ Hrun).
    symmetry. apply Nat.add_assoc.
Qed.

(** [findImgpkgDirs] returns one path for every visit named [.imgpkg]. *)
Lemma findImgpkgDirs_length wd fs b dirs :
  findImgpkgDirs wd fs b = Ok dirs →
  length dirs = length (imgpkgVisits fs b.(paths)).
Proof.
  unfold findImgpkgDirs.
  destruct (findImgpkgDirs_loop _ _ _ _) as [acc [e|]] eqn:Hloop; [done|].
  intros [= <-]. by apply findImgpkgDirs_loop_length in Hloop.
Qed.

Lemma childOfInput_None wd path flagPaths notFound :
  childOfInput wd path flagPaths notFound = None →
  ∃ flagPath, flagPath ∈ flagPaths ∧
              filepath.Abs wd flagPath = Ok (filepath.Dir path).
Proof.
  induction flagPaths as [|f fs IH]; simpl; [done|].
  destruct (filepath.Abs wd f) as [a|e] eqn:Ha; [|done].
  case_bool_decide as Hd.
  - intros _. exists f. split; [by left|]. by rewrite Hd.
  - intros (f' & Hin & Hf')%IH. exists f'. split; [by right|done].
Qed.

Lemma childOfInput_notFound wd path flagPaths notFound :
  Forall (λ f, ∃ a, filepath.Abs wd f = Ok a ∧ a ≠ filepath.Dir path) flagPaths →
  childOfInput wd path flagPaths notFound = Some notFound.
Proof.
  induction 1 as [|f fs (a & Ha & Hne) _ IH]; simpl; [done|].
  rewrite Ha. by rewrite bool_decide_eq_false_2.
Qed.

Lemma childOfInput_Some wd path flagPaths notFound e :
  childOfInput wd path flagPaths notFound = Some e →
  e = notFound ∨ ∃ flagPath, flagPath ∈ flagPaths ∧ filepath.Abs wd flagPath = Err e.
Proof.
  induction flagPaths as [|f fs IH]; simpl.
  - intros [= <-]. by left.
  - destruct (filepath.Abs wd f) as [a|e'] eqn:Ha.
    + case_bool_decide; [done|]. intros [->|(f' & Hin & Hf')]%IH; [by left|].
      right. exists f'. split; [by right|done].
    + intros [= <-]. right. exists f. split; [by left|done].
Qed.

End ContentsFacts.

(** ** Proof infrastructure: Run *)

Module RunFacts.

(** Unfold the steps of [Run] and split on the outcome of each. *)
Ltac run_cases :=
  unfold Run, AsFileBundle, AsFileImage, defer, wrapErr, call, perform, check,
    pure, mbind, mret, Eff_bind, Eff_ret;
  repeat (case_match; simplify_eq; simpl in * );
  simpl in *.

(** Split a hypothesis of membership in an explicit list. *)
Ltac elem_inv :=
  repeat match goal with
  | H : _ ∈ [] |- _ => by apply elem_of_nil in H
  | H : list_elem_of _ [] |- _ => by apply elem_of_nil in H
  | H : _ ∈ _ :: _ |- _ => apply elem_of_cons in H as [H|H]; simplify_eq
  | H : list_elem_of _ (_ :: _) |- _ =>
      apply elem_of_cons in H as [H|H]; simplify_eq
  end.

(** Find an element in an explicit list. *)
Ltac elem_find :=
  repeat first [ apply list_elem_of_here | apply list_elem_of_further ].

Lemma validateFlags_lock_bundle o :
  validateFlags o = None → o.(outputFlags).(LockFilePath) ≠ "" →
  isBundle o = true ∧ isImage o = false.
Proof.
  unfold validateFlags. intros Hv Hl.
  rewrite (bool_decide_eq_true_2 _ Hl) in Hv.
  by destruct (isImage o), (isBundle o).
Qed.

Lemma validateFlags_one_kind o :
  validateFlags o = None → isBundle o = negb (isImage o).
Proof.
  unfold validateFlags. by destruct (isImage o), (isBundle o).
Qed.

End RunFacts.

(** ** Proof infrastructure: the calls of the operations *)

Module OperationFacts.

(** A property of every call of a computation and of what follows it. *)
Lemma bind_events {A B : Type} (P : event → Prop) (m : Eff A) (f : A → Eff B) :
  Forall P m.1 → (∀ v, Forall P (f v).1) → Forall P (m ≫= f).1.
Proof.
  destruct m as [t [v|e]]; simpl; intros Hm Hf; [|done].
  specialize (Hf v). destruct (f v) as [t' r]. simpl in *. by apply Forall_app.
Qed.

Lemma eachM_events {S A : Type} (P : event → Prop) (step : A → S → Eff S)
    (l : list A) (s : S) :
  (∀ a s, Forall P (step a s).1) → Forall P (eachM step l s).1.
Proof.
  intros Hstep. unfold eachM.
  assert (Forall P (mret (M := Eff) s).1) as Hacc by constructor.
  revert Hacc. generalize (mret (M := Eff) s).
  induction l as [|a l IH]; intros acc Hacc; [done|].
  simpl. apply IH. by apply bind_events.
Qed.

Lemma call_events {A : Type} (P : event → Prop) (ev : Result A → event)
    (res : Result A) :
  P (ev res) → Forall P (call ev res).1.
Proof. intros H. by repeat constructor. Qed.

Lemma perform_events (P : event → Prop) (ev : option error → event)
    (err : option error) :
  P (ev err) → Forall P (perform ev err).1.
Proof. intros H. by repeat constructor. Qed.

Section Operations.

Variable Digest : FileImage → Result string.
Variable registryError : Tag → FileImage → option error.
Variable tarball : list string → list string → Result string.
Variable readBundleLock : string → Result BundleLock.
Variable readManifest : string → Result Manifest.
Variable extractError : string → string → option error.
Variable existsAt : string → string → bool.
Variable copyError : string → string → option error.
Variable rewriteError : string → string → option error.
Variable tagError : string → string → string → option error.

Abbreviation quiet := (λ ev : event, isWriteFile ev = false).

Lemma plainPush_events paths excluded uploadRef labels :
  Forall quiet
    (plainPush registryError Digest tarball paths excluded uploadRef labels).1.
Proof.
  unfold plainPush. apply bind_events; [by apply call_events|]. intros layer.
  apply bind_events; [by apply perform_events|]. intros _.
  apply bind_events; [constructor|]. intros digest. constructor.
Qed.

Lemma Pull_events source destinationDir expectedKind :
  Forall quiet
    (Pull readBundleLock readManifest extractError source destinationDir
          expectedKind).1.
Proof.
  unfold Pull. apply bind_events.
  { destruct source as [ref|path]; [constructor|].
    apply bind_events; [by apply call_events|]. intros lock. constructor. }
  intros url. apply bind_events; [by apply call_events|]. intros m.
  destruct expectedKind, (isBundleManifest m);
    first [ by apply perform_events | constructor ].
Qed.

Lemma closure_events depth : ∀ m st,
  Forall quiet (closure readManifest depth m st).1.
Proof.
  induction depth as [|depth IH]; intros m st; cbn [closure].
  - case_bool_decide; constructor.
  - case_bool_decide; [constructor|].
    apply bind_events; [|intros st'; constructor].
    destruct (isBundleManifest m); [|constructor].
    apply eachM_events. intros ref st'.
    apply bind_events; [by apply call_events|]. intros d. apply IH.
Qed.

Lemma copyNode_events destinationRepository m u :
  Forall quiet
    (copyNode existsAt copyError rewriteError destinationRepository m u).1.
Proof.
  unfold copyNode. destruct (existsAt _ _); [constructor|].
  apply bind_events; [by apply perform_events|]. intros _.
  destruct (isBundleManifest m); [by apply perform_events|constructor].
Qed.

Lemma Copy_events depth sourceReference destinationRepository recursive :
  Forall quiet
    (Copy readManifest existsAt copyError rewriteError tagError depth
          sourceReference destinationRepository recursive).1.
Proof.
  unfold Copy. apply bind_events; [by apply call_events|]. intros m.
  apply bind_events.
  { destruct recursive; [|constructor].
    apply bind_events; [apply closure_events|]. intros st. constructor. }
  intros nodes. apply bind_events.
  { apply eachM_events. intros n u. apply copyNode_events. }
  intros _. destruct (ManifestTag m); [by apply perform_events|constructor].
Qed.

End Operations.

(** [Contents.Push] makes no call of its own: its calls are calls of the
    plain image push it is given. *)
Lemma Push_events (wd : option string) (fs : FS) (BundleConfigLabel : string)
    (plainimagePush :
       list string → list string → Tag → gmap string string → Eff string)
    (b : Contents) (uploadRef : Tag) (ev : event) :
  ev ∈ (Push wd fs BundleConfigLabel plainimagePush b uploadRef).1 →
  ev ∈ (plainimagePush b.(paths) b.(excludedPaths) uploadRef
          {[ BundleConfigLabel := "true" ]}).1.
Proof.
  unfold Push. destruct (validate wd fs b); [|done].
  intros Hin. by apply elem_of_nil in Hin.
Qed.

End OperationFacts.

(** * The properties *)

(** ** Flags *)

(** C7.  Flag validation of push fails exactly when (a) both an image and a
    bundle destination are given, (b) neither is given, or (c) a lock output
    path is given together with an image destination; with exactly one
    destination (and no lock output for an image) it passes. *)
Theorem validateFlags_fails_iff (o : PushOptions) :
  let image := o.(imageFlags).(Image) in
  let bundle := o.(bundleFlags).(Bundle) in
  let lock := o.(outputFlags).(LockFilePath) in
  validateFlags o ≠ None ↔
    (image ≠ "" ∧ bundle ≠ "") ∨ (image = "" ∧ bundle = "") ∨
    (image ≠ "" ∧ lock ≠ "").
Proof.
  unfold validateFlags, isImage, isBundle. simpl.
  rewrite !bool_decide_not.
  destruct (bool_decide_reflect (Image (imageFlags o) = "")),
           (bool_decide_reflect (Bundle (bundleFlags o) = "")),
           (bool_decide_reflect (LockFilePath (outputFlags o) = ""));
    simpl; split; try done; tauto.
Qed.

(** ** bundle/contents.go *)

(** C8.  [PresentsAsBundle] answers [(false, nil)] whenever validation of the
    [.imgpkg] directories fails with a [bundleValidationError], which is what
    a wrong count or a wrong placement produce; it answers [(true, nil)]
    whenever that validation passes; and it returns an error only when the
    walk fails or when an input path cannot be made absolute. *)
Theorem PresentsAsBundle_spec (wd : option string) (fs : FS) (b : Contents) :
  match findImgpkgDirs wd fs b with
  | Err e => PresentsAsBundle wd fs b = (false, Some e)
  | Ok dirs =>
      (validateImgpkgDirs wd b dirs = None →
       PresentsAsBundle wd fs b = (true, None)) ∧
      (∀ e, validateImgpkgDirs wd b dirs = Some e →
            isBundleValidationError e = true →
            PresentsAsBundle wd fs b = (false, None)) ∧
      (∀ e, validateImgpkgDirs wd b dirs = Some e →
            isBundleValidationError e = false →
            PresentsAsBundle wd fs b = (false, Some e) ∧
            ∃ flagPath, flagPath ∈ b.(paths) ∧ filepath.Abs wd flagPath = Err e) ∧
      (length dirs ≠ 1 → PresentsAsBundle wd fs b = (false, None)) ∧
      (∀ path, dirs = [path] →
               Forall (λ f, ∃ a, filepath.Abs wd f = Ok a ∧ a ≠ filepath.Dir path)
                 b.(paths) →
               PresentsAsBundle wd fs b = (false, None))
  end.
Proof.
  unfold PresentsAsBundle.
  destruct (findImgpkgDirs wd fs b) as [dirs|e]; [|done].
  split_and!.
  - by intros ->.
  - intros e -> He. by destruct e.
  - intros e Hv He. rewrite Hv. split; [by destruct e|].
    unfold validateImgpkgDirs in Hv. destruct dirs as [|p [|]]; simplify_eq.
    apply ContentsFacts.childOfInput_Some in Hv as [->|Hv]; done.
  - intros Hlen. unfold validateImgpkgDirs. by destruct dirs as [|p [|]].
  - intros p -> Hall. unfold validateImgpkgDirs.
    by rewrite ContentsFacts.childOfInput_notFound.
Qed.


(** ** Run *)

Section RunProperties.

Variable range_map : gmap string (list string) → list (string * list string).
Variable wd : option string.
Variable fs : FS.
Variable NewTag : string → Result Tag.
Variable registryError : Tag → FileImage → option error.
Variable Digest : FileImage → Result string.
Variable yamlMarshal : BundleLock → Result string.
Variable writeFileError : string → option error.
Variable tarball : list string → list string → Result string.
Variable BundleConfigLabel : string.
Variable plainimagePush :
  list string → list string → Tag → gmap string string → Eff string.
Variable readBundleLock : string → Result BundleLock.
Variable readManifest : string → Result Manifest.
Variable extractError : string → string → option error.
Variable existsAt : string → string → bool.
Variable copyError : string → string → option error.
Variable rewriteError : string → string → option error.
Variable tagError : string → string → string → option error.

Abbreviation run :=
  (Run range_map wd fs NewTag registryError Digest yamlMarshal writeFileError
       tarball).
Abbreviation contentsPush := (Push wd fs BundleConfigLabel plainimagePush).
Abbreviation performs :=
  (performs range_map wd fs NewTag registryError Digest yamlMarshal
     writeFileError tarball BundleConfigLabel readBundleLock readManifest
     extractError existsAt copyError rewriteError tagError).

(** C4.  When the validation of the files fails, [Run] returns without
    having called anything outside the process: no [WriteImage], no lock
    file; and what it returns is that validation error (the flags being
    valid, otherwise their error comes first).  [Contents.Push] likewise
    returns the error of [validate] before the plain image push is
    called. *)
Theorem validation_error_before_any_write (o : PushOptions) (b : Contents)
    (uploadRef : Tag) (e : error) :
  (validateFiles range_map o wd fs = Some e →
   (run o).1 = [] ∧ isErr (run o).2 = true ∧
   (validateFlags o = None → (run o).2 = Err e)) ∧
  (validate wd fs b = Some e → contentsPush b uploadRef = ([], Err e)).
Proof.
  split.
  - intros Hv. unfold Run, check, pure, mbind, Eff_bind. rewrite Hv.
    by destruct (validateFlags o).
  - intros Hv. unfold Push. by rewrite Hv.
Qed.

(** C3.  A lock file is written exactly when [Run] succeeds with a lock
    output path given.  [Run] calls [WriteFile] at most once, for a bundle,
    after the image was written; the file is the requested lock path and its
    contents are the YAML document separator followed by the marshalled
    [BundleLock] whose apiVersion is [imgpkg.k14s.io/v1alpha1], whose kind is
    [BundleLock], whose image url is the repository of the pushed tag, [@],
    and the digest of the image that was written, and whose image tag is the
    tag that was pushed.  [Run] is the only operation that writes one:
    [Contents.Push] makes no call of its own, whatever the plain image push
    it calls; and of the operations of the tool, with the plain image push,
    pull and copy as the spec has them, one that writes a file is [Run]. *)
Theorem bundle_lock_written (o : PushOptions) :
  ((∃ name data, WriteFile name data None ∈ (run o).1) ↔
   ((run o).2 = Ok () ∧ o.(outputFlags).(LockFilePath) ≠ "")) ∧
  (∀ name data err, WriteFile name data err ∈ (run o).1 →
     ∃ uploadRef img digest manifestBs,
       isBundle o = true ∧
       NewTag o.(bundleFlags).(Bundle) = Ok uploadRef ∧
       WriteImage uploadRef img None ∈ (run o).1 ∧
       Digest img = Ok digest ∧
       yamlMarshal
         {| ApiVersion := "imgpkg.k14s.io/v1alpha1";
            Kind := "BundleLock";
            Spec := {| Image_ :=
                         {| Url := uploadRef.(Context) +:+ "@" +:+ digest;
                            Tag_ := uploadRef.(TagStr) |} |} |}
       = Ok manifestBs ∧
       name = o.(outputFlags).(LockFilePath) ∧
       data = "---" +:+ String "010" "" +:+ manifestBs) ∧
  length (List.filter isWriteFile (run o).1) ≤ 1 ∧
  (∀ b uploadRef ev,
     ev ∈ (contentsPush b uploadRef).1 →
     ev ∈ (plainimagePush b.(paths) b.(excludedPaths) uploadRef
             {[ BundleConfigLabel := "true" ]}).1) ∧
  (∀ op name data err,
     WriteFile name data err ∈ performs op → ∃ o', op = PushRun o').
Proof.
  match goal with |- ?A ∧ ?B ∧ ?C ∧ _ =>
    assert (A ∧ B ∧ C) as (Hiff & Hdoc & Honce) end.
  { RunFacts.run_cases.
    all: try match goal with
      | Hf : validateFlags ?o = None, Hl : bool_decide (_ ≠ "") = true |- _ =>
          apply bool_decide_eq_true_1 in Hl;
          destruct (RunFacts.validateFlags_lock_bundle o Hf Hl) as [? ?];
          try congruence
      | Hl : bool_decide (_ ≠ "") = false |- _ => apply bool_decide_eq_false_1 in Hl
      end.
    all: split_and!; [split| |simpl; lia].
    all: try (intros (name & data & Hin); RunFacts.elem_inv; done).
    all: try (intros [Hok Hl]; done).
    all: try (intros name data err Hin; RunFacts.elem_inv).
    all: try (intros _; do 2 eexists; RunFacts.elem_find).
    all: do 4 eexists; split_and!; try done; try eassumption; RunFacts.elem_find. }
  split_and!; [exact Hiff|exact Hdoc|exact Honce| |].
  - intros b uploadRef ev. apply OperationFacts.Push_events.
  - intros op name data err Hin.
    assert (∀ t, Forall (λ ev, isWriteFile ev = false) t →
                 WriteFile name data err ∈ t → False) as Hquiet.
    { intros t Hall Ht. rewrite Forall_forall in Hall. by apply Hall in Ht. }
    destruct op as [o'|b uploadRef|source dir kind|depth from to recursive];
      [by exists o'|exfalso..]; simpl in Hin.
    + apply OperationFacts.Push_events in Hin.
      eapply Hquiet; [apply OperationFacts.plainPush_events|done].
    + eapply Hquiet; [apply OperationFacts.Pull_events|done].
    + eapply Hquiet; [apply OperationFacts.Copy_events|done].
Qed.

(** C5.  Every image [Run] hands to [WriteImage] carries the bundle
    annotation, set to ["true"], when the push is a bundle push, and does not
    carry that key when it is a plain image push (it is one or the other, by
    the flags); a successful [Run] has written such an image.  On its side
    [Contents.Push] asks the plain image push for the bundle label set to
    ["true"]. *)
Theorem bundle_annotation (o : PushOptions) (b : Contents) (uploadRef : Tag) :
  (∀ ref img err, WriteImage ref img err ∈ (run o).1 →
     img.(Annotations) !! BundleAnnotation
       = (if isBundle o then Some "true" else None) ∧
     isBundle o = negb (isImage o)) ∧
  ((run o).2 = Ok () → ∃ ref img, WriteImage ref img None ∈ (run o).1) ∧
  (validate wd fs b = None →
   ∃ labels, labels !! BundleConfigLabel = Some "true" ∧
     contentsPush b uploadRef
     = plainimagePush b.(paths) b.(excludedPaths) uploadRef labels).
Proof.
  split_and!.
  - pose proof (RunFacts.validateFlags_one_kind o) as Hkind.
    RunFacts.run_cases.
    all: intros ref img err Hin; RunFacts.elem_inv.
    all: split; [|by apply Hkind].
    all: simpl; by rewrite ?lookup_singleton_eq, ?lookup_empty.
  - RunFacts.run_cases; intros; try done.
    all: do 2 eexists; RunFacts.elem_find.
  - intros Hv. unfold Push. rewrite Hv. eexists. split; [|done].
    apply lookup_singleton_eq.
Qed.

End RunProperties.

(** ** File validation of push *)

Section FileProperties.

Variable range_map : gmap string (list string) → list (string * list string).
Hypothesis range_map_perm : ∀ m, range_map m ≡ₚ map_to_list m.

(** C2, as amended.  When two visited paths are recorded under the same
    bundle-internal path (the path relative to the input path they were
    found under, or the base name of an input file), validation fails; so it
    does when two input paths hold an entry under the same chain of names.
    Once the walks have ended without an error, the duplicate check passes
    exactly when no bundle-internal path has two recorded paths, and
    otherwise returns the duplicate-path error, whose list holds the
    recorded paths of every colliding bundle-internal path and nothing else;
    that is the result of the validation when at most one bundle directory
    was collected. *)
Theorem duplicate_paths_checked (o : PushOptions) (wd : option string) (fs : FS) :
  let recs := recorded fs o.(fileFlags).(Files) in
  ((∃ k, 1 < length (pathsAt k recs)) →
   validateFiles range_map o wd fs ≠ None) ∧
  (∀ bp m, walked o wd fs = ((bp, m), None) →
     ((∀ k, length (pathsAt k recs) ≤ 1) →
      checkRepeatedPaths range_map m = None) ∧
     ((∃ k, 1 < length (pathsAt k recs)) →
      ∃ listed,
        checkRepeatedPaths range_map m = Some (duplicatePaths listed) ∧
        ∀ p, p ∈ listed ↔ ∃ k, 1 < length (pathsAt k recs) ∧ (k, p) ∈ recs) ∧
     (length bp ≤ 1 →
      validateFiles range_map o wd fs = checkRepeatedPaths range_map m)) ∧
  (∀ r1 r2 names n1 n2,
     r1 ∈ o.(fileFlags).(Files) → r2 ∈ o.(fileFlags).(Files) →
     Forall (λ name, filepath.plain name = true) names → names ≠ [] →
     holds (fs r1) names n1 → holds (fs r2) names n2 →
     filepath.joins r1 names ≠ filepath.joins r2 names →
     validateFiles range_map o wd fs ≠ None).
Proof.
  intros recs. split; [|split].
  - intros [k Hk]. by eapply FileFacts.validateFiles_collision.
  - intros bp m Hw. pose proof (FileFacts.walked_map _ _ _ _ _ Hw) as ->.
    fold recs.
    destruct (FileFacts.checkRepeatedPaths_grouped range_map range_map_perm recs)
      as [[Hnone Hall]|(listed & Hsome & [k Hk] & Hlisted)]; split_and!.
    + done.
    + intros [k Hk]. specialize (Hall k). lia.
    + intros Hbp. by eapply FileFacts.validateFiles_reaches_check.
    + intros Hall. specialize (Hall k). lia.
    + intros _. by exists listed.
    + intros Hbp. by eapply FileFacts.validateFiles_reaches_check.
  - intros r1 r2 names n1 n2 Hr1 Hr2 Hplain Hne Hh1 Hh2 Hdiff.
    pose proof (FileFacts.elem_of_rootVisits fs _ r1 names n1 Hr1 Hh1) as Hv1.
    pose proof (FileFacts.elem_of_rootVisits fs _ r2 names n2 Hr2 Hh2) as Hv2.
    pose proof (FileFacts.recordOf_entry r1 names n1 Hplain Hne) as Hrec1.
    pose proof (FileFacts.recordOf_entry r2 names n2 Hplain Hne) as Hrec2.
    assert (∀ r n i e, n = Broken i e →
              (r, visitOf (filepath.joins r names) n)
                ∈ rootVisits fs (Files (fileFlags o)) →
              validateFiles range_map o wd fs ≠ None) as Hbroken.
    { intros r n i e -> Hv.
      by eapply FileFacts.validateFiles_visit_fails. }
    destruct n1 as [|es1|i1 e1]; [| |by eapply Hbroken];
      (destruct n2 as [|es2|i2 e2]; [| |by eapply Hbroken]).
    all: apply (FileFacts.validateFiles_collision range_map range_map_perm
                  o wd fs (strings.Join names "/")).
    all: apply (FileFacts.length_gt_1_two _ (filepath.joins r1 names)
                  (filepath.joins r2 names)); [| |done].
    all: apply FileFacts.elem_of_pathsAt, list_elem_of_omap; eauto.
Qed.

(** C10, as amended.  An input path that is a file is recorded under its
    base name.  So two different input files with the same base name make
    validation fail; and when the walks end without an error and with at
    most one bundle directory collected, the failure is the duplicate-path
    error, which lists both files. *)
Theorem file_inputs_by_base_name (o : PushOptions) (wd : option string) (fs : FS) :
  let inputs := o.(fileFlags).(Files) in
  (∀ r, r ∈ inputs → fs r = File →
        (filepath.Base r, r) ∈ recorded fs inputs) ∧
  (∀ r1 r2, r1 ∈ inputs → r2 ∈ inputs → r1 ≠ r2 →
     fs r1 = File → fs r2 = File → filepath.Base r1 = filepath.Base r2 →
     validateFiles range_map o wd fs ≠ None ∧
     ∀ bp m, walked o wd fs = ((bp, m), None) → length bp ≤ 1 →
       ∃ listed,
         validateFiles range_map o wd fs = Some (duplicatePaths listed) ∧
         r1 ∈ listed ∧ r2 ∈ listed).
Proof.
  intros inputs.
  assert (∀ r, r ∈ inputs → fs r = File →
               (filepath.Base r, r) ∈ recorded fs inputs) as Hrec.
  { intros r Hr Hf. unfold recorded. apply list_elem_of_omap.
    exists (r, visitOf r File). split.
    - pose proof (FileFacts.elem_of_rootVisits fs inputs r [] (fs r) Hr
                    (holds_here _)) as Hin.
      by rewrite Hf in Hin.
    - simpl. by rewrite PathFacts.Rel_self. }
  split; [done|].
  intros r1 r2 H1 H2 Hne Hf1 Hf2 Hbase.
  assert (1 < length (pathsAt (filepath.Base r1) (recorded fs inputs))) as Hlen.
  { apply (FileFacts.length_gt_1_two _ r1 r2); [| |done].
    - by apply FileFacts.elem_of_pathsAt, Hrec.
    - rewrite Hbase. by apply FileFacts.elem_of_pathsAt, Hrec. }
  split; [by eapply FileFacts.validateFiles_collision|].
  intros bp m Hw Hbp.
  destruct (FileFacts.validateFiles_reaches_check range_map o wd fs bp m Hw Hbp)
    as [-> ->].
  destruct (FileFacts.checkRepeatedPaths_grouped range_map range_map_perm
              (recorded fs inputs))
    as [[_ Hall]|(listed & Hsome & _ & Hlisted)].
  - specialize (Hall (filepath.Base r1)). lia.
  - exists listed. split; [done|]. split; apply Hlisted.
    + exists (filepath.Base r1). split; [done|]. by apply Hrec.
    + exists (filepath.Base r1). split; [done|]. rewrite Hbase. by apply Hrec.
Qed.

(** C6.  A [.imgpkg] entry found below the first level of an input path
    makes the validation of push fail.  In bundle/contents.go, when exactly
    one [.imgpkg] path was found, validation fails unless the parent of that
    path is the absolute form of one of the input paths; with a known
    working directory the failure is the [bundleValidationError] that names
    the input paths and the misplaced directory. *)
Theorem misplaced_imgpkg_fails (o : PushOptions) (wd : option string) (fs : FS)
    (b : Contents) :
  (∀ r names n',
     r ∈ o.(fileFlags).(Files) →
     Forall (λ name, filepath.plain name = true) names → names ≠ [] →
     holds (fs r) (names ++ [BundleDir]) n' →
     validateFiles range_map o wd fs ≠ None) ∧
  (∀ path,
     findImgpkgDirs wd fs b = Ok [path] →
     (∀ flagPath, flagPath ∈ b.(paths) →
                  filepath.Abs wd flagPath ≠ Ok (filepath.Dir path)) →
     validate wd fs b ≠ None ∧
     (wd ≠ None →
      validate wd fs b
      = Some (bundleValidationError
                ("Expected '.imgpkg' directory, to be a direct child of one of: "
                 +:+ strings.Join b.(paths) ", " +:+ "; was " +:+ path)))).
Proof.
  split.
  - intros r names n' Hr Hplain Hne Hh.
    eapply FileFacts.validateFiles_visit_fails.
    + by apply FileFacts.elem_of_rootVisits.
    + apply FileFacts.imgpkg_visit_fails; [done|by right].
  - intros path Hfind Hnot. unfold validate. rewrite Hfind. split.
    + intros (f & Hin & Hf)%ContentsFacts.childOfInput_None. by apply (Hnot f).
    + intros Hwd. unfold validateImgpkgDirs.
      apply ContentsFacts.childOfInput_notFound, Forall_forall.
      intros f Hin. destruct wd as [d|]; [|done].
      specialize (Hnot f Hin). unfold filepath.Abs in *.
      destruct (filepath.rooted f); eexists; (split; [done|congruence]).
Qed.

End FileProperties.

(** ** The prefixed log writer *)

Module SliceFacts.
Import slices LoggerSpec.

Lemma bytes_length h s : inHeap h s → length (bytes h s) = s.(len).
Proof.
  intros [_ Hlen]. unfold bytes. rewrite length_take, length_drop. lia.
Qed.

Lemma bytes_prefix h h' s :
  s.(arr) < length h → h `prefix_of` h' → bytes h' s = bytes h s.
Proof.
  intros Harr [k ->]. unfold bytes.
  by rewrite !list_lookup_total_alt, lookup_app_l.
Qed.

Lemma inHeap_prefix h h' s : inHeap h s → h `prefix_of` h' → inHeap h' s.
Proof.
  intros [Harr Hlen] [k ->]. split.
  - rewrite length_app. lia.
  - by rewrite list_lookup_total_alt, lookup_app_l, <-list_lookup_total_alt.
Qed.

(** A fresh array leaves the old ones alone and shows the given bytes. *)
Lemma alloc_spec data c h :
  let '(h', s) := alloc data c h in
  h `prefix_of` h' ∧ inHeap h' s ∧ length h ≤ s.(arr) ∧ bytes h' s = data.
Proof.
  unfold alloc, inHeap, bytes. simpl.
  rewrite list_lookup_total_alt, lookup_app_r, Nat.sub_diag by done. simpl.
  split_and!.
  - by eexists.
  - rewrite length_app. simpl. lia.
  - rewrite length_app. lia.
  - done.
  - by rewrite drop_0, take_app_length.
Qed.

(** [append] shows the old bytes followed by the new ones, and touches no
    array below the one of the slice it appends to. *)
Lemma append_spec roundupsize s data h h0 :
  inHeap h s → length h0 ≤ s.(arr) → h0 `prefix_of` h →
  let '(h', s') := append roundupsize s data h in
  h0 `prefix_of` h' ∧ inHeap h' s' ∧ length h0 ≤ s'.(arr) ∧
  bytes h' s' = bytes h s ++ data.
Proof.
  intros [Harr Hlen] H0 [k ->]. unfold append.
  case_bool_decide as Hcap.
  - unfold store, inHeap, bytes. simpl.
    rewrite length_insert, !list_lookup_total_alt, list_lookup_insert_eq by done.
    destruct ((h0 ++ k) !! arr s) as [a|] eqn:Ha; simpl.
    2: { apply lookup_ge_None in Ha. lia. }
    rewrite list_lookup_total_alt, Ha in Hlen. simpl in Hlen.
    split_and!.
    + rewrite insert_app_r_alt by done. by eexists.
    + done.
    + rewrite !length_app, length_take, length_drop. lia.
    + done.
    + rewrite drop_app_le by (rewrite length_take; lia).
      rewrite <-take_drop_commute, app_assoc.
      apply take_app_length'. rewrite length_app, length_take, length_drop. lia.
  - pose proof (alloc_spec (bytes (h0 ++ k) s ++ data)
                  (roundupsize (len s + length data)) (h0 ++ k)) as Ha.
    destruct (alloc _ _ _) as [h' s']. destruct Ha as (Hp & Hin & Harr' & Hb).
    split_and!; [|done| |done].
    + etrans; [|done]. by eexists.
    + rewrite length_app in Harr'. lia.
Qed.

Lemma replaceAll_newline p s :
  replaceAll [nl] (nl :: p) 0 s = afterNewlines p s.
Proof.
  induction s as [|c s IH]; [done|]. cbn [replaceAll afterNewlines].
  change (length [nl] - 1) with 0.
  destruct (decide (c = nl)) as [->|Hc].
  - rewrite bool_decide_eq_true_2; [by rewrite IH|].
    by exists s.
  - rewrite bool_decide_eq_false_2; [by rewrite IH|].
    intros [k Hk]. simpl in Hk. by simplify_eq.
Qed.

Lemma lines_nonempty s : lines s ≠ [].
Proof.
  destruct s as [|c s]; simpl; [done|].
  destruct (decide (c = nl)); [done|]. by destruct (lines s).
Qed.

(** Inserting [p] after every newline, line by line. *)
Lemma prefixed_lines p s :
  p ++ afterNewlines p s ++ [nl]
  = concat (List.map (λ l, p ++ l ++ [nl]) (lines s)).
Proof.
  induction s as [|c s IH]; simpl; [by rewrite app_nil_r|].
  destruct (decide (c = nl)) as [->|Hc]; simpl.
  - rewrite <-IH, <-!app_assoc. done.
  - pose proof (lines_nonempty s). destruct (lines s) as [|l ls]; [done|].
    simpl in *. rewrite <-!app_assoc in IH. apply app_inv_head in IH.
    rewrite <-!app_assoc. simpl. by rewrite IH, <-!app_assoc.
Qed.

(** Overwriting all the bytes a slice shows. *)
Lemma store_spec s data h h0 :
  inHeap h s → length data = s.(len) → length h0 ≤ s.(arr) → h0 `prefix_of` h →
  h0 `prefix_of` store s 0 data h ∧ inHeap (store s 0 data h) s ∧
  bytes (store s 0 data h) s = data.
Proof.
  intros [Hd1 Hd2] Hlen H0 [k ->]. unfold store, inHeap, bytes.
  rewrite length_insert, !list_lookup_total_alt.
  rewrite list_lookup_insert_eq by done.
  destruct ((h0 ++ k) !! arr s) as [a|] eqn:Ha; simpl.
  2: { apply lookup_ge_None in Ha. lia. }
  rewrite list_lookup_total_alt, Ha in Hd2. simpl in Hd2.
  rewrite Nat.add_0_r. split_and!.
  - rewrite insert_app_r_alt by done. by eexists.
  - done.
  - rewrite !length_app, length_take, length_drop. lia.
  - rewrite drop_app_length' by (rewrite length_take; lia).
    by apply take_app_length'.
Qed.

(** [copy] between slices of equal length in different arrays. *)
Lemma copy_spec dst src h h0 :
  inHeap h dst → inHeap h src → dst.(len) = src.(len) →
  length h0 ≤ dst.(arr) → h0 `prefix_of` h →
  h0 `prefix_of` (copy dst src h).1 ∧ inHeap (copy dst src h).1 dst ∧
  bytes (copy dst src h).1 dst = bytes h src.
Proof.
  intros Hdst Hsrc Hlen H0 Hp. unfold copy. simpl.
  pose proof (bytes_length _ _ Hsrc) as Hb.
  rewrite Hlen, Nat.min_id, take_ge by lia.
  apply store_spec; [done|lia|done..].
Qed.

Lemma upto_spec h s j :
  inHeap h s → j ≤ s.(len) →
  inHeap h (upto s j) ∧ bytes h (upto s j) = take j (bytes h s).
Proof.
  intros [H1 H2] Hj. unfold inHeap, bytes, upto. simpl. split_and!; [done|lia|].
  by rewrite take_take, Nat.min_l.
Qed.

End SliceFacts.

(** C9.  [Write] hands the underlying writer, in one call, the caller's
    bytes with the prefix in front of the first line and after every
    interior newline, ended by a single newline: every line of the input
    with the prefix before it and a newline after it.  The arrays that
    existed before the call, the caller's among them, are unchanged.  When
    the underlying writer reports no error, [Write] returns the length of
    the caller's slice, whatever count the underlying writer returned. *)
Theorem Write_prefixes_every_line (roundupsize : nat → nat) {sink : Type}
    (writerWrite : list Byte.byte → sink → sink * (nat * option error))
    (w : logger.LoggerPrefixWriter) (data : slices.slice)
    (h : list (list Byte.byte)) (k : sink) :
  LoggerSpec.inHeap h data →
  let p := String.list_byte_of_string w.(logger.prefix) in
  let d := slices.bytes h data in
  let out := LoggerSpec.prefixed p d in
  ∃ h',
    logger.Write roundupsize writerWrite w data h k
    = (h', (writerWrite out k).1,
       match (writerWrite out k).2.2 with
       | None => (data.(slices.len), None)
       | Some e => (0, Some (errorString ("write err: " +:+ Error e)))
       end) ∧
    h `prefix_of` h' ∧
    slices.bytes h' data = d ∧
    out = concat (List.map (λ l, p ++ l ++ [LoggerSpec.nl])
                    (LoggerSpec.lines (LoggerSpec.interior d))).
Proof.
  intros Hdata p d out. unfold logger.Write.
  (* make *)
  pose proof (SliceFacts.alloc_spec (replicate data.(slices.len) Byte.x00)
                data.(slices.len) h) as H1.
  unfold slices.make. destruct (slices.alloc _ _ h) as [h1 s1] eqn:Hmk.
  destruct H1 as (Hp1 & Hin1 & Harr1 & Hb1).
  assert (s1.(slices.len) = data.(slices.len)) as Hlen1.
  { unfold slices.alloc in Hmk. simplify_eq. simpl. by rewrite length_replicate. }
  (* copy *)
  pose proof (SliceFacts.copy_spec s1 data h1 h Hin1
                (SliceFacts.inHeap_prefix _ _ _ Hdata Hp1) Hlen1 Harr1 Hp1)
    as (Hp2 & Hin2 & Hb2).
  destruct (slices.copy s1 data h1) as [h2 n2]. simpl in Hp2, Hin2, Hb2.
  rewrite (SliceFacts.bytes_prefix h h1) in Hb2 by (done || apply Hdata).
  fold d in Hb2.
  (* the final newline *)
  set (s3 := if slices.HasSuffix (slices.bytes h2 s1) [logger.nl]
             then slices.upto s1 (slices.len s1 - 1) else s1).
  assert (LoggerSpec.inHeap h2 s3 ∧ slices.bytes h2 s3 = LoggerSpec.interior d
          ∧ length h ≤ s3.(slices.arr)) as (Hin3 & Hb3 & Harr3).
  { unfold s3, LoggerSpec.interior. rewrite Hb2.
    change LoggerSpec.nl with logger.nl.
    destruct (slices.HasSuffix d [logger.nl]); [|done].
    destruct (SliceFacts.upto_spec h2 s1 (slices.len s1 - 1) Hin2) as [? Hu];
      [lia|].
    split_and!; [done| |done]. rewrite Hu, Hb2. f_equal.
    rewrite Hlen1. unfold d. by rewrite SliceFacts.bytes_length. }
  clearbody s3.
  (* Replace *)
  unfold slices.Replace. rewrite Hb3, SliceFacts.replaceAll_newline.
  fold p.
  match goal with |- context [slices.alloc ?x ?c h2] =>
    pose proof (SliceFacts.alloc_spec x c h2) as H4;
    destruct (slices.alloc x c h2) as [h4 s4] end.
  destruct H4 as (Hp4 & Hin4 & Harr4 & Hb4).
  assert (h `prefix_of` h4) as Hp4' by (by etrans).
  assert (length h ≤ s4.(slices.arr)) as Harr4'.
  { destruct Hp2 as [k2 ->]. rewrite length_app in Harr4. lia. }
  (* append of the newline *)
  pose proof (SliceFacts.append_spec roundupsize s4 [logger.nl] h4 h
                Hin4 Harr4' Hp4') as H5.
  destruct (slices.append roundupsize s4 [logger.nl] h4) as [h5 s5].
  destruct H5 as (Hp5 & Hin5 & Harr5 & Hb5). rewrite Hb4 in Hb5.
  (* the prefix *)
  unfold slices.ofString. fold p.
  pose proof (SliceFacts.alloc_spec p (roundupsize (length p)) h5) as H6.
  destruct (slices.alloc p _ h5) as [h6 s6].
  destruct H6 as (Hp6 & Hin6 & Harr6 & Hb6).
  assert (h `prefix_of` h6) as Hp6' by (by etrans).
  assert (length h ≤ s6.(slices.arr)) as Harr6'.
  { destruct Hp5 as [k5 ->]. rewrite length_app in Harr6. lia. }
  rewrite (SliceFacts.bytes_prefix h5 h6) by (done || apply Hin5).
  rewrite Hb5.
  pose proof (SliceFacts.append_spec roundupsize s6
                (LoggerSpec.afterNewlines p (LoggerSpec.interior d) ++ [logger.nl])
                h6 h Hin6 Harr6' Hp6') as H7.
  destruct (slices.append roundupsize s6 _ h6) as [h7 s7].
  destruct H7 as (Hp7 & Hin7 & Harr7 & Hb7). rewrite Hb6 in Hb7.
  rewrite Hb7.
  change (p ++ LoggerSpec.afterNewlines p (LoggerSpec.interior d) ++ [logger.nl])
    with out.
  exists h7. split_and!.
  - destruct (writerWrite out k) as [k' [n [e|]]]; done.
  - done.
  - apply SliceFacts.bytes_prefix; [apply Hdata|done].
  - apply SliceFacts.prefixed_lines.
Qed.

(** ** The count of [.imgpkg] directories *)

(** Pushing as an image fails as soon as an entry named [.imgpkg] lies under
    an input path, at any depth. *)
Lemma image_with_imgpkg_fails range_map (o : PushOptions) (wd : option string)
    (fs : FS) r names n' :
  isImage o = true → r ∈ o.(fileFlags).(Files) →
  Forall (λ name, filepath.plain name = true) names →
  holds (fs r) (names ++ [BundleDir]) n' →
  validateFiles range_map o wd fs ≠ None.
Proof.
  intros Himg Hr Hplain Hh. eapply FileFacts.validateFiles_visit_fails.
  - by apply FileFacts.elem_of_rootVisits.
  - apply FileFacts.imgpkg_visit_fails; [done|by left].
Qed.

(** C1, as amended.  The [.imgpkg] entries found under the input paths are
    counted against the declared kind.  Pushing as a plain image fails
    whenever one is found.  Pushing as a bundle fails in [validateFiles]
    whenever two or more are found, and with the count error once the walks
    have ended without an error, each found entry having then been collected;
    and it fails in [Contents.validate] with the count error whenever the
    walks find none, or two or more. *)
Theorem imgpkg_count_validated
    (range_map : gmap string (list string) → list (string * list string))
    (o : PushOptions) (wd : option string) (fs : FS) (b : Contents) :
  let found := imgpkgRecords fs o.(fileFlags).(Files) in
  (isImage o = true → found ≠ [] → validateFiles range_map o wd fs ≠ None) ∧
  (2 ≤ length found → validateFiles range_map o wd fs ≠ None) ∧
  (∀ bp m, walked o wd fs = ((bp, m), None) →
     length bp = length found ∧
     (2 ≤ length found →
      validateFiles range_map o wd fs
      = Some (errorString
                ("Expected one '.imgpkg' dir, got " +:+
                 fmtInt (length found) +:+ ": " +:+
                 strings.Join bp ", ")))) ∧
  (∀ dirs, findImgpkgDirs wd fs b = Ok dirs →
     length dirs = length (imgpkgVisits fs b.(paths)) ∧
     (length dirs ≠ 1 →
      validate wd fs b
      = Some (bundleValidationError
                ("Expected one '.imgpkg' dir, got " +:+
                 fmtInt (length dirs) +:+ ": " +:+
                 strings.Join dirs ", ")))).
Proof.
  intros found.
  assert (∀ bp m, walked o wd fs = ((bp, m), None) → length bp = length found)
    as Hcount.
  { intros bp m Hw. unfold walked in Hw.
    rewrite FileFacts.validateFiles_loop_run in Hw.
    by apply FileFacts.runVisits_bundlePaths in Hw. }
  assert (∀ bp m, walked o wd fs = ((bp, m), None) → 2 ≤ length found →
            validateFiles range_map o wd fs
            = Some (errorString
                      ("Expected one '.imgpkg' dir, got " +:+
                       fmtInt (length found) +:+ ": " +:+
                       strings.Join bp ", "))) as Herr.
  { intros bp m Hw Hfound. unfold validateFiles. fold (walked o wd fs).
    rewrite Hw, <-(Hcount bp m Hw), bool_decide_eq_true_2; [done|].
    rewrite (Hcount bp m Hw). lia. }
  split_and!.
  - intros Himg Hfound. destruct found as [|kp found'] eqn:Hf; [done|].
    assert (kp ∈ imgpkgRecords fs (Files (fileFlags o))) as Hkp.
    { fold found. rewrite Hf. by left. }
    apply list_elem_of_filter in Hkp as [Hbase Hkp].
    apply list_elem_of_omap in Hkp as (tv & Htv & Hrec).
    eapply FileFacts.validateFiles_visit_fails; [done|].
    by eapply FileFacts.image_record_fails.
  - intros Hfound.
    destruct (walked o wd fs) as [[bp m] [e|]] eqn:Hw.
    + unfold validateFiles. fold (walked o wd fs). by rewrite Hw.
    + by rewrite (Herr bp m).
  - intros bp m Hw. split; [by eapply Hcount|by apply (Herr bp m)].
  - intros dirs Hfind.
    split; [by apply (ContentsFacts.findImgpkgDirs_length wd)|].
    intros Hlen. unfold validate. rewrite Hfind. unfold validateImgpkgDirs.
    by destruct dirs as [|p [|]].
Qed.

(** ** The properties at concrete inputs *)

(** C1 as first stated fails here.  A bundle push of a directory without any
    [.imgpkg] entry passes [validateFiles]; and a bundle push with two
    [.imgpkg] entries, one of them below the first level, fails with the
    placement error, not with the count error. *)
Lemma imgpkg_count_not_enforced :
  let none := Examples.push "" "repo/app" "" ["plain"] in
  let two := Examples.push "" "repo/app" "" ["twice"] in
  (isBundle none = true ∧
   imgpkgRecords Examples.disk none.(fileFlags).(Files) = [] ∧
   validateFiles map_to_list none Examples.wd Examples.disk = None) ∧
  (isBundle two = true ∧
   length (imgpkgRecords Examples.disk two.(fileFlags).(Files)) = 2 ∧
   validateFiles map_to_list two Examples.wd Examples.disk
   = Some (errorString
             "Expected '.imgpkg' dir to be a direct child of 'twice', but was: 'twice/sub/.imgpkg'")).
Proof. vm_compute. by split_and!. Qed.

(** An image push of a bundle directory, a bundle push of two bundle
    directories, and [Contents.validate] on a directory without [.imgpkg]. *)
Lemma imgpkg_count_validated_witness :
  let image := Examples.push "repo/img" "" "" ["app"] in
  let bundle := Examples.push "" "repo/app" "" ["app"; "app2"] in
  validateFiles map_to_list image Examples.wd Examples.disk ≠ None ∧
  validateFiles map_to_list bundle Examples.wd Examples.disk
  = Some (errorString
            ("Expected one '.imgpkg' dir, got " +:+
             fmtInt
               (length (imgpkgRecords Examples.disk bundle.(fileFlags).(Files))) +:+
             ": " +:+
             strings.Join (walked bundle Examples.wd Examples.disk).1.1 ", ")) ∧
  validate Examples.wd Examples.disk (NewContents ["plain"] [])
  = Some (bundleValidationError "Expected one '.imgpkg' dir, got 0: ").
Proof.
  intros image bundle. split_and!.
  - destruct (imgpkg_count_validated map_to_list image Examples.wd
                Examples.disk (NewContents [] [])) as (Himage & _).
    apply Himage; [done|]. vm_compute. congruence.
  - destruct (imgpkg_count_validated map_to_list bundle Examples.wd
                Examples.disk (NewContents [] [])) as (_ & _ & Hbundle & _).
    assert ((walked bundle Examples.wd Examples.disk).2 = None) as Hw
      by (vm_compute; reflexivity).
    apply FileFacts.walked_ok in Hw.
    apply (Hbundle _ _ Hw). vm_compute. lia.
  - destruct (imgpkg_count_validated map_to_list image Examples.wd
                Examples.disk (NewContents ["plain"] [])) as (_ & _ & _ & Hc).
    destruct (Hc []) as [_ Hmsg]; [by vm_compute|]. by apply Hmsg.
Defined.

(** C2 as first stated fails here.  Two bundle directories, each with its
    own [.imgpkg], record two different paths under the bundle-internal path
    [.imgpkg], and validation fails with the count error, not with the
    duplicate-path error.  And an input directory given twice records no two
    different paths under one bundle-internal path, yet the duplicate check
    fails, on the path it visited twice. *)
Lemma duplicate_paths_not_reported :
  let two := Examples.push "" "repo/app" "" ["app"; "app2"] in
  let twice := Examples.push "repo/img" "" "" ["plain"; "plain"] in
  ("app/.imgpkg" ≠ "app2/.imgpkg" ∧
   (".imgpkg", "app/.imgpkg") ∈ recorded Examples.disk two.(fileFlags).(Files) ∧
   (".imgpkg", "app2/.imgpkg") ∈ recorded Examples.disk two.(fileFlags).(Files) ∧
   validateFiles map_to_list two Examples.wd Examples.disk
   = Some (errorString
             "Expected one '.imgpkg' dir, got 2: /work/app/.imgpkg, /work/app2/.imgpkg") ∧
   ∀ listed,
     validateFiles map_to_list two Examples.wd Examples.disk
     ≠ Some (duplicatePaths listed)) ∧
  ((∀ k p1 p2,
      (k, p1) ∈ recorded Examples.disk twice.(fileFlags).(Files) →
      (k, p2) ∈ recorded Examples.disk twice.(fileFlags).(Files) → p1 = p2) ∧
   validateFiles map_to_list twice Examples.wd Examples.disk
   = Some (duplicatePaths ["plain/README.md"; "plain/README.md"])).
Proof.
  assert (validateFiles map_to_list
            (Examples.push "" "repo/app" "" ["app"; "app2"])
            Examples.wd Examples.disk
          = Some (errorString
                    "Expected one '.imgpkg' dir, got 2: /work/app/.imgpkg, /work/app2/.imgpkg"))
    as Hv by by vm_compute.
  simpl. split; [split_and!|split].
  - done.
  - vm_compute. RunFacts.elem_find.
  - vm_compute. RunFacts.elem_find.
  - done.
  - intros listed. rewrite Hv. unfold duplicatePaths.
    intros [= Heq].
  - clear Hv. intros k p1 p2 H1 H2. vm_compute in H1, H2.
    RunFacts.elem_inv; reflexivity.
  - vm_compute. reflexivity.
Qed.

(** Two input directories that both hold [README.md]. *)
Lemma duplicate_paths_checked_witness :
  let o := Examples.push "" "repo/app" "" ["app"; "plain"] in
  (∀ m : gmap string (list string), map_to_list m ≡ₚ map_to_list m) ∧
  ∃ listed,
    validateFiles map_to_list o Examples.wd Examples.disk
    = Some (duplicatePaths listed) ∧
    ∀ p, p ∈ listed ↔ p = "app/README.md" ∨ p = "plain/README.md".
Proof.
  intros o. split; [done|].
  destruct (duplicate_paths_checked map_to_list (λ m, reflexivity _) o
              Examples.wd Examples.disk) as (_ & Hcheck & _).
  assert ((walked o Examples.wd Examples.disk).2 = None) as Hw
    by (vm_compute; reflexivity).
  apply FileFacts.walked_ok in Hw.
  destruct (Hcheck _ _ Hw) as (_ & Hdup & Hval). clear Hw Hcheck.
  destruct Hdup as (listed & Hc & Hl).
  { exists "README.md". vm_compute. lia. }
  exists listed. split; [rewrite Hval, Hc; [done|vm_compute; lia]|].
  clear Hval Hc. intros p. split.
  - intros (k & Hlen & Hin)%Hl. clear Hl. vm_compute in Hin.
    RunFacts.elem_inv.
    all: first [ by left | by right | vm_compute in Hlen; lia ].
  - intros [->| ->]; apply Hl; exists "README.md"; (split; [vm_compute; lia|]);
      vm_compute; RunFacts.elem_find.
Defined.

(** C10 as first stated fails here: two different input files with the
    same base name, and validation fails with the placement error of the
    first one, not with the duplicate-path error. *)
Lemma same_base_name_not_reported :
  let o := Examples.push "" "repo/app" "" ["a/.imgpkg"; "b/.imgpkg"] in
  "a/.imgpkg" ≠ "b/.imgpkg" ∧
  Examples.disk "a/.imgpkg" = File ∧ Examples.disk "b/.imgpkg" = File ∧
  filepath.Base "a/.imgpkg" = filepath.Base "b/.imgpkg" ∧
  validateFiles map_to_list o Examples.wd Examples.disk
  = Some (errorString
            "Expected '.imgpkg' dir to be a direct child of 'a/.imgpkg', but was: 'a/.imgpkg'") ∧
  ∀ listed,
    validateFiles map_to_list o Examples.wd Examples.disk
    ≠ Some (duplicatePaths listed).
Proof.
  assert (validateFiles map_to_list
            (Examples.push "" "repo/app" "" ["a/.imgpkg"; "b/.imgpkg"])
            Examples.wd Examples.disk
          = Some (errorString
                    "Expected '.imgpkg' dir to be a direct child of 'a/.imgpkg', but was: 'a/.imgpkg'"))
    as Hv by by vm_compute.
  simpl. split_and!; [done..|].
  intros listed. rewrite Hv. unfold duplicatePaths.
  intros [= Heq].
Qed.

(** Two input files named [x.yml]. *)
Lemma file_inputs_by_base_name_witness :
  let o := Examples.push "repo/img" "" "" ["a/x.yml"; "b/x.yml"] in
  (∀ m : gmap string (list string), map_to_list m ≡ₚ map_to_list m) ∧
  (filepath.Base "a/x.yml", "a/x.yml")
    ∈ recorded Examples.disk o.(fileFlags).(Files) ∧
  ∃ listed,
    validateFiles map_to_list o Examples.wd Examples.disk
    = Some (duplicatePaths listed) ∧
    "a/x.yml" ∈ listed ∧ "b/x.yml" ∈ listed.
Proof.
  intros o. split; [done|].
  destruct (file_inputs_by_base_name map_to_list (λ m, reflexivity _) o
              Examples.wd Examples.disk) as [Hrec Hdup].
  split.
  - apply Hrec; [|done]. vm_compute. RunFacts.elem_find.
  - destruct (Hdup "a/x.yml" "b/x.yml") as [_ Hlisted]; try done.
    + vm_compute. RunFacts.elem_find.
    + vm_compute. RunFacts.elem_find.
    + assert ((walked o Examples.wd Examples.disk).2 = None) as Hw
        by (vm_compute; reflexivity).
      apply FileFacts.walked_ok in Hw.
      apply (Hlisted _ _ Hw). vm_compute. lia.
Defined.

(** A bundle directory whose [.imgpkg] lies in a subdirectory. *)
Lemma misplaced_imgpkg_fails_witness :
  let o := Examples.push "" "repo/app" "" ["nested"] in
  let b := NewContents ["nested"] [] in
  validateFiles map_to_list o Examples.wd Examples.disk ≠ None ∧
  validate Examples.wd Examples.disk b
  = Some (bundleValidationError
            "Expected '.imgpkg' directory, to be a direct child of one of: nested; was /work/nested/sub/.imgpkg").
Proof.
  intros o b.
  destruct (misplaced_imgpkg_fails map_to_list o Examples.wd Examples.disk b)
    as [Hpush Hcontents].
  split.
  - apply (Hpush "nested" ["sub"] Examples.bundleDir).
    + vm_compute. RunFacts.elem_find.
    + by repeat constructor.
    + done.
    + change (Examples.disk "nested")
        with (Directory [("LICENSE", File);
                         ("sub", Directory [(".imgpkg", Examples.bundleDir)])]).
      simpl. repeat (eapply holds_entry; [RunFacts.elem_find|]). apply holds_here.
  - destruct (Hcontents "/work/nested/sub/.imgpkg") as [_ Hmsg].
    + by vm_compute.
    + intros f Hf. unfold b in Hf. simpl in Hf. RunFacts.elem_inv.
      vm_compute. congruence.
    + by apply Hmsg.
Defined.

(** A push with a lock output whose file validation fails, and
    [Contents.Push] on a directory without [.imgpkg]. *)
Lemma validation_error_before_any_write_witness :
  let o := Examples.push "" "repo/app" "/tmp/lock.yml" ["nested"] in
  let b := NewContents ["plain"] [] in
  let ref := {| Context := "index.docker.io/repo/app"; TagStr := "latest";
                Name := "index.docker.io/repo/app:latest" |} in
  validateFiles map_to_list o Examples.wd Examples.disk
  = Some (errorString
            "Expected '.imgpkg' dir to be a direct child of 'nested', but was: 'nested/sub/.imgpkg'") ∧
  Examples.run o
  = ([], Err (errorString
                "Expected '.imgpkg' dir to be a direct child of 'nested', but was: 'nested/sub/.imgpkg'")) ∧
  Push Examples.wd Examples.disk "dev.carvel.imgpkg.bundle" Examples.plainPush b ref
  = ([], Err (bundleValidationError "Expected one '.imgpkg' dir, got 0: ")).
Proof.
  intros o b ref.
  assert (validateFiles map_to_list o Examples.wd Examples.disk
          = Some (errorString
                    "Expected '.imgpkg' dir to be a direct child of 'nested', but was: 'nested/sub/.imgpkg'"))
    as Hv by by vm_compute.
  split; [done|]. split.
  - destruct (validation_error_before_any_write map_to_list Examples.wd
                Examples.disk Examples.newTag Examples.registryOk
                Examples.digest Examples.marshal Examples.writeOk Examples.tar
                "dev.carvel.imgpkg.bundle" Examples.plainPush o b ref
                (errorString
                   "Expected '.imgpkg' dir to be a direct child of 'nested', but was: 'nested/sub/.imgpkg'"))
      as [Hrun _].
    destruct (Hrun Hv) as (Ht & _ & He). unfold Examples.run.
    specialize (He eq_refl).
    destruct (Run _ _ _ _ _ _ _ _ _ o) as [t r]. simpl in Ht, He. by subst.
  - destruct (validation_error_before_any_write map_to_list Examples.wd
                Examples.disk Examples.newTag Examples.registryOk
                Examples.digest Examples.marshal Examples.writeOk Examples.tar
                "dev.carvel.imgpkg.bundle" Examples.plainPush o b ref
                (bundleValidationError "Expected one '.imgpkg' dir, got 0: "))
      as [_ Hpush].
    apply Hpush. vm_compute. reflexivity.
Defined.

(** Two lines written through a slice in the middle of a larger array. *)
Lemma Write_prefixes_every_line_witness :
  let h := [String.list_byte_of_string
              ("xxone" +:+ String "010" "two" +:+ String "010" "zz")] in
  let data := {| slices.arr := 0; slices.off := 2; slices.len := 8;
                 slices.cap := 10 |} in
  LoggerSpec.inHeap h data ∧
  ∃ h',
    logger.Write (λ n, n + 8) Examples.logged {| logger.prefix := "p| " |} data h []
    = (h',
       String.list_byte_of_string
         ("p| one" +:+ String "010" "p| two" +:+ String "010" ""),
       (8, None)) ∧
    h `prefix_of` h'.
Proof.
  intros h data.
  assert (LoggerSpec.inHeap h data) as Hin by (vm_compute; lia).
  split; [done|].
  destruct (Write_prefixes_every_line (λ n, n + 8) Examples.logged
              {| logger.prefix := "p| " |} data h [] Hin)
    as (h' & Hw & Hp & _).
  exists h'. split; [|done]. rewrite Hw. by vm_compute.
Defined.

(** * Further properties of the code *)

(** ** Registry options *)

(** X1.  A credential given by flag is used as it is, whatever the environment
    holds; one left empty is taken from its [IMGPKG_] variable, and stays
    empty when that is not set.  The environment can switch anonymous access
    on, with the exact value [true], and never off.  The certificate and
    transport options come from the flags alone. *)
Theorem AsRegistryOpts_precedence (env : gmap string string) (r : RegistryFlags) :
  let opts := AsRegistryOpts env r in
  (r.(Username) ≠ "" → opts.(registry.Username) = r.(Username)) ∧
  (r.(Password) ≠ "" → opts.(registry.Password) = r.(Password)) ∧
  (r.(Token) ≠ "" → opts.(registry.Token) = r.(Token)) ∧
  (r.(Username) = "" →
   opts.(registry.Username) = default "" (env !! "IMGPKG_USERNAME")) ∧
  (r.(Password) = "" →
   opts.(registry.Password) = default "" (env !! "IMGPKG_PASSWORD")) ∧
  (r.(Token) = "" →
   opts.(registry.Token) = default "" (env !! "IMGPKG_TOKEN")) ∧
  (opts.(registry.Anon) = true ↔
   r.(Anon) = true ∨ env !! "IMGPKG_ANON" = Some "true") ∧
  opts.(registry.CACertPaths) = r.(CACertPaths) ∧
  opts.(registry.VerifyCerts) = r.(VerifyCerts) ∧
  opts.(registry.Insecure) = r.(Insecure).
Proof.
  assert (∀ s, String.length s = 0 ↔ s = "") as Hlen by (by intros [|]).
  simpl. split_and!; try done.
  - intros H. rewrite bool_decide_eq_false_2; [done|]. by rewrite Hlen.
  - intros H. rewrite bool_decide_eq_false_2; [done|]. by rewrite Hlen.
  - intros H. rewrite bool_decide_eq_false_2; [done|]. by rewrite Hlen.
  - intros ->. done.
  - intros ->. done.
  - intros ->. done.
  - unfold Getenv. case_bool_decide as Henv.
    + split; [|done]. intros _. right.
      destruct (env !! "IMGPKG_ANON") as [v|]; simpl in Henv; by subst.
    + split; [by left|]. intros [?|Hv]; [done|]. by rewrite Hv in Henv.
Qed.

(** ** More of Run *)

Lemma append_assoc (a b c : string) : (a +:+ b) +:+ c = a +:+ b +:+ c.
Proof.
  induction a as [|x a IH]; [done|].
  change (String x ((a +:+ b) +:+ c) = String x (a +:+ b +:+ c)). by rewrite IH.
Qed.

Section RunMore.

Variable range_map : gmap string (list string) → list (string * list string).
Variable wd : option string.
Variable fs : FS.
Variable NewTag : string → Result Tag.
Variable registryError : Tag → FileImage → option error.
Variable Digest : FileImage → Result string.
Variable yamlMarshal : BundleLock → Result string.
Variable writeFileError : string → option error.
Variable tarball : list string → list string → Result string.

Abbreviation run :=
  (Run range_map wd fs NewTag registryError Digest yamlMarshal writeFileError
       tarball).

(** The image [Run] makes of the files: a bundle or a plain image, by the
    flags. *)
Abbreviation image o :=
  (if isBundle o
   then AsFileBundle tarball o.(fileFlags).(Files) o.(fileFlags).(FileExcludeDefaults)
   else AsFileImage tarball o.(fileFlags).(Files) o.(fileFlags).(FileExcludeDefaults)).

Ltac run_shapes :=
  unfold inputRefOf, bundleLockOf, imageURLOf; RunFacts.run_cases.

(** X2.  The calls of [Run], from the first to the last.  A [Run] that makes
    no call has failed.  Otherwise the first call is the image build, of the
    files and exclusions of the flags, as a bundle or as a plain image by the
    flags.  When the build fails it is the only call, and [Run] returns its
    error as it is.  When it gives an image, the next call writes that image
    to the registry and the last call removes that same temporary image,
    whether the push succeeded or not; in between no image is built, written
    or removed. *)
Theorem Run_removes_image_last (o : PushOptions) :
  match (run o).1 with
  | [] => isErr (run o).2 = true
  | ev :: rest =>
      ev = BuildImage (isBundle o) o.(fileFlags).(Files)
             o.(fileFlags).(FileExcludeDefaults) (image o) ∧
      match image o with
      | Err e => rest = [] ∧ (run o).2 = Err e
      | Ok img =>
          ∃ ref err mid,
            rest = WriteImage ref img err :: mid ++ [Remove img] ∧
            Forall (λ ev, isBuildImage ev = false ∧ isWriteImage ev = false ∧
                          isRemove ev = false) mid
      end
  end.
Proof.
  run_shapes; try done.
  all: split; [done|].
  all: do 2 eexists.
  all: first
    [ by exists []; split; [done|repeat constructor]
    | by eexists [_]; split; [done|repeat constructor]
    | by eexists [_; _]; split; [done|repeat constructor] ].
Qed.

(** X3.  [Run] succeeds exactly when the flags and the files are valid, the
    reference parses, the image is made, the registry accepts it, its digest
    is known and, when a lock output is asked for, the lock marshals and its
    file is written. *)
Theorem Run_succeeds_iff (o : PushOptions) :
  (run o).2 = Ok () ↔
  validateFlags o = None ∧ validateFiles range_map o wd fs = None ∧
  ∃ uploadRef img digest,
    NewTag (inputRefOf o) = Ok uploadRef ∧ image o = Ok img ∧
    registryError uploadRef img = None ∧ Digest img = Ok digest ∧
    (o.(outputFlags).(LockFilePath) = "" ∨
     ∃ manifestBs,
       yamlMarshal (bundleLockOf uploadRef digest) = Ok manifestBs ∧
       writeFileError o.(outputFlags).(LockFilePath) = None).
Proof.
  run_shapes.
  all: repeat match goal with
    | H : bool_decide (_ ≠ "") = true |- _ => apply bool_decide_eq_true_1 in H
    | H : bool_decide (_ ≠ "") = false |- _ =>
        apply bool_decide_eq_false_1 in H; apply dec_stable in H
    end.
  all: split; [try done|].
  all: try (intros _; split_and!; [done..|]; do 3 eexists;
            split_and!; [done..|]; by eauto).
  all: intros (? & ? & u & i & d & ? & ? & ? & ? & Hlock); simplify_eq; try done.
  all: destruct Hlock as [?|(bs & ? & ?)]; simplify_eq; try done; congruence.
Qed.

(** X4.  The outside calls of a [Run] that succeeds, in order: the image is
    built from the files and exclusions of the flags, with the UI logger in
    hand, as a bundle or as a plain image by the flags; it is written to the
    registry under the parsed reference; [Run] prints the line [Pushed] with
    the repository, an at sign and the digest; the lock file is written when
    one is asked for; and the temporary image is removed. *)
Theorem Run_success_trace (o : PushOptions) :
  (run o).2 = Ok () →
  ∃ uploadRef img digest,
    NewTag (inputRefOf o) = Ok uploadRef ∧ image o = Ok img ∧
    Digest img = Ok digest ∧
    let pushed :=
      [BuildImage (isBundle o) o.(fileFlags).(Files)
         o.(fileFlags).(FileExcludeDefaults) (Ok img);
       WriteImage uploadRef img None;
       BeginLinef ("Pushed '" +:+ imageURLOf uploadRef digest +:+ "'")] in
    (o.(outputFlags).(LockFilePath) = "" ∧
     (run o).1 = pushed ++ [Remove img]) ∨
    (o.(outputFlags).(LockFilePath) ≠ "" ∧
     ∃ manifestBs,
       yamlMarshal (bundleLockOf uploadRef digest) = Ok manifestBs ∧
       (run o).1
       = pushed ++
         [WriteFile o.(outputFlags).(LockFilePath)
            ("---" +:+ String "010" "" +:+ manifestBs) None;
          Remove img]).
Proof.
  run_shapes; try done.
  all: repeat match goal with
    | H : bool_decide (_ ≠ "") = true |- _ => apply bool_decide_eq_true_1 in H
    | H : bool_decide (_ ≠ "") = false |- _ =>
        apply bool_decide_eq_false_1 in H; apply dec_stable in H
    end.
  all: intros _; do 3 eexists; split_and!; [done..|].
  all: first [ by left | right; split; [done|]; by eexists ].
Qed.

(** X5.  [Run] does not undo a push.  When it fails after the registry has
    accepted the image, the temporary image is still removed, and the
    failure is either that of the digest, with no [Pushed] line printed, or
    that of the lock output, after the [Pushed] line: the error of the
    marshalling, or the error of the file write behind [Writing lock
    file:]. *)
Theorem Run_fails_after_push (o : PushOptions) (ref : Tag) (img : FileImage)
    (e : error) :
  (run o).2 = Err e → WriteImage ref img None ∈ (run o).1 →
  Remove img ∈ (run o).1 ∧
  ((Digest img = Err e ∧
    Forall (λ ev, isBeginLinef ev = false) (run o).1) ∨
   (∃ digest,
      Digest img = Ok digest ∧
      BeginLinef ("Pushed '" +:+ imageURLOf ref digest +:+ "'") ∈ (run o).1 ∧
      o.(outputFlags).(LockFilePath) ≠ "" ∧
      (yamlMarshal (bundleLockOf ref digest) = Err e ∨
       ∃ e' data,
         writeFileError o.(outputFlags).(LockFilePath) = Some e' ∧
         e = errorString ("Writing lock file: " +:+ Error e') ∧
         WriteFile o.(outputFlags).(LockFilePath) data (Some e')
           ∈ (run o).1))).
Proof.
  run_shapes; try done.
  all: repeat match goal with
    | H : bool_decide (_ ≠ "") = true |- _ => apply bool_decide_eq_true_1 in H
    | H : bool_decide (_ ≠ "") = false |- _ =>
        apply bool_decide_eq_false_1 in H; apply dec_stable in H
    end.
  all: intros He Hin; RunFacts.elem_inv.
  all: split; [RunFacts.elem_find|].
  all: first
    [ by left; split; [done|repeat constructor]
    | right; eexists; split_and!; [done|RunFacts.elem_find|done|];
      first [ by left | right; do 2 eexists; split_and!;
                        [done|done|RunFacts.elem_find] ] ].
Qed.

(** X6.  Once the flags and the files are valid, a reference that does not
    parse is reported as [Parsing], with the reference, and nothing outside
    the process has been called, the image build included.  With a
    reference that parses, an image build that fails is the only call, and
    its error is returned as it is: nothing is written and there is no
    temporary image to remove.  A write the registry refuses is reported as
    [Writing], with the name of the reference: the calls are the image
    build, the refused write and the removal of the temporary image, so
    [Run] prints no line of its own and writes no lock file. *)
Theorem Run_reports_reference (o : PushOptions) :
  validateFlags o = None → validateFiles range_map o wd fs = None →
  let build := BuildImage (isBundle o) o.(fileFlags).(Files)
                 o.(fileFlags).(FileExcludeDefaults) in
  (∀ e, NewTag (inputRefOf o) = Err e →
        run o = ([], Err (errorString
                            ("Parsing '" +:+ inputRefOf o +:+ "': " +:+ Error e)))) ∧
  (∀ uploadRef e,
     NewTag (inputRefOf o) = Ok uploadRef → image o = Err e →
     run o = ([build (Err e)], Err e)) ∧
  (∀ uploadRef img e,
     NewTag (inputRefOf o) = Ok uploadRef → image o = Ok img →
     registryError uploadRef img = Some e →
     run o = ([build (Ok img); WriteImage uploadRef img (Some e); Remove img],
              Err (errorString
                     ("Writing '" +:+ uploadRef.(Name) +:+ "': " +:+ Error e)))).
Proof.
  intros Hflags Hfiles build. unfold build. split_and!.
  - intros e He. revert He Hflags Hfiles.
    run_shapes; intros; simplify_eq; try congruence.
    all: by rewrite <-!append_assoc.
  - intros uploadRef e Href Himg. revert Href Himg Hflags Hfiles.
    run_shapes; intros; simplify_eq; try congruence.
  - intros uploadRef img e Href Himg Hreg. revert Href Himg Hreg Hflags Hfiles.
    run_shapes; intros; simplify_eq; try congruence.
    all: by rewrite <-!append_assoc.
Qed.

End RunMore.

(** ** Proof infrastructure: trees as lists of entries *)

Module TreeFacts.
Import Walk.

Lemma root_descendant n : ([], n) ∈ descendants n.
Proof. destruct n; simpl; by left. Qed.

(** [Walk] visits the entries of the tree, each at the path its chain of
    names joins to. *)
Lemma visits_descendants n : ∀ path,
  visits path n
  = (λ d, visitOf (filepath.joins path d.1) d.2) <$> descendants n.
Proof.
  induction n as [|entries IH|info e] using node_ind; intros path; [done| |done].
  cbn [visits descendants fmap list_fmap]. f_equal.
  induction IH as [|[name child] es Hc _ IHes]; [done|].
  simpl in Hc. rewrite fmap_app, <-IHes, Hc. f_equal.
  rewrite <-list_fmap_compose. by apply list_fmap_ext.
Qed.

Lemma descendants_holds n : ∀ names n',
  (names, n') ∈ descendants n → holds n names n'.
Proof.
  induction n as [|entries IH|info e] using node_ind; intros names n' Hin.
  - apply list_elem_of_singleton in Hin. simplify_eq. constructor.
  - cbn [descendants] in Hin. apply elem_of_cons in Hin as [Heq|Hin].
    { simplify_eq. constructor. }
    assert (∀ es, es ⊆ entries → Forall (λ en, ∀ names n',
                (names, n') ∈ descendants en.2 → holds en.2 names n') es →
              (names, n') ∈
                (fix each (es : list (string * node)) :=
                   match es with
                   | [] => []
                   | (name, child) :: es' =>
                       (prod_map (cons name) id <$> descendants child) ++ each es'
                   end) es →
              holds (Directory entries) names n') as Hgen.
    { clear Hin IH. induction es as [|[name child] es IHes]; intros Hsub Hall Hin.
      - by apply elem_of_nil in Hin.
      - apply Forall_cons in Hall as [Hc Hall].
        apply elem_of_app in Hin as [Hin|Hin].
        + apply list_elem_of_fmap in Hin as ([ns c] & Heq & Hd).
          simpl in Heq. simplify_eq.
          apply (holds_entry entries name child); [|by apply Hc].
          apply Hsub. by left.
        + apply IHes; [|done..]. intros en Hen. apply Hsub. by right. }
    by apply (Hgen entries).
  - apply list_elem_of_singleton in Hin. simplify_eq. constructor.
Qed.

Lemma holds_nil n n' : holds n [] n' → n' = n.
Proof. by inversion 1. Qed.

Lemma holds_singleton entries name n' :
  holds (Directory entries) [name] n' → (name, n') ∈ entries.
Proof.
  inversion 1 as [|????? Hin Hrest]; subst. apply holds_nil in Hrest. by subst.
Qed.

Lemma entry_descendant entries name c :
  (name, c) ∈ entries → ([name], c) ∈ descendants (Directory entries).
Proof.
  intros Hin. cbn [descendants]. right.
  induction entries as [|[nm ch] es IH]; [by apply elem_of_nil in Hin|].
  apply elem_of_app. apply elem_of_cons in Hin as [Heq|Hin].
  - injection Heq as <- <-. left. apply list_elem_of_fmap. exists ([], c).
    split; [done|]. apply root_descendant.
  - right. by apply IH.
Qed.

End TreeFacts.

(** ** Proof infrastructure: absolute paths *)

Module AbsFacts.
Import strings filepath PathFacts.

Lemma Clean_idem s : Clean (Clean s) = Clean s.
Proof. unfold Clean at 1. by rewrite rooted_Clean, elems_Clean. Qed.

(** Cleaning a relative path first makes no difference to what it appends
    to a list of elements. *)
Lemma fold_clean_elems r cs : ∀ out,
  Forall (λ c, no_slash c = true) cs →
  fold_left (clean_step r) (fold_left (clean_step false) cs []) out
  = fold_left (clean_step r) cs out.
Proof.
  induction cs as [|c cs IH] using rev_ind; intros out Hcs; [done|].
  apply Forall_app in Hcs as [Hcs Hc]. rewrite Forall_singleton in Hc.
  rewrite !fold_left_app. cbn [fold_left]. rewrite <-IH by done.
  pose proof (fold_clean_normal false cs [] Hcs) as Hn.
  destruct Hn as (k & ps & Heq & Hps & _); [by exists 0, []|].
  rewrite Heq. clear IH Heq.
  destruct (decide (c = "" ∨ c = ".")) as [Hc1|Hc1].
  { unfold clean_step. by rewrite !decide_True. }
  destruct (decide (c = "..")) as [->|Hc2].
  - destruct ps as [|p ps _] using rev_ind.
    + rewrite app_nil_r.
      assert (clean_step false (replicate k "..") ".." = replicate k ".." ++ [".."])
        as ->.
      { unfold clean_step. rewrite decide_False by done. rewrite decide_True by done.
        destruct k as [|k]; [done|].
        assert (last (replicate (S k) "..") = Some "..") as ->.
        { rewrite <-replicate_snoc. apply last_snoc. }
        by rewrite decide_True. }
      by rewrite fold_left_app.
    + rewrite Forall_app, Forall_singleton in Hps. destruct Hps as [Hps Hp].
      pose proof Hp as (_ & _ & _ & Hp3)%plain_spec.
      assert (clean_step false (replicate k ".." ++ ps ++ [p]) ".."
              = replicate k ".." ++ ps) as ->.
      { unfold clean_step. rewrite decide_False by done. rewrite decide_True by done.
        rewrite app_assoc, last_snoc, decide_False by done.
        by rewrite removelast_last. }
      assert (∀ X, clean_step r (X ++ [p]) ".." = X) as Hpop.
      { intros X. unfold clean_step. rewrite decide_False by done.
        rewrite decide_True by done.
        by rewrite last_snoc, decide_False, removelast_last. }
      rewrite (app_assoc _ ps [p]).
      rewrite (fold_left_app _ (replicate k ".." ++ ps) [p]). simpl.
      by rewrite (clean_step_plain _ _ p), Hpop.
  - assert (plain c = true) as Hp by (apply plain_spec; tauto).
    rewrite (clean_step_plain false) by done.
    rewrite fold_left_app. simpl. by rewrite !clean_step_plain.
Qed.

Lemma rooted_slash d x : d ≠ "" → rooted (d +:+ "/" +:+ x) = rooted d.
Proof. by destruct d. Qed.

(** The elements of a relative path joined to a directory. *)
Lemma elems_Join_rel d x :
  d ≠ "" → rooted x = false →
  elems (filepath.Join d x)
  = fold_left (clean_step (rooted d)) (elems x) (elems d).
Proof.
  intros Hd Hx. unfold filepath.Join. rewrite decide_False by done.
  rewrite elems_Clean. unfold elems at 1.
  rewrite rooted_slash by done.
  change (d +:+ "/" +:+ x) with (d +:+ String "/" x).
  rewrite split_slash_app, fold_left_app. fold (elems d).
  unfold elems at 2. rewrite Hx.
  by rewrite fold_clean_elems by apply split_slash_pieces.
Qed.

Lemma rooted_Join_rel d x : d ≠ "" → rooted (filepath.Join d x) = rooted d.
Proof.
  intros Hd. unfold filepath.Join. rewrite decide_False by done.
  by rewrite rooted_Clean, rooted_slash.
Qed.

Lemma Join_Clean d x : d ≠ "" → Clean (filepath.Join d x) = filepath.Join d x.
Proof.
  intros Hd. unfold filepath.Join. rewrite decide_False by done. apply Clean_idem.
Qed.

(** The parent of the absolute form of an entry of a directory is the
    absolute form of the directory, however the directory is written. *)
Lemma Abs_entry wd r n :
  plain n = true →
  rooted r = true ∨ (∃ d, wd = Some d ∧ d ≠ "") →
  ∃ a a', Abs wd (filepath.Join r n) = Ok a ∧ Abs wd r = Ok a' ∧
          filepath.Dir a = a'.
Proof.
  intros Hn Hcase. unfold Abs. rewrite rooted_Join by done.
  destruct (rooted r) eqn:Hr.
  - do 2 eexists. split_and!; [done..|].
    rewrite Join_plain, Hr by done.
    assert (normal true (elems r ++ [n])) as Hnorm.
    { apply normal_snoc; [|done]. rewrite <-Hr. apply elems_normal. }
    unfold Clean. rewrite rooted_render, elems_render by done.
    rewrite Dir_render; [|rewrite <-Hr; apply elems_normal|done].
    unfold Clean. by rewrite Hr.
  - destruct Hcase as [|(d & -> & Hd)]; [done|].
    do 2 eexists. split_and!; [done..|].
    assert (filepath.Join d (filepath.Join r n)
            = render (rooted d) (elems (filepath.Join d r) ++ [n])) as ->.
    { rewrite <-(Join_Clean d (filepath.Join r n)) by done. unfold Clean.
      rewrite rooted_Join_rel by done. f_equal.
      rewrite (elems_Join_rel d (filepath.Join r n)) by (done || by rewrite rooted_Join).
      rewrite (elems_Join_rel d r) by done.
      rewrite elems_Join, fold_left_app by done. simpl.
      by rewrite clean_step_plain. }
    rewrite Dir_render; [| |done].
    + rewrite <-(rooted_Join_rel d r) by done.
      fold (Clean (filepath.Join d r)). by apply Join_Clean.
    + rewrite <-(rooted_Join_rel d r) by done. apply elems_normal.
Qed.

(** The elements of the absolute form of a descendant: those of the
    absolute form of the root, and the chain of names. *)
Lemma Abs_chain wd r names :
  Forall (λ c, plain c = true) names →
  rooted r = true ∨ (∃ d, wd = Some d ∧ d ≠ "") →
  ∃ a a', Abs wd (joins r names) = Ok a ∧ Abs wd r = Ok a' ∧
          elems a = elems a' ++ names.
Proof.
  intros Hn Hcase. unfold Abs. rewrite rooted_joins by done.
  destruct (rooted r) eqn:Hr.
  - do 2 eexists. split_and!; [done..|]. by rewrite !elems_Clean, elems_joins.
  - destruct Hcase as [|(d & -> & Hd)]; [done|].
    do 2 eexists. split_and!; [done..|].
    rewrite (elems_Join_rel d (joins r names)) by (done || by rewrite rooted_joins).
    rewrite (elems_Join_rel d r) by done.
    rewrite elems_joins, fold_left_app by done. by rewrite fold_clean_plain.
Qed.

(** Chains of plain names are told apart by their slash-joined form. *)
Lemma Join_names_inj ns ms :
  Forall (λ c, plain c = true) ns → Forall (λ c, plain c = true) ms →
  ns ≠ [] → ms ≠ [] →
  strings.Join ns "/" = strings.Join ms "/" → ns = ms.
Proof.
  intros Hns Hms Hn Hm Heq. apply (f_equal split_slash) in Heq.
  rewrite !split_slash_Join in Heq; try done.
  all: eapply Forall_impl; [done|]; by intros c (? & _)%plain_spec.
Qed.

Lemma Base_joins r names :
  Forall (λ c, plain c = true) names → names ≠ [] →
  Some (Base (joins r names)) = last names.
Proof.
  intros Hall Hne. destruct names as [|x names _] using rev_ind; [done|].
  apply Forall_app in Hall as [_ Hx]. rewrite Forall_singleton in Hx.
  by rewrite joins_snoc, Base_Join, last_snoc.
Qed.

End AbsFacts.

(** ** Proof infrastructure: when [validateFiles] passes *)

Module AcceptFacts.
Import Walk.

Lemma runVisits_all_ok o wd tvs : ∀ s,
  (∀ tv, tv ∈ tvs → fileError o wd tv = None) →
  (runVisits o wd tvs s).2 = None.
Proof.
  induction tvs as [|tv tvs IH]; intros s Hall; simpl; [done|].
  pose proof (FileFacts.step_error o wd tv s) as He.
  rewrite Hall in He by by left.
  destruct (validateFiles_step o wd tv s) as [s1 [e1|]]; [done|].
  apply IH. intros tv' Hin. apply Hall. by right.
Qed.

(** The walks end with the error of the first visit that fails. *)
Lemma runVisits_first_error o wd pre tv post s e :
  (∀ tv', tv' ∈ pre → fileError o wd tv' = None) →
  fileError o wd tv = Some e →
  (runVisits o wd (pre ++ tv :: post) s).2 = Some e.
Proof.
  intros Hpre Htv. rewrite FileFacts.runVisits_app.
  pose proof (runVisits_all_ok o wd pre s Hpre) as Hok.
  destruct (runVisits o wd pre s) as [s1 [e1|]]; [done|]. simpl.
  pose proof (FileFacts.step_error o wd tv s1) as He. rewrite Htv in He.
  by destruct (validateFiles_step o wd tv s1) as [s2 [e2|]].
Qed.

Lemma rootVisits_single fs r : rootVisits fs [r] = pair r <$> visits r (fs r).
Proof. unfold rootVisits. simpl. by rewrite app_nil_r. Qed.

Lemma pathsAt_NoDup k recs : NoDup recs.*1 → length (pathsAt k recs) ≤ 1.
Proof.
  induction recs as [|[k' p] recs IH]; intros Hnd; [simpl; lia|].
  rewrite fmap_cons in Hnd. apply NoDup_cons in Hnd as [Hk Hnd].
  rewrite FileFacts.pathsAt_cons. destruct (decide (k' = k)) as [->|]; [|by apply IH].
  destruct (pathsAt k recs) as [|q qs] eqn:Hq; [simpl; lia|].
  exfalso. apply Hk. apply list_elem_of_fmap. exists (k, q). split; [done|].
  apply FileFacts.elem_of_pathsAt. rewrite Hq. by left.
Qed.

Lemma filter_length_le {A} (P Q : A → Prop)
    `{∀ x, Decision (P x), ∀ x, Decision (Q x)} (l : list A) :
  (∀ x, x ∈ l → P x → Q x) → length (filter P l) ≤ length (filter Q l).
Proof.
  induction l as [|x l IH]; intros Himp; [done|].
  rewrite !filter_cons.
  assert (length (filter P l) ≤ length (filter Q l)) as Hle.
  { apply IH. intros y Hy. apply Himp. by right. }
  destruct (decide (P x)) as [HP|HP].
  - rewrite decide_True by (apply Himp; [by left|done]). simpl. lia.
  - destruct (decide (Q x)); simpl; lia.
Qed.

Lemma NoDup_fmap_inj_on {A B} (f : A → B) (l : list A) x y :
  NoDup (f <$> l) → x ∈ l → y ∈ l → f x = f y → x = y.
Proof.
  intros Hnd [i Hi]%list_elem_of_lookup_1 [j Hj]%list_elem_of_lookup_1 Heq.
  assert (i = j) as ->; [|congruence].
  apply (NoDup_lookup _ i j (f x) Hnd).
  - by rewrite list_lookup_fmap, Hi.
  - by rewrite list_lookup_fmap, Hj, Heq.
Qed.

Section range.
Variable range_map : gmap string (list string) → list (string * list string).
Hypothesis range_map_perm : ∀ m, range_map m ≡ₚ map_to_list m.

(** [validateFiles] passes exactly when every visit passes, at most one
    recorded path is named [.imgpkg], and no two records share a
    bundle-internal path. *)
Lemma validateFiles_None o wd fs :
  validateFiles range_map o wd fs = None ↔
  (∀ tv, tv ∈ rootVisits fs o.(fileFlags).(Files) → fileError o wd tv = None) ∧
  length (imgpkgRecords fs o.(fileFlags).(Files)) ≤ 1 ∧
  (∀ k, length (pathsAt k (recorded fs o.(fileFlags).(Files))) ≤ 1).
Proof.
  split.
  - intros Hv. unfold validateFiles in Hv. fold (walked o wd fs) in Hv.
    destruct (walked o wd fs) as [[bp m] [e|]] eqn:Hw; [done|].
    case_bool_decide as Hbp; [done|].
    pose proof Hw as Hrun. unfold walked in Hrun.
    rewrite FileFacts.validateFiles_loop_run in Hrun.
    pose proof (FileFacts.runVisits_bundlePaths _ _ _ _ _ _ _ Hrun) as Hlen.
    apply FileFacts.runVisits_ok in Hrun as [-> Hall]. simpl in Hlen.
    split_and!; [done|unfold imgpkgRecords, recorded; lia|].
    destruct (FileFacts.checkRepeatedPaths_grouped range_map range_map_perm
                (recorded fs (Files (fileFlags o))))
      as [[_ Hk]|(listed & Hsome & _)]; [done|].
    unfold recorded in Hsome. by rewrite Hsome in Hv.
  - intros (Hall & Hcount & Hk).
    pose proof (runVisits_all_ok o wd _ ([], ∅) Hall) as Hok.
    rewrite <-FileFacts.validateFiles_loop_run in Hok. fold (walked o wd fs) in Hok.
    apply FileFacts.walked_ok in Hok.
    destruct (walked o wd fs) as [[bp m] e] eqn:Hw. simpl in Hok. simplify_eq.
    assert (length bp ≤ 1) as Hbp.
    { unfold walked in Hw. rewrite FileFacts.validateFiles_loop_run in Hw.
      apply FileFacts.runVisits_bundlePaths in Hw. rewrite Hw. simpl.
      exact Hcount. }
    destruct (FileFacts.validateFiles_reaches_check range_map o wd fs bp m Hw Hbp)
      as [-> ->].
    destruct (FileFacts.checkRepeatedPaths_grouped range_map range_map_perm
                (recorded fs (Files (fileFlags o))))
      as [[Hnone _]|(listed & _ & [k Hlt] & _)]; [done|].
    specialize (Hk k). lia.
Qed.

Lemma validateFiles_passes o wd fs :
  (∀ tv, tv ∈ rootVisits fs o.(fileFlags).(Files) → fileError o wd tv = None) →
  length (imgpkgRecords fs o.(fileFlags).(Files)) ≤ 1 →
  NoDup (recorded fs o.(fileFlags).(Files)).*1 →
  validateFiles range_map o wd fs = None.
Proof.
  intros Hall Hcount Hnd. apply validateFiles_None. split_and!; [done..|].
  intros k. by apply pathsAt_NoDup.
Qed.

End range.

(** The visitor on the visit of an entry named [.imgpkg] at the first
    level of an input path. *)
Lemma fileError_top_imgpkg o wd r c :
  isBroken c = false →
  fileError o wd (r, visitOf (filepath.Join r BundleDir) c) = None ↔
  isImage o = false ∧ filepath.Clean r = r ∧
  (filepath.rooted r = true ∨ wd ≠ None).
Proof.
  intros Hc.
  assert (filepath.plain BundleDir = true) as Hb by done.
  pose proof (PathFacts.Rel_joins r [BundleDir]) as Hrel.
  unfold filepath.joins in Hrel. simpl in Hrel.
  specialize (Hrel ltac:(by repeat constructor) ltac:(done)).
  unfold fileError, validateFiles_step, validateFiles_fn.
  destruct c as [|entries|info e]; [| |done]; cbn [visitOf fst snd].
  all: rewrite Hrel, PathFacts.Base_Join, PathFacts.Dir_Join by done.
  all: unfold filepath.Abs; rewrite PathFacts.rooted_Join by done.
  all: rewrite (bool_decide_eq_false_2 (BundleDir ≠ BundleDir)) by (intros H; done).
  all: rewrite ?(bool_decide_eq_false_2 (BundleDir = ".")) by (by intros [=]).
  all: cbn [andb].
  all: destruct (isImage o); [split; [done|by intros (? & _)]|].
  all: destruct (decide (filepath.Clean r = r)) as [Hcl|Hcl].
  all: rewrite ?(bool_decide_eq_false_2 (filepath.Clean r ≠ r)) by (by intros H);
    rewrite ?(bool_decide_eq_true_2 (filepath.Clean r ≠ r)) by done.
  all: try (split; [done|by intros (_ & ? & _)]).
  all: destruct (filepath.rooted r); [split; [by auto|done]|].
  all: destruct wd; (split; [try done; by auto|]).
  all: try done.
  all: by intros (_ & _ & [|]).
Qed.

(** The visitor passes on the entries of a readable tree that are not named
    [.imgpkg], and on the input directory itself. *)
Lemma fileError_descendant o wd r entries d :
  d ∈ descendants (Directory entries) →
  Forall (λ c, filepath.plain c = true) d.1 → isBroken d.2 = false →
  last d.1 ≠ Some BundleDir →
  fileError o wd (r, visitOf (filepath.joins r d.1) d.2) = None.
Proof.
  destruct d as [names n']. cbn [fst snd]. intros Hin Hplain Hb Hlast.
  destruct (decide (names = [])) as [->|Hne].
  - apply TreeFacts.descendants_holds, TreeFacts.holds_nil in Hin. subst n'.
    unfold fileError, validateFiles_step, validateFiles_fn. simpl.
    by rewrite PathFacts.Rel_self.
  - pose proof (PathFacts.Rel_joins r _ Hplain Hne) as Hrel.
    pose proof (PathFacts.Join_names_not_dot _ Hplain Hne) as Hdot.
    pose proof (AbsFacts.Base_joins r _ Hplain Hne) as Hbase.
    assert (filepath.Base (filepath.joins r names) ≠ BundleDir) as Hnb.
    { intros Heq. rewrite Heq in Hbase. by rewrite <-Hbase in Hlast. }
    unfold fileError, validateFiles_step, validateFiles_fn.
    destruct n' as [|es|info e]; [| |done]; cbn [visitOf fst snd].
    all: rewrite Hrel, (bool_decide_eq_false_2 _ Hdot); cbn [andb].
    all: by rewrite (bool_decide_eq_true_2 _ Hnb).
Qed.

(** What a readable tree under the input path [r] adds to the records: one
    record for every entry below the root, under its chain of names. *)
Lemma recorded_tree fs r entries :
  fs r = Directory entries → readable (Directory entries) →
  recorded fs [r]
  = (λ d, (strings.Join d.1 "/", filepath.joins r d.1))
      <$> filter (λ d, d.1 ≠ []) (descendants (Directory entries)).
Proof.
  intros Hfs [Hall _]. unfold recorded.
  rewrite rootVisits_single, Hfs, TreeFacts.visits_descendants.
  rewrite <-list_fmap_compose.
  assert (∀ d, d ∈ descendants (Directory entries) → d.1 = [] →
               d.2 = Directory entries) as Hroot.
  { intros [ns n'] Hin Hns. cbn [fst snd] in *. subst ns.
    by apply TreeFacts.descendants_holds, TreeFacts.holds_nil in Hin. }
  revert Hall Hroot. generalize (descendants (Directory entries)).
  induction l as [|[names n'] l IH]; intros Hall Hroot; [done|].
  apply Forall_cons in Hall as [[Hplain Hb] Hall]. simpl in Hplain, Hb.
  rewrite fmap_cons, filter_cons. cbn [omap list_omap compose fst snd].
  specialize (IH Hall (λ d Hd, Hroot d (list_elem_of_further _ _ _ Hd))).
  destruct (decide (names = [])) as [->|Hne].
  - rewrite decide_False by (intros H; by apply H).
    specialize (Hroot ([], n') (list_elem_of_here _ _) eq_refl). simpl in Hroot.
    subst n'. simpl. by rewrite PathFacts.Rel_self.
  - rewrite decide_True, fmap_cons by done.
    pose proof (FileFacts.recordOf_entry r names n' Hplain Hne) as Hrec.
    destruct n'; [| |done]; rewrite Hrec; by f_equal.
Qed.

Lemma recorded_tree_NoDup fs r entries :
  fs r = Directory entries → readable (Directory entries) →
  NoDup (recorded fs [r]).*1.
Proof.
  intros Hfs Hread. rewrite (recorded_tree fs r entries) by done.
  destruct Hread as [Hall Hnd]. rewrite <-list_fmap_compose.
  apply NoDup_fmap_2_strong.
  - intros x y [Hx Hxin]%list_elem_of_filter [Hy Hyin]%list_elem_of_filter Heq.
    simpl in Heq. apply (NoDup_fmap_inj_on fst _ x y Hnd Hxin Hyin).
    rewrite Forall_forall in Hall.
    apply AbsFacts.Join_names_inj; [by apply Hall|by apply Hall|done..].
  - apply NoDup_filter. by eapply NoDup_fmap_1.
Qed.

Lemma imgpkgRecords_tree fs r entries :
  fs r = Directory entries → readable (Directory entries) →
  imgpkgOnTop (Directory entries) →
  length (imgpkgRecords fs [r]) ≤ 1.
Proof.
  intros Hfs Hread Htop. unfold imgpkgRecords.
  pose proof (recorded_tree_NoDup fs r entries Hfs Hread) as Hnd.
  etrans; [|apply (pathsAt_NoDup BundleDir _ Hnd)].
  unfold pathsAt. rewrite length_fmap. apply filter_length_le.
  intros [k p] Hin Hbase. simpl in *.
  rewrite (recorded_tree fs r entries) in Hin by done.
  apply list_elem_of_fmap in Hin as (d & Heq & [Hne Hd]%list_elem_of_filter).
  simplify_eq. destruct Hread as [Hall _].
  rewrite Forall_forall in Hall. destruct (Hall d Hd) as [Hplain _].
  unfold imgpkgOnTop in Htop. rewrite Forall_forall in Htop.
  rewrite Htop; [done|done|].
  by rewrite <-(AbsFacts.Base_joins r), Hbase.
Qed.

End AcceptFacts.

(** ** When the validation of push passes *)

Section Accepted.

Variable range_map : gmap string (list string) → list (string * list string).
Hypothesis range_map_perm : ∀ m, range_map m ≡ₚ map_to_list m.

(** X8.  For a single input directory that can be read throughout, the
    validation of the files passes exactly when no entry below its first
    level is named [.imgpkg] and, if an entry of the first level is, the
    push is not an image push, the input path is written in its cleaned
    form, and its absolute form can be found.  So a bundle directory
    without any [.imgpkg] passes. *)
Theorem directory_accepted_iff (o : PushOptions) (wd : option string) (fs : FS)
    (r : string) (entries : list (string * node)) :
  o.(fileFlags).(Files) = [r] → fs r = Directory entries →
  readable (Directory entries) →
  validateFiles range_map o wd fs = None ↔
  imgpkgOnTop (Directory entries) ∧
  (BundleDir ∈ entries.*1 →
   isImage o = false ∧ filepath.Clean r = r ∧
   (filepath.rooted r = true ∨ wd ≠ None)).
Proof.
  intros Hfiles Hfs Hread.
  assert (∀ names n', holds (fs r) names n' →
            fileError o wd (r, visitOf (filepath.joins r names) n') ≠ None →
            validateFiles range_map o wd fs ≠ None) as Hfails.
  { intros names n' Hh Herr.
    apply (FileFacts.validateFiles_visit_fails range_map o wd fs
             (r, visitOf (filepath.joins r names) n')); [|done].
    rewrite Hfiles. apply FileFacts.elem_of_rootVisits; [by left|done]. }
  split.
  - intros Hv. split.
    + destruct (decide (imgpkgOnTop (Directory entries))) as [|Hnot]; [done|].
      exfalso. apply not_Forall_Exists in Hnot; [|apply _].
      apply Exists_exists in Hnot as ([names n'] & Hd & Hbad).
      cbn [compose fst snd] in Hbad.
      destruct Hread as [Hall _]. rewrite Forall_forall in Hall.
      destruct (Hall _ Hd) as [Hplain _]. cbn [fst snd] in Hplain.
      destruct (decide (last names = Some BundleDir)) as [Hlast|Hlast];
        [|by destruct Hbad].
      apply last_Some in Hlast as [ns ->].
      apply Forall_app in Hplain as [Hplain _].
      apply TreeFacts.descendants_holds in Hd.
      apply (Hfails _ _ ltac:(by rewrite Hfs)); [|done].
      apply FileFacts.imgpkg_visit_fails; [done|]. right.
      intros ->. by apply Hbad.
    + intros ([name c] & Hname & Hin)%list_elem_of_fmap. simpl in Hname. subst name.
      pose proof (TreeFacts.entry_descendant _ _ _ Hin) as Hd.
      destruct Hread as [Hall _]. rewrite Forall_forall in Hall.
      destruct (Hall _ Hd) as [_ Hb]. simpl in Hb.
      apply (AcceptFacts.fileError_top_imgpkg o wd r c Hb).
      destruct (fileError o wd (r, visitOf (filepath.Join r BundleDir) c))
        as [e|] eqn:He; [|done].
      exfalso. revert Hv. apply (Hfails [BundleDir] c).
      * rewrite Hfs. apply (holds_entry entries BundleDir c [] c Hin). constructor.
      * unfold filepath.joins. simpl. by rewrite He.
  - intros [Htop Hcond].
    apply (AcceptFacts.validateFiles_passes range_map range_map_perm); rewrite Hfiles.
    + intros tv Htv. rewrite AcceptFacts.rootVisits_single, Hfs in Htv.
      rewrite TreeFacts.visits_descendants, <-list_fmap_compose in Htv.
      apply list_elem_of_fmap in Htv as (d & -> & Hd). simpl.
      destruct Hread as [Hall _]. rewrite Forall_forall in Hall.
      destruct (Hall d Hd) as [Hplain Hb].
      destruct (decide (last d.1 = Some BundleDir)) as [Hlast|Hlast];
        [|by eapply AcceptFacts.fileError_descendant].
      unfold imgpkgOnTop in Htop. rewrite Forall_forall in Htop.
      pose proof (Htop d Hd Hlast) as Hname. destruct d as [names c].
      simpl in *. subst names.
      apply (AcceptFacts.fileError_top_imgpkg o wd r c Hb), Hcond.
      apply list_elem_of_fmap. exists (BundleDir, c). split; [done|].
      by apply TreeFacts.holds_singleton, TreeFacts.descendants_holds.
    + by eapply AcceptFacts.imgpkgRecords_tree.
    + by eapply AcceptFacts.recorded_tree_NoDup.
Qed.

(** X15.  Whatever the input paths, the validation of the files passes
    exactly when the visitor passes on every visit of the walks, at most one
    recorded path is named [.imgpkg], and no bundle-internal path has two
    recorded paths: the captured variables and the order of the visits play
    no part in whether it passes. *)
Theorem validateFiles_passes_iff (o : PushOptions) (wd : option string) (fs : FS) :
  let inputs := o.(fileFlags).(Files) in
  validateFiles range_map o wd fs = None ↔
  Forall (λ tv, fileError o wd tv = None) (rootVisits fs inputs) ∧
  length (imgpkgRecords fs inputs) ≤ 1 ∧
  (∀ k, length (pathsAt k (recorded fs inputs)) ≤ 1).
Proof.
  intros inputs. rewrite Forall_forall.
  apply (AcceptFacts.validateFiles_None range_map range_map_perm).
Qed.

(** X10.  Input paths that are all regular files, with different base names none
    of which is [.imgpkg], pass the validation of the files, for a bundle
    and for an image alike. *)
Theorem file_inputs_accepted (o : PushOptions) (wd : option string) (fs : FS) :
  let inputs := o.(fileFlags).(Files) in
  Forall (λ r, fs r = File ∧ filepath.Base r ≠ BundleDir) inputs →
  NoDup (filepath.Base <$> inputs) →
  validateFiles range_map o wd fs = None.
Proof.
  intros inputs Hall Hnd.
  assert (rootVisits fs inputs
          = (λ r, (r, (r, Some {| IsDir := false |}, None))) <$> inputs) as Hvisits.
  { clear Hnd. induction Hall as [|r l [Hr _] _ IH]; [done|].
    change (rootVisits fs (r :: l))
      with ((pair r <$> Walk.visits r (fs r)) ++ rootVisits fs l).
    by rewrite Hr, IH. }
  assert (recorded fs inputs = (λ r, (filepath.Base r, r)) <$> inputs) as Hrec.
  { unfold recorded. rewrite Hvisits. clear.
    induction inputs as [|r l IH]; [done|].
    rewrite !fmap_cons. cbn [omap list_omap recordOf].
    by rewrite PathFacts.Rel_self, IH. }
  apply (AcceptFacts.validateFiles_passes range_map range_map_perm).
  - fold inputs. rewrite Hvisits. intros tv (r & -> & Hr)%list_elem_of_fmap.
    rewrite Forall_forall in Hall. destruct (Hall r Hr) as [_ Hbase].
    unfold fileError, validateFiles_step, validateFiles_fn. simpl.
    rewrite PathFacts.Rel_self. simpl.
    by rewrite (bool_decide_eq_true_2 _ Hbase).
  - unfold imgpkgRecords. fold inputs. rewrite Hrec.
    assert (filter (λ kp : string * string, filepath.Base kp.2 = BundleDir)
              ((λ r, (filepath.Base r, r)) <$> inputs) = []) as ->; [|simpl; lia].
    clear Hnd Hvisits Hrec. induction Hall as [|r l [_ Hb] _ IH]; [done|].
    rewrite fmap_cons, filter_cons. simpl. by rewrite decide_False.
  - fold inputs. rewrite Hrec, <-list_fmap_compose. exact Hnd.
Qed.

(** X7.  The validation of the files returns the error of the first visit the
    visitor fails on, in the order of the walks (the input paths as given,
    each tree from its root down): no later entry is looked at, and neither
    the count of [.imgpkg] directories nor the duplicate check is
    reached. *)
Theorem validateFiles_first_error (o : PushOptions) (wd : option string) (fs : FS)
    (pre post : list (string * Walk.visit)) (tv : string * Walk.visit) (e : error) :
  rootVisits fs o.(fileFlags).(Files) = pre ++ tv :: post →
  Forall (λ tv', fileError o wd tv' = None) pre →
  fileError o wd tv = Some e →
  validateFiles range_map o wd fs = Some e.
Proof.
  intros Hvisits Hpre Htv. unfold validateFiles.
  rewrite FileFacts.validateFiles_loop_run, Hvisits.
  rewrite Forall_forall in Hpre.
  pose proof (AcceptFacts.runVisits_first_error o wd pre tv post ([], ∅) e Hpre Htv)
    as Hrun.
  destruct (runVisits o wd (pre ++ tv :: post) ([], ∅)) as [[bp m] [e'|]];
    simpl in Hrun; by simplify_eq.
Qed.

(** X9.  An input directory that is not written in its cleaned form (a trailing
    slash, a leading [./]) and holds an entry named [.imgpkg] fails the
    validation of the files, although the entry is a direct child; for a
    bundle the visitor fails on that entry with the direct-child error. *)
Theorem unclean_root_rejected (o : PushOptions) (wd : option string) (fs : FS)
    (r : string) (entries : list (string * node)) (c : node) :
  r ∈ o.(fileFlags).(Files) → fs r = Directory entries →
  (BundleDir, c) ∈ entries → filepath.Clean r ≠ r →
  validateFiles range_map o wd fs ≠ None ∧
  (isImage o = false → isBroken c = false →
   fileError o wd (r, visitOf (filepath.Join r BundleDir) c)
   = Some (errorString
             ("Expected '.imgpkg' dir to be a direct child of '" +:+ r +:+
              "', but was: '" +:+ filepath.Join r BundleDir +:+ "'"))).
Proof.
  intros Hr Hfs Hin Hcl.
  assert (filepath.plain BundleDir = true) as Hb by done.
  pose proof (PathFacts.Rel_joins r [BundleDir]) as Hrel.
  unfold filepath.joins in Hrel. simpl in Hrel.
  specialize (Hrel ltac:(by repeat constructor) ltac:(done)).
  split.
  - apply (FileFacts.validateFiles_visit_fails range_map o wd fs
             (r, visitOf (filepath.Join r BundleDir) c)).
    + apply (FileFacts.elem_of_rootVisits fs _ r [BundleDir] c Hr).
      rewrite Hfs. apply (holds_entry entries BundleDir c [] c Hin). constructor.
    + destruct (isBroken c) eqn:Hbr; [by destruct c|].
      rewrite (AcceptFacts.fileError_top_imgpkg o wd r c Hbr).
      by intros (_ & ? & _).
  - intros Himg Hbr.
    unfold fileError, validateFiles_step, validateFiles_fn.
    destruct c as [|es|info e]; [| |done]; cbn [visitOf fst snd].
    all: rewrite Hrel, PathFacts.Base_Join, PathFacts.Dir_Join, Himg by done.
    all: rewrite (bool_decide_eq_false_2 (BundleDir ≠ BundleDir)) by (intros H; done).
    all: by rewrite (bool_decide_eq_true_2 _ Hcl).
Qed.

End Accepted.

(** ** The order of map iteration *)

Section Order.

Variables range1 range2 : gmap string (list string) → list (string * list string).
Hypothesis range1_perm : ∀ m, range1 m ≡ₚ map_to_list m.
Hypothesis range2_perm : ∀ m, range2 m ≡ₚ map_to_list m.

Lemma repeatedPaths_perm (l1 l2 : list (string * list string)) :
  l1 ≡ₚ l2 → repeatedPaths l1 ≡ₚ repeatedPaths l2.
Proof.
  induction 1 as [|[k v] l1 l2 _ IH|[k1 v1] [k2 v2] l|l1 l2 l3 _ IH1 _ IH2]; simpl.
  - done.
  - case_bool_decide; by rewrite IH.
  - repeat case_bool_decide; try done.
    rewrite !app_assoc. f_equiv. apply Permutation_app_comm.
  - by etrans.
Qed.

(** X11.  The order in which Go ranges over the map of recorded paths decides
    nothing but the order in which the duplicate-path error lists the
    paths: under any two orders the validation of the files passes or fails
    alike, and it fails with the same error, or with two duplicate-path
    errors that list the same paths. *)
Theorem map_order_irrelevant (o : PushOptions) (wd : option string) (fs : FS) :
  (validateFiles range1 o wd fs = None ↔ validateFiles range2 o wd fs = None) ∧
  ∀ e, validateFiles range1 o wd fs = Some e →
       validateFiles range2 o wd fs = Some e ∨
       ∃ l1 l2, e = duplicatePaths l1 ∧
                validateFiles range2 o wd fs = Some (duplicatePaths l2) ∧
                l1 ≡ₚ l2.
Proof.
  unfold validateFiles.
  destruct (validateFiles_loop _ _ _ _ _) as [[bp m] [e|]]; [by split; [|left]|].
  case_bool_decide; [by split; [|left]|].
  unfold checkRepeatedPaths.
  assert (repeatedPaths (range1 m) ≡ₚ repeatedPaths (range2 m)) as Hperm.
  { apply repeatedPaths_perm. by rewrite range1_perm, range2_perm. }
  rewrite <-(Permutation_length Hperm).
  case_bool_decide; [|done]. split; [done|].
  intros e [= <-]. right. by do 2 eexists.
Qed.

End Order.

(** ** When the validation of bundle contents passes *)

Module FindFacts.
Import Walk.

(** Without errors, the walk of [findImgpkgDirs] collects the absolute form
    of every visited path named [.imgpkg]. *)
Lemma run_found wd vs : ∀ acc,
  (∀ v, v ∈ vs → v.2 = None) →
  (∀ v, v ∈ vs → filepath.Base v.1.1 = ImgpkgDir →
        ∃ a, filepath.Abs wd v.1.1 = Ok a) →
  run (findImgpkgDirs_fn wd) vs acc = (acc ++ omap (foundDir wd) vs, None).
Proof.
  induction vs as [|[[p i] e] vs IH]; intros acc Herr Habs; simpl.
  - by rewrite app_nil_r.
  - pose proof (Herr (p, i, e) (list_elem_of_here _ _)) as He. simpl in He. subst e.
    unfold findImgpkgDirs_fn at 1. unfold foundDir at 1. simpl.
    case_bool_decide as Hb.
    + rewrite bool_decide_eq_false_2 by (by intros H).
      apply IH; intros v Hv; [apply Herr|apply Habs]; by right.
    + rewrite bool_decide_eq_true_2 by done.
      destruct (Habs (p, i, None) (list_elem_of_here _ _) Hb) as [a Ha].
      simpl in Ha. rewrite Ha. rewrite IH.
      * by rewrite <-app_assoc.
      * intros v Hv. apply Herr. by right.
      * intros v Hv. apply Habs. by right.
Qed.

Lemma filter_chain_length (ds : list (list string * node)) (x : list string) :
  NoDup ds.*1 → length (filter (λ d, d.1 = x) ds) ≤ 1.
Proof.
  induction ds as [|[ns n] ds IH]; intros Hnd; [simpl; lia|].
  rewrite fmap_cons in Hnd. apply NoDup_cons in Hnd as [Hk Hnd].
  rewrite filter_cons. simpl. destruct (decide (ns = x)) as [->|]; [|by apply IH].
  destruct (filter (λ d, d.1 = x) ds) as [|q qs] eqn:Hq; [simpl; lia|].
  exfalso. apply Hk.
  assert (q ∈ filter (λ d : list string * node, d.1 = x) ds) as Hin
    by (rewrite Hq; by left).
  apply list_elem_of_filter in Hin as [<- Hin].
  apply list_elem_of_fmap. by exists q.
Qed.

(** What [findImgpkgDirs] collects among the entries of a readable tree:
    the absolute form of the path of every entry named [.imgpkg]. *)
Lemma found_tree wd r (ds : list (list string * node)) :
  Forall (λ d, Forall (λ c, filepath.plain c = true) d.1 ∧ isBroken d.2 = false) ds →
  filepath.Base r ≠ ImgpkgDir →
  filepath.rooted r = true ∨ (∃ d, wd = Some d ∧ d ≠ "") →
  let visit := λ d : list string * node, visitOf (filepath.joins r d.1) d.2 in
  (∀ v, v ∈ visit <$> ds → v.2 = None) ∧
  (∀ v, v ∈ visit <$> ds → filepath.Base v.1.1 = ImgpkgDir →
        ∃ a, filepath.Abs wd v.1.1 = Ok a) ∧
  omap (foundDir wd) (visit <$> ds)
  = (λ d, default "" (foundDir wd (visit d)))
      <$> filter (λ d, last d.1 = Some BundleDir) ds.
Proof.
  intros Hall Hbase Hwd visit.
  assert (∀ d, (visit d).1.1 = filepath.joins r d.1) as Hpath
    by (intros [ns []]; done).
  assert (∀ d, isBroken d.2 = false → (visit d).2 = None) as Herr
    by (intros [ns []]; done).
  rewrite Forall_forall in Hall. split_and!.
  - intros v (d & -> & Hd)%list_elem_of_fmap. apply Herr. by apply Hall.
  - intros v (d & -> & Hd)%list_elem_of_fmap _. rewrite Hpath.
    destruct (Hall d Hd) as [Hplain _].
    destruct (AbsFacts.Abs_chain wd r d.1 Hplain Hwd) as (a & _ & Ha & _).
    by exists a.
  - rewrite <-Forall_forall in Hall.
    induction Hall as [|d ds [Hplain Hb] _ IH]; [done|].
    rewrite fmap_cons, filter_cons. cbn [omap list_omap]. rewrite IH. clear IH.
    destruct (AbsFacts.Abs_chain wd r d.1 Hplain Hwd) as (a & _ & Ha & _).
    assert (foundDir wd (visit d)
            = if decide (last d.1 = Some BundleDir) then Some a else None) as Hf.
    { unfold foundDir. rewrite Hpath, Ha.
      destruct (decide (last d.1 = Some BundleDir)) as [Hlast|Hlast].
      - assert (d.1 ≠ []) as Hne by (intros Hnil; by rewrite Hnil in Hlast).
        pose proof (AbsFacts.Base_joins r _ Hplain Hne) as Hb'.
        rewrite Hlast in Hb'. injection Hb' as Hb'.
        by rewrite bool_decide_eq_true_2.
      - rewrite bool_decide_eq_false_2; [done|]. intros Heq.
        destruct (decide (d.1 = [])) as [Hnil|Hne].
        + rewrite Hnil in Heq. by unfold filepath.joins in Heq.
        + apply Hlast. by rewrite <-(AbsFacts.Base_joins r), Heq. }
    destruct (decide (last d.1 = Some BundleDir)); rewrite ?fmap_cons, Hf; done.
Qed.

End FindFacts.

(** X12.  For a single input directory that can be read throughout and is
    not itself named [.imgpkg], the validation of bundle contents passes
    exactly when one entry of its first level, and no entry below, is named
    [.imgpkg], and [PresentsAsBundle] says so without an error; the input
    path need not be written in its cleaned form. *)
Theorem bundle_contents_accepted_iff (wd : option string) (fs : FS) (r : string)
    (entries : list (string * node)) (excluded : list string) :
  fs r = Directory entries →
  readable (Directory entries) → filepath.Base r ≠ ImgpkgDir →
  filepath.rooted r = true ∨ (∃ d, wd = Some d ∧ d ≠ "") →
  let b := NewContents [r] excluded in
  let bundle := imgpkgOnTop (Directory entries) ∧ BundleDir ∈ entries.*1 in
  (validate wd fs b = None ↔ bundle) ∧
  PresentsAsBundle wd fs b = (bool_decide bundle, None).
Proof.
  intros Hfs Hread Hbase Hwd b bundle.
  set (ds := descendants (Directory entries)).
  set (visit := λ d : list string * node, visitOf (filepath.joins r d.1) d.2).
  set (named := λ d : list string * node, last d.1 = Some BundleDir).
  destruct Hread as [Hall Hnd]. fold ds in Hall, Hnd.
  destruct (FindFacts.found_tree wd r ds Hall Hbase Hwd) as (Herr & Habs & Hfound).
  fold visit named in Herr, Habs, Hfound.
  assert (findImgpkgDirs wd fs b
          = Ok ((λ d, default "" (foundDir wd (visit d))) <$> filter named ds))
    as Hfind.
  { unfold findImgpkgDirs, b. simpl. unfold Walk.Walk.
    rewrite WalkFacts.walk_run, Hfs, TreeFacts.visits_descendants.
    fold ds visit. rewrite FindFacts.run_found by done. by rewrite Hfound. }
  assert (∀ d, d ∈ filter named ds ↔ d ∈ ds ∧ last d.1 = Some BundleDir) as Hin
    by (intros d; rewrite list_elem_of_filter; unfold named; tauto).
  assert (∀ c, (BundleDir, c) ∈ entries → ([BundleDir], c) ∈ filter named ds)
    as Htop.
  { intros c Hc. apply Hin. split; [|done]. by apply TreeFacts.entry_descendant. }
  assert (bundle → length (filter named ds) ≤ 1) as Hone.
  { intros [Hon _]. unfold imgpkgOnTop in Hon. fold ds in Hon.
    rewrite Forall_forall in Hon.
    etrans; [|apply (FindFacts.filter_chain_length ds [BundleDir] Hnd)].
    apply AcceptFacts.filter_length_le. intros d Hd Hlast. by apply Hon. }
  unfold validate, PresentsAsBundle. rewrite Hfind. clear Hfind Hfound Herr Habs.
  destruct (filter named ds) as [|[names n'] [|d2 l]] eqn:HL.
  - (* none found *)
    assert (¬ bundle) as Hno.
    { intros [_ ([name c] & Hname & Hc)%list_elem_of_fmap]. simpl in Hname.
      subst name. by apply Htop, elem_of_nil in Hc. }
    rewrite (bool_decide_eq_false_2 _ Hno). simpl. by split.
  - (* one found *)
    assert ((names, n') ∈ ds ∧ last names = Some BundleDir) as [Hd Hlast]
      by (apply (Hin (names, n')); by left).
    rewrite Forall_forall in Hall. destruct (Hall _ Hd) as [Hplain _].
    cbn [fst snd] in Hplain.
    apply last_Some in Hlast as [ns ->].
    apply Forall_app in Hplain as [Hns Hb'].
    cbn [fmap list_fmap]. unfold foundDir.
    assert ((visit (ns ++ [BundleDir], n')).1.1
            = filepath.Join (filepath.joins r ns) BundleDir) as ->.
    { unfold visit. cbn [fst snd]. rewrite PathFacts.joins_snoc. by destruct n'. }
    rewrite PathFacts.Base_Join, bool_decide_eq_true_2 by done.
    destruct (AbsFacts.Abs_entry wd (filepath.joins r ns) BundleDir)
      as (a & a'' & Ha & Ha'' & Hdir); [done| |].
    { rewrite PathFacts.rooted_joins by done. exact Hwd. }
    destruct (AbsFacts.Abs_chain wd r ns Hns Hwd) as (a2 & a' & Ha2 & Ha' & Hel).
    rewrite Ha''  in Ha2. injection Ha2 as <-.
    rewrite Ha. cbn [default validateImgpkgDirs childOfInput paths b NewContents].
    change (id a) with a. rewrite Ha', Hdir.
    destruct (decide (ns = [])) as [->|Hne].
    + assert (bundle) as Hyes.
      { split.
        - unfold imgpkgOnTop. fold ds. apply Forall_forall. intros d Hd' Hl.
          assert (d ∈ [([] ++ [BundleDir], n')]) as Hd2 by by apply Hin.
          apply list_elem_of_singleton in Hd2. by subst d.
        - apply list_elem_of_fmap. exists (BundleDir, n'). split; [done|].
          by apply TreeFacts.holds_singleton, TreeFacts.descendants_holds. }
      rewrite (bool_decide_eq_true_2 _ Hyes).
      unfold filepath.joins in Ha''. simpl in Ha''. rewrite Ha' in Ha''.
      injection Ha'' as <-. rewrite bool_decide_eq_true_2 by done. by split.
    + assert (¬ bundle) as Hno.
      { intros [Hon _]. unfold imgpkgOnTop in Hon. fold ds in Hon.
        rewrite Forall_forall in Hon. specialize (Hon _ Hd). cbn [fst] in Hon.
        rewrite last_snoc in Hon. specialize (Hon eq_refl).
        destruct ns; [done|]. by destruct ns. }
      rewrite (bool_decide_eq_false_2 _ Hno).
      rewrite bool_decide_eq_false_2.
      * by split.
      * intros Heq. rewrite Heq in Hel. apply (f_equal length) in Hel.
        rewrite length_app in Hel. destruct ns; [done|]. simpl in Hel. lia.
  - (* several found *)
    assert (¬ bundle) as Hno.
    { intros Hb'. apply Hone in Hb'. simpl in Hb'. lia. }
    rewrite (bool_decide_eq_false_2 _ Hno). simpl. by split.
Qed.

(** ** More of the prefixed log writer *)

Module WriteFacts.
Import slices LoggerSpec.

(** What [Write] hands the underlying writer and returns; the arrays that
    existed before are unchanged. *)
Lemma Write_result (roundupsize : nat → nat) {sink : Type}
    (writerWrite : list Byte.byte → sink → sink * (nat * option error))
    (w : logger.LoggerPrefixWriter) (data : slice) (h : heap) (k : sink) :
  inHeap h data →
  let out := prefixed (String.list_byte_of_string w.(logger.prefix)) (bytes h data) in
  ∃ h',
    logger.Write roundupsize writerWrite w data h k
    = (h', (writerWrite out k).1,
       match (writerWrite out k).2.2 with
       | None => (data.(len), None)
       | Some e => (0, Some (errorString ("write err: " +:+ Error e)))
       end) ∧
    h `prefix_of` h'.
Proof.
  intros Hdata.
  set (p := String.list_byte_of_string w.(logger.prefix)).
  set (d := bytes h data). intros out. unfold logger.Write.
  pose proof (SliceFacts.alloc_spec (replicate data.(len) Byte.x00)
                data.(len) h) as H1.
  unfold make. destruct (alloc _ _ h) as [h1 s1] eqn:Hmk.
  destruct H1 as (Hp1 & Hin1 & Harr1 & Hb1).
  assert (s1.(len) = data.(len)) as Hlen1.
  { unfold alloc in Hmk. simplify_eq. simpl. by rewrite length_replicate. }
  pose proof (SliceFacts.copy_spec s1 data h1 h Hin1
                (SliceFacts.inHeap_prefix _ _ _ Hdata Hp1) Hlen1 Harr1 Hp1)
    as (Hp2 & Hin2 & Hb2).
  destruct (copy s1 data h1) as [h2 n2]. simpl in Hp2, Hin2, Hb2.
  rewrite (SliceFacts.bytes_prefix h h1) in Hb2 by (done || apply Hdata).
  fold d in Hb2.
  set (s3 := if HasSuffix (bytes h2 s1) [logger.nl]
             then upto s1 (len s1 - 1) else s1).
  assert (inHeap h2 s3 ∧ bytes h2 s3 = interior d ∧ length h ≤ s3.(arr))
    as (Hin3 & Hb3 & Harr3).
  { unfold s3, interior. rewrite Hb2. change nl with logger.nl.
    destruct (HasSuffix d [logger.nl]); [|done].
    destruct (SliceFacts.upto_spec h2 s1 (len s1 - 1) Hin2) as [? Hu]; [lia|].
    split_and!; [done| |done]. rewrite Hu, Hb2. f_equal.
    rewrite Hlen1. unfold d. by rewrite SliceFacts.bytes_length. }
  clearbody s3.
  unfold Replace. rewrite Hb3, SliceFacts.replaceAll_newline. fold p.
  match goal with |- context [alloc ?x ?c h2] =>
    pose proof (SliceFacts.alloc_spec x c h2) as H4;
    destruct (alloc x c h2) as [h4 s4] end.
  destruct H4 as (Hp4 & Hin4 & Harr4 & Hb4).
  assert (h `prefix_of` h4) as Hp4' by (by etrans).
  assert (length h ≤ s4.(arr)) as Harr4'.
  { destruct Hp2 as [k2 ->]. rewrite length_app in Harr4. lia. }
  pose proof (SliceFacts.append_spec roundupsize s4 [logger.nl] h4 h
                Hin4 Harr4' Hp4') as H5.
  destruct (append roundupsize s4 [logger.nl] h4) as [h5 s5].
  destruct H5 as (Hp5 & Hin5 & Harr5 & Hb5). rewrite Hb4 in Hb5.
  unfold ofString. fold p.
  pose proof (SliceFacts.alloc_spec p (roundupsize (length p)) h5) as H6.
  destruct (alloc p _ h5) as [h6 s6].
  destruct H6 as (Hp6 & Hin6 & Harr6 & Hb6).
  assert (h `prefix_of` h6) as Hp6' by (by etrans).
  assert (length h ≤ s6.(arr)) as Harr6'.
  { destruct Hp5 as [k5 ->]. rewrite length_app in Harr6. lia. }
  rewrite (SliceFacts.bytes_prefix h5 h6) by (done || apply Hin5).
  rewrite Hb5.
  pose proof (SliceFacts.append_spec roundupsize s6
                (afterNewlines p (interior d) ++ [logger.nl])
                h6 h Hin6 Harr6' Hp6') as H7.
  destruct (append roundupsize s6 _ h6) as [h7 s7].
  destruct H7 as (Hp7 & Hin7 & Harr7 & Hb7). rewrite Hb6 in Hb7.
  rewrite Hb7.
  change (p ++ afterNewlines p (interior d) ++ [logger.nl]) with out.
  exists h7. split; [|done].
  by destruct (writerWrite out k) as [k' [n [e|]]].
Qed.

Lemma interior_snoc d :
  HasSuffix d [nl] = false → interior (d ++ [nl]) = d ∧ interior d = d.
Proof.
  intros Hd. unfold interior. rewrite Hd. split; [|done].
  unfold HasSuffix. rewrite bool_decide_eq_true_2 by (by exists d).
  rewrite length_app. simpl. by rewrite Nat.add_sub, take_app_length.
Qed.

End WriteFacts.

(** X13.  [WriteStr] hands the underlying writer the formatted text, prefixed
    line by line as [Write] does, in one call; it returns no error exactly
    when the underlying writer returns none, and wraps the error otherwise.
    The arrays that existed before the call are unchanged. *)
Theorem WriteStr_prefixes (roundupsize : nat → nat) {sink arg : Type}
    (writerWrite : list Byte.byte → sink → sink * (nat * option error))
    (Sprintf : string → list arg → string)
    (w : logger.LoggerPrefixWriter) (str : string) (args : list arg)
    (h : list (list Byte.byte)) (k : sink) :
  let p := String.list_byte_of_string w.(logger.prefix) in
  let d := String.list_byte_of_string (Sprintf str args) in
  let out := LoggerSpec.prefixed p d in
  ∃ h',
    WriteStr roundupsize writerWrite Sprintf w str args h k
    = (h', (writerWrite out k).1,
       match (writerWrite out k).2.2 with
       | None => None
       | Some e => Some (errorString ("write err: " +:+ Error e))
       end) ∧
    h `prefix_of` h'.
Proof.
  intros p d out. unfold WriteStr, slices.ofString. fold d.
  pose proof (SliceFacts.alloc_spec d (roundupsize (length d)) h) as H1.
  destruct (slices.alloc d _ h) as [h1 data].
  destruct H1 as (Hp1 & Hin1 & _ & Hb1).
  destruct (WriteFacts.Write_result roundupsize writerWrite w data h1 k Hin1)
    as (h' & -> & Hp'). rewrite Hb1. fold p out.
  exists h'. split; [|by etrans].
  by destruct (writerWrite out k) as [k' [n [e|]]].
Qed.

(** X14.  A final newline is optional: for bytes that do not end in a newline,
    [Write] hands the underlying writer the same bytes whether they are
    given as they are or followed by one newline, namely the prefix, the
    bytes with the prefix after each of their newlines, and one newline.
    An empty write, like a write of a lone newline, gives the line that
    holds the prefix only. *)
Theorem Write_final_newline_optional (roundupsize : nat → nat) {sink : Type}
    (writerWrite : list Byte.byte → sink → sink * (nat * option error))
    (w : logger.LoggerPrefixWriter) (data1 data2 : slices.slice)
    (h : list (list Byte.byte)) (k : sink) :
  LoggerSpec.inHeap h data1 → LoggerSpec.inHeap h data2 →
  slices.HasSuffix (slices.bytes h data1) [LoggerSpec.nl] = false →
  slices.bytes h data2 = slices.bytes h data1 ++ [LoggerSpec.nl] →
  let p := String.list_byte_of_string w.(logger.prefix) in
  let out := p ++ LoggerSpec.afterNewlines p (slices.bytes h data1)
               ++ [LoggerSpec.nl] in
  let r1 := logger.Write roundupsize writerWrite w data1 h k in
  let r2 := logger.Write roundupsize writerWrite w data2 h k in
  r1.1.2 = (writerWrite out k).1 ∧ r2.1.2 = (writerWrite out k).1 ∧
  r1.2.2 = r2.2.2 ∧
  (slices.bytes h data1 = [] → out = p ++ [LoggerSpec.nl]).
Proof.
  intros H1 H2 Hnl Heq p out r1 r2.
  destruct (WriteFacts.Write_result roundupsize writerWrite w data1 h k H1)
    as (h1 & Hr1 & _).
  destruct (WriteFacts.Write_result roundupsize writerWrite w data2 h k H2)
    as (h2 & Hr2 & _).
  destruct (WriteFacts.interior_snoc _ Hnl) as [Hi2 Hi1].
  unfold LoggerSpec.prefixed in Hr1, Hr2. rewrite Heq, Hi2 in Hr2.
  rewrite Hi1 in Hr1. fold p out in Hr1, Hr2.
  unfold r1, r2. rewrite Hr1, Hr2. simpl. split_and!; [done|done| |].
  - by destruct (writerWrite out k) as [k' [n [e|]]].
  - intros Hd. unfold out. by rewrite Hd.
Qed.

(** ** The further properties at concrete inputs *)

(** A bundle push with a lock output, in the world of the examples. *)
Lemma Run_success_trace_witness :
  let o := Examples.push "" "repo/app" "app.lock.yml" ["app"] in
  (Examples.run o).2 = Ok () ∧
  ∃ img manifestBs,
    (Examples.run o).1
    = [BuildImage true ["app"] [] (Ok img);
       WriteImage {| Context := "index.docker.io/repo/app"; TagStr := "latest";
                     Name := "index.docker.io/repo/app:latest" |} img None;
       BeginLinef "Pushed 'index.docker.io/repo/app@sha256:b321'";
       WriteFile "app.lock.yml" ("---" +:+ String "010" "" +:+ manifestBs) None;
       Remove img].
Proof.
  intros o.
  assert ((Examples.run o).2 = Ok ()) as Hok by (vm_compute; reflexivity).
  split; [done|].
  destruct (Run_success_trace map_to_list Examples.wd Examples.disk
              Examples.newTag Examples.registryOk Examples.digest
              Examples.marshal Examples.writeOk Examples.tar o Hok)
    as (ref & img & dg & Href & _ & Hdg & [[Hl _]|(_ & bs & _ & Htrace)]).
  - by vm_compute in Hl.
  - exists img, bs. unfold Examples.run. rewrite Htrace.
    vm_compute in Href. injection Href as <-.
    unfold Examples.digest in Hdg. injection Hdg as <-. reflexivity.
Defined.

(** The lock file cannot be written: the image is pushed and announced,
    [Run] fails, and the temporary image is removed. *)
Lemma Run_fails_after_push_witness :
  let o := Examples.push "" "repo/app" "locks/app.yml" ["app"] in
  let run := Run map_to_list Examples.wd Examples.disk Examples.newTag
               Examples.registryOk Examples.digest Examples.marshal
               Cases.lockFails Examples.tar in
  let ref := {| Context := "index.docker.io/repo/app"; TagStr := "latest";
                Name := "index.docker.io/repo/app:latest" |} in
  let img := {| Layer := "tarball";
                Annotations := {[ BundleAnnotation := "true" ]} |} in
  (run o).2
  = Err (errorString
           "Writing lock file: open locks/app.yml: no such file or directory") ∧
  WriteImage ref img None ∈ (run o).1 ∧
  Remove img ∈ (run o).1 ∧
  BeginLinef "Pushed 'index.docker.io/repo/app@sha256:b321'" ∈ (run o).1.
Proof.
  intros o run ref img.
  assert ((run o).2
          = Err (errorString
                   "Writing lock file: open locks/app.yml: no such file or directory"))
    as Herr by (vm_compute; reflexivity).
  assert (WriteImage ref img None ∈ (run o).1) as Hin.
  { assert ((run o).1 !! 1 = Some (WriteImage ref img None)) as Hl
      by (vm_compute; reflexivity).
    by apply list_elem_of_lookup_2 in Hl. }
  destruct (Run_fails_after_push map_to_list Examples.wd Examples.disk
              Examples.newTag Examples.registryOk Examples.digest
              Examples.marshal Cases.lockFails Examples.tar o ref img _ Herr Hin)
    as [Hrm [[Hdg _]|(dg & Hdg & Hpushed & _)]].
  - by vm_compute in Hdg.
  - split_and!; [done..|].
    unfold Examples.digest in Hdg. injection Hdg as <-. exact Hpushed.
Defined.

(** A reference that does not parse, an image build that fails, and a
    registry that refuses the write. *)
Lemma Run_reports_reference_witness :
  let o := Examples.push "" "Repo/App" "" ["app"] in
  let ref := {| Context := "index.docker.io/Repo/App"; TagStr := "latest";
                Name := "index.docker.io/Repo/App:latest" |} in
  let img := {| Layer := "tarball";
                Annotations := {[ BundleAnnotation := "true" ]} |} in
  Run map_to_list Examples.wd Examples.disk Cases.badTag Examples.registryOk
    Examples.digest Examples.marshal Examples.writeOk Examples.tar o
  = ([], Err (errorString "Parsing 'Repo/App': could not parse reference")) ∧
  Run map_to_list Examples.wd Examples.disk Examples.newTag Examples.registryOk
    Examples.digest Examples.marshal Examples.writeOk Cases.tarFails o
  = ([BuildImage true ["app"] [] (Err (errorString "no space left on device"))],
     Err (errorString "no space left on device")) ∧
  Run map_to_list Examples.wd Examples.disk Examples.newTag Cases.refuses
    Examples.digest Examples.marshal Examples.writeOk Examples.tar o
  = ([BuildImage true ["app"] [] (Ok img);
      WriteImage ref img (Some (errorString "UNAUTHORIZED: authentication required"));
      Remove img],
     Err (errorString
            "Writing 'index.docker.io/Repo/App:latest': UNAUTHORIZED: authentication required")).
Proof.
  intros o ref img.
  assert (validateFlags o = None) as Hflags by done.
  assert (validateFiles map_to_list o Examples.wd Examples.disk = None) as Hfiles
    by (vm_compute; reflexivity).
  split_and!.
  - destruct (Run_reports_reference map_to_list Examples.wd Examples.disk
                Cases.badTag Examples.registryOk Examples.digest Examples.marshal
                Examples.writeOk Examples.tar o Hflags Hfiles) as (Hparse & _ & _).
    by rewrite (Hparse (errorString "could not parse reference")).
  - destruct (Run_reports_reference map_to_list Examples.wd Examples.disk
                Examples.newTag Examples.registryOk Examples.digest
                Examples.marshal Examples.writeOk Cases.tarFails o Hflags Hfiles)
      as (_ & Hbuild & _).
    by rewrite (Hbuild ref (errorString "no space left on device")).
  - destruct (Run_reports_reference map_to_list Examples.wd Examples.disk
                Examples.newTag Cases.refuses Examples.digest Examples.marshal
                Examples.writeOk Examples.tar o Hflags Hfiles) as (_ & _ & Hwrite).
    by rewrite (Hwrite ref img
                  (errorString "UNAUTHORIZED: authentication required")).
Defined.

(** The same bundle directory given as [config], as [config/] and as
    [./config]: only the first form passes the validation of push, for a
    bundle; all pass the validation of bundle contents. *)
Lemma directory_accepted_iff_witness :
  let o := Examples.push "" "repo/app" "" ["config"] in
  let image := Examples.push "repo/img" "" "" ["docs"] in
  validateFiles map_to_list o Examples.wd Cases.disk = None ∧
  validateFiles map_to_list image Examples.wd Cases.disk = None.
Proof.
  intros o image.
  assert (∀ m : gmap string (list string), map_to_list m ≡ₚ map_to_list m) as Hperm
    by done.
  split.
  - apply (directory_accepted_iff map_to_list Hperm o Examples.wd Cases.disk
             "config"
             [(".imgpkg", Examples.bundleDir); ("README.md", File);
              ("config", Directory [("config.yml", File)])]).
    + reflexivity.
    + reflexivity.
    + compute_done.
    + split; [compute_done|].
      intros _. split_and!; [done|by vm_compute|right; done].
  - apply (directory_accepted_iff map_to_list Hperm image Examples.wd Cases.disk
             "docs" [("README.md", File)]).
    + reflexivity.
    + reflexivity.
    + compute_done.
    + split; [compute_done|].
      intros Hin. vm_compute in Hin. RunFacts.elem_inv.
Defined.

(** The general law at an image push of a directory and a file. *)
Lemma validateFiles_passes_iff_witness :
  validateFiles map_to_list
    (Examples.push "repo/img" "" "" ["docs"; "a/x.yml"]) Examples.wd Cases.disk
  = None.
Proof.
  apply (validateFiles_passes_iff map_to_list (λ m, reflexivity _)).
  split_and!.
  - apply Forall_forall. intros tv Htv. vm_compute in Htv.
    RunFacts.elem_inv; reflexivity.
  - vm_compute. lia.
  - intros k.
    assert (NoDup (recorded Cases.disk ["docs"; "a/x.yml"]).*1) as Hnd
      by compute_done.
    by apply AcceptFacts.pathsAt_NoDup.
Defined.

(** Two files from different directories. *)
Lemma file_inputs_accepted_witness :
  validateFiles map_to_list
    (Examples.push "repo/img" "" "" ["a/x.yml"; "b/y.yml"]) Examples.wd Cases.disk
  = None.
Proof.
  apply (file_inputs_accepted map_to_list).
  - done.
  - repeat (constructor; [split; [reflexivity|by vm_compute]|]). constructor.
  - compute_done.
Defined.

(** A missing input path after a good one: the error of [Lstat] comes
    back, and the bundle directory given after it is not looked at. *)
Lemma validateFiles_first_error_witness :
  validateFiles map_to_list
    (Examples.push "repo/img" "" "" ["docs"; "gone"; "config"])
    Examples.wd Cases.disk
  = Some (PathError "lstat gone: no such file or directory").
Proof.
  apply (validateFiles_first_error map_to_list _ Examples.wd Cases.disk
           [("docs", ("docs", Some {| IsDir := true |}, None));
            ("docs", ("docs/README.md", Some {| IsDir := false |}, None))]
           (pair "config" <$> Walk.visits "config" Cases.config)
           ("gone", ("gone", None,
                     Some (PathError "lstat gone: no such file or directory")))).
  - vm_compute. reflexivity.
  - repeat constructor.
  - reflexivity.
Defined.

(** The bundle directory given with a trailing slash. *)
Lemma unclean_root_rejected_witness :
  let o := Examples.push "" "repo/app" "" ["config/"] in
  validateFiles map_to_list o Examples.wd Cases.disk
  = Some (errorString
            "Expected '.imgpkg' dir to be a direct child of 'config/', but was: 'config/.imgpkg'") ∧
  validateFiles map_to_list (Examples.push "" "repo/app" "" ["./config"])
    Examples.wd Cases.disk ≠ None.
Proof.
  intros o. split.
  - vm_compute. reflexivity.
  - apply (unclean_root_rejected map_to_list
             (Examples.push "" "repo/app" "" ["./config"]) Examples.wd Cases.disk
             "./config"
             [(".imgpkg", Examples.bundleDir); ("README.md", File);
              ("config", Directory [("config.yml", File)])]
             Examples.bundleDir).
    + by left.
    + reflexivity.
    + by left.
    + by vm_compute.
Defined.

(** Two groups of colliding paths, listed in one order and in the other. *)
Lemma map_order_irrelevant_witness :
  let o := Examples.push "repo/img" "" "" ["a/x.yml"; "b/x.yml"; "plain"; "plain"] in
  validateFiles map_to_list o Examples.wd Examples.disk
  = Some (errorString
            "Found duplicate paths: plain/README.md, plain/README.md, a/x.yml, b/x.yml") ∧
  ∃ l1 l2,
    validateFiles map_to_list o Examples.wd Examples.disk
    = Some (duplicatePaths l1) ∧
    validateFiles Cases.reversed o Examples.wd Examples.disk
    = Some (duplicatePaths l2) ∧
    l1 ≡ₚ l2.
Proof.
  intros o.
  assert (validateFiles map_to_list o Examples.wd Examples.disk
          = Some (errorString
                    "Found duplicate paths: plain/README.md, plain/README.md, a/x.yml, b/x.yml"))
    as Hv by (vm_compute; reflexivity).
  split; [done|].
  destruct (map_order_irrelevant map_to_list Cases.reversed
              (λ m, reflexivity _) (λ m, reverse_Permutation _)
              o Examples.wd Examples.disk) as [_ Herr].
  destruct (Herr _ Hv) as [Hsame|(l1 & l2 & H1 & H2 & Hperm)].
  - exfalso. vm_compute in Hsame. discriminate Hsame.
  - exists l1, l2. split; [|split; [exact H2|exact Hperm]].
    rewrite Hv. f_equal. exact H1.
Defined.

(** The bundle directory given with a trailing slash and with a leading
    [./], a directory without [.imgpkg], and a directory with a second
    [.imgpkg] further down. *)
Lemma bundle_contents_accepted_iff_witness :
  validate Examples.wd Cases.disk (NewContents ["config/"] []) = None ∧
  PresentsAsBundle Examples.wd Cases.disk (NewContents ["./config"] [])
  = (true, None) ∧
  PresentsAsBundle Examples.wd Cases.disk (NewContents ["docs"] [])
  = (false, None) ∧
  PresentsAsBundle Examples.wd Examples.disk (NewContents ["twice"] [])
  = (false, None).
Proof.
  split_and!.
  - apply (bundle_contents_accepted_iff Examples.wd Cases.disk "config/"
             [(".imgpkg", Examples.bundleDir); ("README.md", File);
              ("config", Directory [("config.yml", File)])] []).
    + reflexivity.
    + compute_done.
    + by vm_compute.
    + right. by exists "/work".
    + split; [compute_done|by left].
  - destruct (bundle_contents_accepted_iff Examples.wd Cases.disk "./config"
                [(".imgpkg", Examples.bundleDir); ("README.md", File);
                 ("config", Directory [("config.yml", File)])] []) as [_ ->].
    + reflexivity.
    + compute_done.
    + by vm_compute.
    + right. by exists "/work".
    + by vm_compute.
  - destruct (bundle_contents_accepted_iff Examples.wd Cases.disk "docs"
                [("README.md", File)] []) as [_ ->].
    + reflexivity.
    + compute_done.
    + by vm_compute.
    + right. by exists "/work".
    + by vm_compute.
  - destruct (bundle_contents_accepted_iff Examples.wd Examples.disk "twice"
                [(".imgpkg", Examples.bundleDir);
                 ("sub", Directory [(".imgpkg", Examples.bundleDir)])] [])
      as [_ ->].
    + reflexivity.
    + compute_done.
    + by vm_compute.
    + right. by exists "/work".
    + by vm_compute.
Defined.

(** The same line with and without its final newline, from one array. *)
Lemma Write_final_newline_optional_witness :
  let h := [String.list_byte_of_string ("done" +:+ String "010" "")] in
  let data1 := {| slices.arr := 0; slices.off := 0; slices.len := 4;
                  slices.cap := 5 |} in
  let data2 := {| slices.arr := 0; slices.off := 0; slices.len := 5;
                  slices.cap := 5 |} in
  let w := {| logger.prefix := "p| " |} in
  let out := String.list_byte_of_string ("p| done" +:+ String "010" "") in
  (logger.Write (λ n, n + 8) Examples.logged w data1 h []).1.2 = out ∧
  (logger.Write (λ n, n + 8) Examples.logged w data2 h []).1.2 = out.
Proof.
  intros h data1 data2 w out.
  destruct (Write_final_newline_optional (λ n, n + 8) Examples.logged w
              data1 data2 h []) as (H1 & H2 & _).
  - vm_compute. lia.
  - vm_compute. lia.
  - by vm_compute.
  - by vm_compute.
  - rewrite H1, H2. by vm_compute.
Defined.
